(** * Pre-Calc Placement Coach: session/state-sync core

    A shallow embedding of the pure helpers and of the session controller of
    [pre_calc_placement_coach.jsx], with the properties the specification
    states about them.

    JavaScript strings are sequences of UTF-16 code units; they are modelled
    as lists of [N].  Regular-expression literals of the source are values of
    a small regex syntax, run by a backtracking matcher that follows the
    ECMAScript pattern semantics (continuations, greedy and lazy stars,
    leftmost match). *)

From Stdlib Require Import Ascii String.
From Stdlib Require Import List NArith ZArith Bool Lia Arith.
Import ListNotations.

Local Open Scope N_scope.

(** ** Code units and strings *)

Definition jsstring := list N.

(** An ASCII literal as a JavaScript string. *)
Definition js (s : string) : jsstring := map N_of_ascii (list_ascii_of_string s).

Definition jsstring_eqb (a b : jsstring) : bool :=
  if list_eq_dec N.eq_dec a b then true else false.

(** ECMAScript [WhiteSpace]: TAB, VT, FF, ZWNBSP and the category Zs. *)
Definition isWhiteSpace (c : N) : bool :=
  (c =? 9) || (c =? 11) || (c =? 12) || (c =? 32) || (c =? 160) ||
  (c =? 5760) || ((8192 <=? c) && (c <=? 8202)) || (c =? 8239) ||
  (c =? 8287) || (c =? 12288) || (c =? 65279).

(** ECMAScript [LineTerminator]: LF, CR, LS, PS. *)
Definition isLineTerminator (c : N) : bool :=
  (c =? 10) || (c =? 13) || (c =? 8232) || (c =? 8233).

(** The class [\s] of regular expressions, which is also the set that
    [String.prototype.trim] strips. *)
Definition isSpace (c : N) : bool := isWhiteSpace c || isLineTerminator c.

Definition isDigit (c : N) : bool := (48 <=? c) && (c <=? 57).
Definition isUpper (c : N) : bool := (65 <=? c) && (c <=? 90).
Definition isLower (c : N) : bool := (97 <=? c) && (c <=? 122).
Definition isAlpha (c : N) : bool := isUpper c || isLower c.
(** The class [\w], which decides [\b]. *)
Definition isWordChar (c : N) : bool := isAlpha c || isDigit c || (c =? 95).

Fixpoint dropWhile {A} (p : A -> bool) (l : list A) : list A :=
  match l with
  | [] => []
  | x :: l' => if p x then dropWhile p l' else l
  end.

Fixpoint takeWhile {A} (p : A -> bool) (l : list A) : list A :=
  match l with
  | [] => []
  | x :: l' => if p x then x :: takeWhile p l' else []
  end.

Definition trimStart (s : jsstring) : jsstring := dropWhile isSpace s.
Definition trimEnd (s : jsstring) : jsstring := rev (dropWhile isSpace (rev s)).
(** [String.prototype.trim]. *)
Definition trim (s : jsstring) : jsstring := trimEnd (trimStart s).

(** JavaScript truthiness of a string: non-empty. *)
Definition truthy (s : jsstring) : bool :=
  match s with [] => false | _ :: _ => true end.

(** ** Regular expressions *)

Module Regex.

Inductive regex : Type :=
| Empty                                   (* the empty pattern *)
| Class (p : N -> bool)                   (* one code unit of a class *)
| Seq (r1 r2 : regex)                     (* concatenation *)
| Star (greedy : bool) (r : regex)        (* r* and r*? *)
| Cap (r : regex)                         (* capture group 1 *)
| Bol (multiline : bool)                  (* ^ *)
| Eol (multiline : bool)                  (* $ *)
| WordB.                                  (* \b *)

(** Matcher state: the text before the cursor (most recent first), the text
    after it, and the current value of capture group 1. *)
Record mstate : Type := MState {
  before : jsstring;
  after : jsstring;
  cap : option jsstring
}.

Definition Chr (c : N) : regex := Class (N.eqb c).
(** A letter under the [i] flag.  Without the [u] flag a code unit above 127
    never canonicalizes to an ASCII letter, so only the two ASCII cases
    match. *)
Definition ChrI (upper : N) : regex :=
  Class (fun c => (c =? upper) || (c =? upper + 32)).
Fixpoint Lit (l : jsstring) : regex :=
  match l with
  | [] => Empty
  | c :: l' => Seq (Chr c) (Lit l')
  end.
Fixpoint LitI (l : jsstring) : regex :=
  match l with
  | [] => Empty
  | c :: l' => Seq (ChrI c) (LitI l')
  end.
Definition Plus (r : regex) : regex := Seq r (Star true r).

Definition atBol (multiline : bool) (st : mstate) : bool :=
  match before st with
  | [] => true
  | c :: _ => multiline && isLineTerminator c
  end.

Definition atEol (multiline : bool) (st : mstate) : bool :=
  match after st with
  | [] => true
  | c :: _ => multiline && isLineTerminator c
  end.

Definition isWordAt (l : jsstring) : bool :=
  match l with
  | [] => false
  | c :: _ => isWordChar c
  end.

Definition atWordB (st : mstate) : bool :=
  negb (Bool.eqb (isWordAt (before st)) (isWordAt (after st))).

Section Matcher.
Context {A : Type}.

(** The iterations of a star whose body is matched by [body].  An
    iteration that consumes nothing is rejected, as in ECMAScript, so the
    length of the remaining text bounds the number of iterations. *)
Fixpoint starLoop (body : mstate -> (mstate -> option A) -> option A)
  (greedy : bool) (k : mstate -> option A) (n : nat) (st : mstate)
  {struct n} : option A :=
  match n with
  | O => k st
  | S n' =>
      let iter :=
        body st (fun st' =>
          if (length (after st') <? length (after st))%nat
          then starLoop body greedy k n' st' else None) in
      if greedy then
        match iter with Some x => Some x | None => k st end
      else
        match k st with Some x => Some x | None => iter end
  end.

(** [rmatch r st k]: match [r] at [st], then continue with [k]; the first
    alternative for which [k] succeeds wins. *)
Fixpoint rmatch (r : regex) (st : mstate) (k : mstate -> option A)
  {struct r} : option A :=
  match r with
  | Empty => k st
  | Class p =>
      match after st with
      | c :: rest =>
          if p c then k (MState (c :: before st) rest (cap st)) else None
      | [] => None
      end
  | Seq r1 r2 => rmatch r1 st (fun st' => rmatch r2 st' k)
  | Star greedy r1 =>
      starLoop (rmatch r1) greedy k (length (after st)) st
  | Cap r1 =>
      rmatch r1 st (fun st' =>
        k (MState (before st') (after st')
             (Some (firstn (length (after st) - length (after st'))
                           (after st)))))
  | Bol m => if atBol m st then k st else None
  | Eol m => if atEol m st then k st else None
  | WordB => if atWordB st then k st else None
  end.
End Matcher.

(** Leftmost match at or after the cursor: the result is the state at the
    end of the match. *)
Fixpoint search (r : regex) (bef aft : jsstring) : option mstate :=
  match rmatch r (MState bef aft None) Some with
  | Some st => Some st
  | None =>
      match aft with
      | [] => None
      | c :: aft' => search r (c :: bef) aft'
      end
  end.

(** [RegExp.prototype.exec] of a regex without the [g] flag, and [test]. *)
Definition exec (r : regex) (s : jsstring) : option mstate := search r [] s.
Definition test (r : regex) (s : jsstring) : bool :=
  match exec r s with Some _ => true | None => false end.

End Regex.
Import Regex.

(** ** Helpers: YAML extraction (source lines 156-178) *)

Definition anyChar : N -> bool := fun _ => true.

(** The three backticks of a fence marker. *)
Definition fence : jsstring := [96; 96; 96].

(** [/```[a-zA-Z]*\n([\s\S]*?)```/g] *)
Definition codeBlockRegex : regex :=
  Seq (Lit fence)
    (Seq (Star true (Class isAlpha))
       (Seq (Chr 10)
          (Seq (Cap (Star false (Class anyChar)))
             (Lit fence)))).

(** [/^\s*STATE\s*:/m] *)
Definition stateLineRegex : regex :=
  Seq (Bol true)
    (Seq (Star true (Class isSpace))
       (Seq (Lit (js "STATE"))
          (Seq (Star true (Class isSpace))
             (Chr 58)))).

Definition capture (st : mstate) : jsstring :=
  match cap st with Some b => b | None => [] end.

(** The [while ((match = codeBlockRegex.exec(text)) !== null)] loop.  The
    regex carries the [g] flag, so each [exec] resumes at the end of the
    previous match.  [None] stands for a loop that has not finished within
    [fuel] iterations. *)
Fixpoint extractLoop (fuel : nat) (bef aft : jsstring)
  (lastYaml : option jsstring) : option (option jsstring) :=
  match fuel with
  | O => None
  | S fuel' =>
      match search codeBlockRegex bef aft with
      | None => Some lastYaml
      | Some st =>
          let block := capture st in
          extractLoop fuel' (before st) (after st)
            (if test stateLineRegex block then Some (trim block)
             else lastYaml)
      end
  end.

Definition extractStateYaml (text : jsstring) : option jsstring :=
  match extractLoop (S (length text)) [] text None with
  | Some r => r
  | None => None
  end.

(** The integer that a string of decimal digits denotes. *)
Definition digitValue (c : N) : N := c - 48.
Definition numberOfDigits (ds : jsstring) : N :=
  fold_left (fun acc c => 10 * acc + digitValue c) ds 0.

(** The numbers that [Number] returns for a string of digits: the
    non-negative integers that are doubles, and [Infinity]. *)
Inductive jsnumber : Type :=
| Finite (n : N)
| Infinity.
Coercion Finite : N >-> jsnumber.

(** The double nearest to the integer [n], ties to the even significand.
    An integer of at most 53 bits is a double; a longer one keeps its 53
    leading bits, rounded; from 2^1024 - 2^970 on the result is
    [Infinity]. *)
Definition roundToDouble (n : N) : jsnumber :=
  if N.size n <=? 53 then Finite n
  else
    let e := N.size n - 53 in
    let q := N.shiftr n e in
    let r := n mod 2 ^ e in
    let half := 2 ^ (e - 1) in
    let q' := if (half <? r) || ((r =? half) && N.odd q) then q + 1
              else q in
    if N.shiftl q' e <? 2 ^ 1024 then Finite (N.shiftl q' e) else Infinity.

(** [Number(ds)] for a string of decimal digits. *)
Definition Number (ds : jsstring) : jsnumber :=
  roundToDouble (numberOfDigits ds).

Definition notCloseBrace (c : N) : bool := negb (c =? 125).

(** [/progress:\s*{[^}]*KEY:\s*(\d+)/] for a key of the inline mapping. *)
Definition progressFieldRegex (key : jsstring) : regex :=
  Seq (Lit (js "progress:"))
    (Seq (Star true (Class isSpace))
       (Seq (Chr 123)
          (Seq (Star true (Class notCloseBrace))
             (Seq (Lit key)
                (Seq (Star true (Class isSpace))
                   (Cap (Plus (Class isDigit)))))))).

Definition currentStageRegex : regex := progressFieldRegex (js "current_stage:").
Definition stagesTotalRegex : regex := progressFieldRegex (js "stages_total:").

Record ProgressInfo : Type := {
  current : option jsnumber;
  total : jsnumber
}.

(** The argument is [None] for [null]/[undefined]; the empty string is falsy
    as well. *)
Definition parseStageProgress (yamlText : option jsstring) : ProgressInfo :=
  match yamlText with
  | None => {| current := None; total := 8 |}
  | Some [] => {| current := None; total := 8 |}
  | Some text =>
      let m1 := exec currentStageRegex text in
      let m2 := exec stagesTotalRegex text in
      {| current := match m1 with
                    | Some st => Some (Number (capture st))
                    | None => None
                    end;
         total := match m2 with
                  | Some st => Number (capture st)
                  | None => Finite 8
                  end |}
  end.

Definition nl : string := String (ascii_of_nat 10) EmptyString.


(** ** Application state (source lines 240-260) *)

Inductive Role : Type := system | user | assistant.

Record Message : Type := {
  role : Role;
  content : jsstring
}.

Record Settings : Type := {
  baseUrl : jsstring;
  model : jsstring;
  apiKey : jsstring
}.

(** The three [localStorage] slots; [None] is a key that was never written. *)
Record Storage : Type := {
  stored_settings : option Settings;
  stored_transcript : option (list Message);
  stored_lastYaml : option jsstring
}.

(** The state of the [App] component: the [useState] cells, the
    [lastActionRef] cell and the browser storage the effects write to. *)
Record AppState : Type := {
  settings : Settings;
  messages : list Message;
  input : jsstring;
  busy : bool;
  error : jsstring;
  lastAction : Z;
  drawerOpen : bool;
  lastYaml : jsstring;
  storage : Storage
}.

(** The state setters.  [setMessages] and [setLastYaml] include the
    persistence effect that runs when the value they set changes
    ([saveTranscript], [saveLastYaml]). *)
Definition setMessages (m : list Message) (s : AppState) : AppState :=
  {| settings := settings s; messages := m; input := input s; busy := busy s;
     error := error s; lastAction := lastAction s; drawerOpen := drawerOpen s;
     lastYaml := lastYaml s;
     storage := {| stored_settings := stored_settings (storage s);
                   stored_transcript := Some m;
                   stored_lastYaml := stored_lastYaml (storage s) |} |}.

Definition setLastYaml (y : jsstring) (s : AppState) : AppState :=
  {| settings := settings s; messages := messages s; input := input s;
     busy := busy s; error := error s; lastAction := lastAction s;
     drawerOpen := drawerOpen s; lastYaml := y;
     storage :=
       if jsstring_eqb y (lastYaml s) then storage s
       else {| stored_settings := stored_settings (storage s);
               stored_transcript := stored_transcript (storage s);
               stored_lastYaml := Some y |} |}.

Definition setInput (i : jsstring) (s : AppState) : AppState :=
  {| settings := settings s; messages := messages s; input := i;
     busy := busy s; error := error s; lastAction := lastAction s;
     drawerOpen := drawerOpen s; lastYaml := lastYaml s;
     storage := storage s |}.

Definition setBusy (b : bool) (s : AppState) : AppState :=
  {| settings := settings s; messages := messages s; input := input s;
     busy := b; error := error s; lastAction := lastAction s;
     drawerOpen := drawerOpen s; lastYaml := lastYaml s;
     storage := storage s |}.

Definition setError (e : jsstring) (s : AppState) : AppState :=
  {| settings := settings s; messages := messages s; input := input s;
     busy := busy s; error := e; lastAction := lastAction s;
     drawerOpen := drawerOpen s; lastYaml := lastYaml s;
     storage := storage s |}.

Definition setDrawerOpen (v : bool) (s : AppState) : AppState :=
  {| settings := settings s; messages := messages s; input := input s;
     busy := busy s; error := error s; lastAction := lastAction s;
     drawerOpen := v; lastYaml := lastYaml s; storage := storage s |}.

Definition setLastAction (t : Z) (s : AppState) : AppState :=
  {| settings := settings s; messages := messages s; input := input s;
     busy := busy s; error := error s; lastAction := t;
     drawerOpen := drawerOpen s; lastYaml := lastYaml s;
     storage := storage s |}.

(** ** Session controller (source lines 306-319 and 436-514) *)

(** [canAct], with [Date.now()] passed in. *)
Definition canAct (now : Z) (s : AppState) : bool * AppState :=
  if (now - lastAction s <? 300)%Z then (false, s)
  else (true, setLastAction now s).

(** [/openai\.com/] *)
Definition openaiRegex : regex := Lit (js "openai.com").

(** [ensureSettings]: [Some msg] is the message of the error it throws. *)
Definition ensureSettings (cfg : Settings) : option jsstring :=
  if negb (truthy (baseUrl cfg)) then Some (js "Base URL is required")
  else if test openaiRegex (baseUrl cfg) && negb (truthy (apiKey cfg))
       then Some (js "API key required for OpenAI base URL")
       else None.

(** [/^STATE$/i] and [/\bSTATE\b/i] *)
Definition toggleRegex : regex :=
  Seq (Bol false) (Seq (LitI (js "STATE")) (Eol false)).
Definition stateWordRegex : regex :=
  Seq WordB (Seq (LitI (js "STATE")) WordB).

(** A call of [callChatCompletions]. *)
Record Request : Type := {
  req_baseUrl : jsstring;
  req_apiKey : jsstring;
  req_model : jsstring;
  req_messages : list Message
}.

(** What a rejected call throws, as [String(e.message || e)] sees it. *)
Record Exception : Type := {
  e_name : jsstring;
  e_message : jsstring
}.

Definition errorText (e : Exception) : jsstring :=
  if truthy (e_message e) then e_message e else e_name e.

(** The part of an [async] handler that is suspended on the outbound call:
    the continuation of [startSession], or that of [sendUser] with the text
    it closed over. *)
Inductive Pending : Type :=
| PendingStart
| PendingSend (text : jsstring).

Definition requestOf (s : AppState) (msgs : list Message) : Request :=
  {| req_baseUrl := baseUrl (settings s); req_apiKey := apiKey (settings s);
     req_model := model (settings s); req_messages := msgs |}.

Section Controller.
(** The fixed controller instruction sent as the system message. *)
Variable CONTROLLER_PROMPT : jsstring.

(** [startSession] up to its outbound call. *)
Definition startSession (now : Z) (s : AppState)
  : AppState * option (Request * Pending) :=
  if busy s then (s, None)
  else
    let (ok, s1) := canAct now s in
    if negb ok then (s1, None)
    else
      let s2 := setError [] s1 in
      match ensureSettings (settings s2) with
      | Some msg => (setBusy false (setError msg s2), None)
      | None =>
          let seed :=
            [ {| role := system; content := CONTROLLER_PROMPT |};
              {| role := user;
                 content := js "Start. Please begin at Stage 0." |} ] in
          let s3 := setBusy true (setMessages seed s2) in
          (s3, Some (requestOf s seed, PendingStart))
      end.

(** [sendUser] up to its outbound call.  The second component is the call
    it issues, if any, with the continuation waiting for it. *)
Definition sendUser (now : Z) (text : jsstring) (s : AppState)
  : AppState * option (Request * Pending) :=
  if negb (truthy (trim text)) then (s, None)
  else if busy s then (s, None)
  else
    let (ok, s1) := canAct now s in
    if negb ok then (s1, None)
    else if test toggleRegex (trim text)
            && (truthy (lastYaml s1) && truthy (trim (lastYaml s1)))
    then (setInput [] (setDrawerOpen (negb (drawerOpen s1)) s1), None)
    else
      let s2 := setError [] s1 in
      match ensureSettings (settings s2) with
      | Some msg => (setBusy false (setError msg s2), None)
      | None =>
          let next := messages s ++ [ {| role := user; content := text |} ] in
          let s3 := setInput [] (setBusy true (setMessages next s2)) in
          (s3, Some (requestOf s next, PendingSend text))
      end.

Definition appendAssistant (assistantText : jsstring) (s : AppState)
  : AppState :=
  setMessages
    (messages s ++ [ {| role := assistant; content := assistantText |} ]) s.

Definition yamlFound (yaml : option jsstring) : bool :=
  match yaml with Some y => truthy y | None => false end.

Definition yamlText (yaml : option jsstring) : jsstring :=
  match yaml with Some y => y | None => [] end.

(** The rest of a handler once the outbound call has returned
    [assistantText]. *)
Definition callResolved (p : Pending) (assistantText : jsstring)
  (s : AppState) : AppState :=
  let yaml := extractStateYaml assistantText in
  let s1 :=
    match p with
    | PendingStart =>
        if yamlFound yaml
        then setDrawerOpen true (setLastYaml (yamlText yaml) s)
        else s
    | PendingSend text =>
        if yamlFound yaml
        then setDrawerOpen true (setLastYaml (yamlText yaml) s)
        else if test stateWordRegex text
             then setLastYaml [] (setDrawerOpen false s)
             else s
    end in
  setBusy false (appendAssistant assistantText s1).

(** The rest of a handler once the outbound call has thrown [e]. *)
Definition callRejected (p : Pending) (e : Exception) (s : AppState)
  : AppState :=
  setBusy false (setError (errorText e) s).

(** [resetSession] *)
Definition resetSession (s : AppState) : AppState :=
  setError [] (setDrawerOpen false (setLastYaml [] (setMessages [] s))).

(** *** The event loop

    The page is single-threaded: handlers run one at a time, and an
    [async] handler is split at its outbound call.  A world is the
    application state, the suspended continuation (if a call is in
    flight) and the log of the calls issued so far. *)
Record World : Type := {
  appState : AppState;
  inflight : option Pending;
  calls : list Request
}.

Inductive Event : Type :=
| EvStartSession (now : Z)
| EvSendUser (now : Z) (text : jsstring)
| EvResetSession (now : Z)
| EvCallResolved (assistantText : jsstring)
| EvCallRejected (e : Exception).

Definition launch (w : World) (r : AppState * option (Request * Pending))
  : World :=
  match r with
  | (s', None) =>
      {| appState := s'; inflight := inflight w; calls := calls w |}
  | (s', Some (req, p)) =>
      {| appState := s'; inflight := Some p; calls := calls w ++ [req] |}
  end.

Definition step (w : World) (ev : Event) : World :=
  match ev with
  | EvStartSession now => launch w (startSession now (appState w))
  | EvSendUser now text => launch w (sendUser now text (appState w))
  | EvResetSession _ =>
      {| appState := resetSession (appState w); inflight := inflight w;
         calls := calls w |}
  | EvCallResolved assistantText =>
      match inflight w with
      | Some p =>
          {| appState := callResolved p assistantText (appState w);
             inflight := None; calls := calls w |}
      | None => w
      end
  | EvCallRejected e =>
      match inflight w with
      | Some p =>
          {| appState := callRejected p e (appState w);
             inflight := None; calls := calls w |}
      | None => w
      end
  end.

Definition run (w : World) (evs : list Event) : World :=
  fold_left step evs w.
End Controller.

(** ** Built-ins used by the MagicLink helpers

    The helpers of the source are compositions of platform functions; each
    of them is modelled after its specification (ECMAScript for the URI and
    JSON functions, HTML for [btoa] and [atob]).  A function that throws
    returns [None]. *)

Module Builtins.

Definition hexDigit (upper : bool) (n : N) : N :=
  if n <? 10 then 48 + n else (if upper then 55 else 87) + n.

Definition hexValue (c : N) : option N :=
  if isDigit c then Some (c - 48)
  else if (65 <=? c) && (c <=? 70) then Some (c - 55)
  else if (97 <=? c) && (c <=? 102) then Some (c - 87)
  else None.

Definition hexByte (h1 h2 : N) : option N :=
  match hexValue h1, hexValue h2 with
  | Some a, Some b => Some (16 * a + b)
  | _, _ => None
  end.

Definition hexWord (h1 h2 h3 h4 : N) : option N :=
  match hexByte h1 h2, hexByte h3 h4 with
  | Some a, Some b => Some (256 * a + b)
  | _, _ => None
  end.

Definition isHighSurrogate (c : N) : bool := (55296 <=? c) && (c <=? 56319).
Definition isLowSurrogate (c : N) : bool := (56320 <=? c) && (c <=? 57343).

(** The UTF-8 octets of a code point. *)
Definition utf8Octets (cp : N) : list N :=
  if cp <? 128 then [cp]
  else if cp <? 2048 then [192 + cp / 64; 128 + cp mod 64]
  else if cp <? 65536 then
    [224 + cp / 4096; 128 + (cp / 64) mod 64; 128 + cp mod 64]
  else
    [240 + cp / 262144; 128 + (cp / 4096) mod 64; 128 + (cp / 64) mod 64;
     128 + cp mod 64].

Definition pctOctet (b : N) : jsstring :=
  [37; hexDigit true (b / 16); hexDigit true (b mod 16)].

(** The characters [encodeURIComponent] leaves alone:
    letters, digits and [- _ . ! ~ * ' ( )]. *)
Definition uriUnreserved (c : N) : bool :=
  isAlpha c || isDigit c || (c =? 45) || (c =? 95) || (c =? 46) ||
  (c =? 33) || (c =? 126) || (c =? 42) || (c =? 39) || (c =? 40) ||
  (c =? 41).

(** [encodeURIComponent]: throws on an unpaired surrogate. *)
Fixpoint encodeURIComponent (s : jsstring) : option jsstring :=
  match s with
  | [] => Some []
  | c :: rest =>
      if uriUnreserved c then option_map (cons c) (encodeURIComponent rest)
      else if isHighSurrogate c then
        match rest with
        | d :: rest' =>
            if isLowSurrogate d then
              option_map
                (app (flat_map pctOctet
                        (utf8Octets (65536 + (c - 55296) * 1024 + (d - 56320)))))
                (encodeURIComponent rest')
            else None
        | [] => None
        end
      else if isLowSurrogate c then None
      else option_map (app (flat_map pctOctet (utf8Octets c)))
                      (encodeURIComponent rest)
  end.

(** [unescape]: [%uXXXX] and [%XX] become the code unit they name. *)
Fixpoint unescape (s : jsstring) : jsstring :=
  match s with
  | [] => []
  | c :: rest =>
      if c =? 37 then
        match rest with
        | u :: t1 =>
            let asWord :=
              if u =? 117 then
                match t1 with
                | h1 :: h2 :: h3 :: h4 :: t5 =>
                    match hexWord h1 h2 h3 h4 with
                    | Some w => Some (w :: unescape t5)
                    | None => None
                    end
                | _ => None
                end
              else None in
            let asByte :=
              match t1 with
              | h2 :: t2 =>
                  match hexByte u h2 with
                  | Some b => Some (b :: unescape t2)
                  | None => None
                  end
              | [] => None
              end in
            match asWord with
            | Some r => r
            | None =>
                match asByte with
                | Some r => r
                | None => c :: unescape rest
                end
            end
        | [] => c :: unescape rest
        end
      else c :: unescape rest
  end.

(** The characters [escape] leaves alone: letters, digits and [@*_+-./]. *)
Definition escapeSafe (c : N) : bool :=
  isAlpha c || isDigit c || (c =? 64) || (c =? 42) || (c =? 95) ||
  (c =? 43) || (c =? 45) || (c =? 46) || (c =? 47).

Definition escapeUnit (c : N) : jsstring :=
  if escapeSafe c then [c]
  else if c <? 256 then pctOctet c
  else [37; 117; hexDigit true (c / 4096); hexDigit true ((c / 256) mod 16);
        hexDigit true ((c / 16) mod 16); hexDigit true (c mod 16)].

(** [escape] *)
Definition escape (s : jsstring) : jsstring := flat_map escapeUnit s.

(** [decodeURIComponent], in two passes: the percent triples are read as
    octets, then the octets are decoded as UTF-8.  Any malformed triple or
    octet sequence throws. *)
Inductive uriToken : Type :=
| Raw (c : N)
| Oct (b : N).

Fixpoint pctTokens (s : jsstring) : option (list uriToken) :=
  match s with
  | [] => Some []
  | c :: rest =>
      if c =? 37 then
        match rest with
        | h1 :: h2 :: rest' =>
            match hexByte h1 h2 with
            | Some b => option_map (cons (Oct b)) (pctTokens rest')
            | None => None
            end
        | _ => None
        end
      else option_map (cons (Raw c)) (pctTokens rest)
  end.

Definition isContinuation (b : N) : bool := (128 <=? b) && (b <? 192).

Definition utf16Units (cp : N) : jsstring :=
  if cp <? 65536 then [cp]
  else [55296 + (cp - 65536) / 1024; 56320 + (cp - 65536) mod 1024].

Fixpoint decodeTokens (ts : list uriToken) : option jsstring :=
  match ts with
  | [] => Some []
  | Raw c :: rest => option_map (cons c) (decodeTokens rest)
  | Oct b :: rest =>
      if b <? 128 then option_map (cons b) (decodeTokens rest)
      else if b <? 192 then None
      else if b <? 224 then
        match rest with
        | Oct b2 :: r2 =>
            let cp := (b - 192) * 64 + (b2 - 128) in
            if isContinuation b2 && (128 <=? cp)
            then option_map (List.app (utf16Units cp)) (decodeTokens r2)
            else None
        | _ => None
        end
      else if b <? 240 then
        match rest with
        | Oct b2 :: Oct b3 :: r3 =>
            let cp := (b - 224) * 4096 + (b2 - 128) * 64 + (b3 - 128) in
            if isContinuation b2 && isContinuation b3 && (2048 <=? cp)
               && negb ((55296 <=? cp) && (cp <=? 57343))
            then option_map (List.app (utf16Units cp)) (decodeTokens r3)
            else None
        | _ => None
        end
      else if b <? 248 then
        match rest with
        | Oct b2 :: Oct b3 :: Oct b4 :: r4 =>
            let cp := (b - 240) * 262144 + (b2 - 128) * 4096
                      + (b3 - 128) * 64 + (b4 - 128) in
            if isContinuation b2 && isContinuation b3 && isContinuation b4
               && (65536 <=? cp) && (cp <=? 1114111)
            then option_map (List.app (utf16Units cp)) (decodeTokens r4)
            else None
        | _ => None
        end
      else None
  end.

Definition decodeURIComponent (s : jsstring) : option jsstring :=
  match pctTokens s with
  | Some ts => decodeTokens ts
  | None => None
  end.

(** The base64 alphabet. *)
Definition b64Char (v : N) : N :=
  if v <? 26 then 65 + v
  else if v <? 52 then 97 + (v - 26)
  else if v <? 62 then 48 + (v - 52)
  else if v =? 62 then 43 else 47.

Definition b64Value (c : N) : option N :=
  if isUpper c then Some (c - 65)
  else if isLower c then Some (c - 97 + 26)
  else if isDigit c then Some (c - 48 + 52)
  else if c =? 43 then Some 62
  else if c =? 47 then Some 63
  else None.

Fixpoint btoaGroups (bs : list N) : jsstring :=
  match bs with
  | [] => []
  | [b1] => [b64Char (b1 / 4); b64Char ((b1 mod 4) * 16); 61; 61]
  | [b1; b2] =>
      [b64Char (b1 / 4); b64Char ((b1 mod 4) * 16 + b2 / 16);
       b64Char ((b2 mod 16) * 4); 61]
  | b1 :: b2 :: b3 :: rest =>
      b64Char (b1 / 4) :: b64Char ((b1 mod 4) * 16 + b2 / 16)
      :: b64Char ((b2 mod 16) * 4 + b3 / 64) :: b64Char (b3 mod 64)
      :: btoaGroups rest
  end.

(** [btoa]: throws when a code unit is above 255. *)
Definition btoa (s : jsstring) : option jsstring :=
  if forallb (fun c => c <? 256) s then Some (btoaGroups s) else None.

Definition isAsciiWhitespace (c : N) : bool :=
  (c =? 9) || (c =? 10) || (c =? 12) || (c =? 13) || (c =? 32).

(** At most two trailing [=] signs removed. *)
Definition stripPadding (s : jsstring) : jsstring :=
  match rev s with
  | 61 :: 61 :: r => rev r
  | 61 :: r => rev r
  | _ => s
  end.

Fixpoint mapOption {A B} (f : A -> option B) (l : list A) : option (list B) :=
  match l with
  | [] => Some []
  | x :: l' =>
      match f x, mapOption f l' with
      | Some y, Some ys => Some (y :: ys)
      | _, _ => None
      end
  end.

Fixpoint atobGroups (vs : list N) : list N :=
  match vs with
  | v1 :: v2 :: v3 :: v4 :: rest =>
      (v1 * 4 + v2 / 16) :: ((v2 mod 16) * 16 + v3 / 4)
      :: ((v3 mod 4) * 64 + v4) :: atobGroups rest
  | [v1; v2; v3] => [v1 * 4 + v2 / 16; (v2 mod 16) * 16 + v3 / 4]
  | [v1; v2] => [v1 * 4 + v2 / 16]
  | _ => []
  end.

(** [atob]: the forgiving-base64 decode of the HTML standard. *)
Definition atob (s : jsstring) : option jsstring :=
  let s1 := filter (fun c => negb (isAsciiWhitespace c)) s in
  let s2 := if (length s1 mod 4 =? 0)%nat then stripPadding s1 else s1 in
  if (length s2 mod 4 =? 1)%nat then None
  else option_map atobGroups (mapOption b64Value s2).

(** *** JSON *)

#[warnings="-register-all"]
Inductive json : Type :=
| JNull
| JBool (b : bool)
| JNum (lexeme : jsstring)
| JStr (s : jsstring)
| JArr (elements : list json)
| JObj (members : list (jsstring * json)).

Definition unicodeEscape (c : N) : jsstring :=
  [92; 117; hexDigit false (c / 4096); hexDigit false ((c / 256) mod 16);
   hexDigit false ((c / 16) mod 16); hexDigit false (c mod 16)].

(** The characters of a string between the quotes that [JSON.stringify]
    writes: the short escapes, [\u00XX] for the other control characters,
    [\uDXXX] for an unpaired surrogate, everything else verbatim. *)
Fixpoint quoteBody (s : jsstring) : jsstring :=
  match s with
  | [] => []
  | c :: rest =>
      if c =? 8 then 92 :: 98 :: quoteBody rest
      else if c =? 9 then 92 :: 116 :: quoteBody rest
      else if c =? 10 then 92 :: 110 :: quoteBody rest
      else if c =? 12 then 92 :: 102 :: quoteBody rest
      else if c =? 13 then 92 :: 114 :: quoteBody rest
      else if c =? 34 then 92 :: 34 :: quoteBody rest
      else if c =? 92 then 92 :: 92 :: quoteBody rest
      else if c <? 32 then unicodeEscape c ++ quoteBody rest
      else if isHighSurrogate c then
        match rest with
        | d :: rest' =>
            if isLowSurrogate d then c :: d :: quoteBody rest'
            else unicodeEscape c ++ quoteBody rest
        | [] => unicodeEscape c ++ quoteBody rest
        end
      else if isLowSurrogate c then unicodeEscape c ++ quoteBody rest
      else c :: quoteBody rest
  end.

Definition quoteJSONString (s : jsstring) : jsstring :=
  34 :: quoteBody s ++ [34].

Definition isJsonWhitespace (c : N) : bool :=
  (c =? 9) || (c =? 10) || (c =? 13) || (c =? 32).

Definition skipWs (s : jsstring) : jsstring := dropWhile isJsonWhitespace s.

Definition simpleEscape (e : N) : option N :=
  if e =? 34 then Some 34
  else if e =? 92 then Some 92
  else if e =? 47 then Some 47
  else if e =? 98 then Some 8
  else if e =? 102 then Some 12
  else if e =? 110 then Some 10
  else if e =? 114 then Some 13
  else if e =? 116 then Some 9
  else None.

Definition consFst {A B} (x : A) (r : option (list A * B))
  : option (list A * B) :=
  match r with
  | Some (l, b) => Some (x :: l, b)
  | None => None
  end.

(** A JSON string, read from just after its opening quote. *)
Fixpoint parseStringBody (s : jsstring) : option (jsstring * jsstring) :=
  match s with
  | [] => None
  | c :: rest =>
      if c =? 34 then Some ([], rest)
      else if c =? 92 then
        match rest with
        | e :: rest1 =>
            if e =? 117 then
              match rest1 with
              | h1 :: h2 :: h3 :: h4 :: rest2 =>
                  match hexWord h1 h2 h3 h4 with
                  | Some w => consFst w (parseStringBody rest2)
                  | None => None
                  end
              | _ => None
              end
            else
              match simpleEscape e with
              | Some v => consFst v (parseStringBody rest1)
              | None => None
              end
        | [] => None
        end
      else if c <? 32 then None
      else consFst c (parseStringBody rest)
  end.

Fixpoint startsWith (p s : jsstring) : bool :=
  match p, s with
  | [], _ => true
  | a :: p', b :: s' => (a =? b) && startsWith p' s'
  | _ :: _, [] => false
  end.

(** A JSON number: an optional minus sign, an integer part without leading
    zero, an optional fraction and an optional exponent.  The lexeme is
    kept as it is written. *)
Definition lexNumber (s : jsstring) : option (jsstring * jsstring) :=
  let (sign, s1) := match s with 45 :: r => ([45], r) | _ => ([], s) end in
  let intPart :=
    match s1 with
    | 48 :: _ => [48]
    | _ => takeWhile isDigit s1
    end in
  match intPart with
  | [] => None
  | _ =>
      let s2 := skipn (length intPart) s1 in
      let (frac, s3) :=
        match s2 with
        | 46 :: r =>
            match takeWhile isDigit r with
            | [] => (None, s2)
            | ds => (Some (46 :: ds), skipn (length ds) r)
            end
        | _ => (Some [], s2)
        end in
      match frac with
      | None => None
      | Some fr =>
          let expo :=
            match s3 with
            | e :: r =>
                if (e =? 101) || (e =? 69) then
                  let (sg, r1) :=
                    match r with
                    | 43 :: r' => ([43], r')
                    | 45 :: r' => ([45], r')
                    | _ => ([], r)
                    end in
                  match takeWhile isDigit r1 with
                  | [] => None
                  | ds => Some (e :: sg ++ ds, skipn (length ds) r1)
                  end
                else Some ([], s3)
            | [] => Some ([], s3)
            end in
          match expo with
          | None => None
          | Some (ex, s4) => Some (sign ++ intPart ++ fr ++ ex, s4)
          end
      end
  end.

Fixpoint parseValue (fuel : nat) (s : jsstring) {struct fuel}
  : option (json * jsstring) :=
  match fuel with
  | O => None
  | S fuel' =>
      match skipWs s with
      | [] => None
      | c :: rest =>
          if c =? 34 then
            match parseStringBody rest with
            | Some (str, r) => Some (JStr str, r)
            | None => None
            end
          else if c =? 123 then
            match skipWs rest with
            | 125 :: r => Some (JObj [], r)
            | r0 =>
                match parseMembers fuel' r0 with
                | Some (ms, r) => Some (JObj ms, r)
                | None => None
                end
            end
          else if c =? 91 then
            match skipWs rest with
            | 93 :: r => Some (JArr [], r)
            | r0 =>
                match parseElements fuel' r0 with
                | Some (es, r) => Some (JArr es, r)
                | None => None
                end
            end
          else if startsWith (js "true") (c :: rest)
          then Some (JBool true, skipn 4 (c :: rest))
          else if startsWith (js "false") (c :: rest)
          then Some (JBool false, skipn 5 (c :: rest))
          else if startsWith (js "null") (c :: rest)
          then Some (JNull, skipn 4 (c :: rest))
          else
            match lexNumber (c :: rest) with
            | Some (lx, r) => Some (JNum lx, r)
            | None => None
            end
      end
  end
with parseMembers (fuel : nat) (s : jsstring) {struct fuel}
  : option (list (jsstring * json) * jsstring) :=
  match fuel with
  | O => None
  | S fuel' =>
      match s with
      | 34 :: r =>
          match parseStringBody r with
          | Some (key, r1) =>
              match skipWs r1 with
              | 58 :: r2 =>
                  match parseValue fuel' r2 with
                  | Some (v, r3) =>
                      match skipWs r3 with
                      | 44 :: r4 =>
                          consFst (key, v) (parseMembers fuel' (skipWs r4))
                      | 125 :: r4 => Some ([(key, v)], r4)
                      | _ => None
                      end
                  | None => None
                  end
              | _ => None
              end
          | None => None
          end
      | _ => None
      end
  end
with parseElements (fuel : nat) (s : jsstring) {struct fuel}
  : option (list json * jsstring) :=
  match fuel with
  | O => None
  | S fuel' =>
      match parseValue fuel' s with
      | Some (v, r) =>
          match skipWs r with
          | 44 :: r1 => consFst v (parseElements fuel' r1)
          | 93 :: r1 => Some ([v], r1)
          | _ => None
          end
      | None => None
      end
  end.

(** [JSON.parse]: throws on anything but one value with optional
    whitespace around it. *)
Definition JSON_parse (text : jsstring) : option json :=
  match parseValue (S (length text)) text with
  | Some (v, r) => match skipWs r with [] => Some v | _ => None end
  | None => None
  end.

(** [obj[key]] for a value that [JSON.parse] returned; when a key occurs
    twice the later member wins. *)
Definition getProp (key : jsstring) (obj : json) : option json :=
  match obj with
  | JObj ms =>
      match find (fun m => jsstring_eqb (fst m) key) (rev ms) with
      | Some m => Some (snd m)
      | None => None
      end
  | _ => None
  end.

End Builtins.
Import Builtins.

(** ** MagicLink helpers (source lines 351-422) *)

(** [sanitizeConfig(obj)], with the settings currently in memory.  The guard
    [!obj || typeof obj !== "object"] rejects everything but objects and
    arrays; an array has none of the three properties. *)
Definition sanitizeConfig (cur : Settings) (obj : json) : option Settings :=
  match obj with
  | JObj _ | JArr _ =>
      Some {|
        baseUrl :=
          match getProp (js "baseUrl") obj with
          | Some (JStr v) => if truthy (trim v) then trim v else baseUrl cur
          | _ => baseUrl cur
          end;
        model :=
          match getProp (js "model") obj with
          | Some (JStr v) => if truthy (trim v) then trim v else model cur
          | _ => model cur
          end;
        apiKey :=
          match getProp (js "apiKey") obj with
          | Some (JStr v) => v
          | _ => apiKey cur
          end |}
  | _ => None
  end.

(** [s.replace(/a/g, b)] for single code units [a] and [b]. *)
Definition replaceAll (a b : N) (s : jsstring) : jsstring :=
  map (fun c => if c =? a then b else c) s.

(** [s.replace(/=+$/g, "")]: the trailing run of [=] removed. *)
Definition stripTrailingEquals (s : jsstring) : jsstring :=
  rev (dropWhile (N.eqb 61) (rev s)).

(** [toBase64Url]: the [catch] returns the empty string. *)
Definition toBase64Url (str : jsstring) : jsstring :=
  match encodeURIComponent str with
  | Some e =>
      match btoa (unescape e) with
      | Some b64 => stripTrailingEquals (replaceAll 47 95 (replaceAll 43 45 b64))
      | None => []
      end
  | None => []
  end.

(** [fromBase64Url]: the [catch] returns [null]. *)
Definition fromBase64Url (b64url : jsstring) : option jsstring :=
  let b64 := replaceAll 95 47 (replaceAll 45 43 b64url) in
  let pad := (length b64 mod 4)%nat in
  let b64' :=
    if (pad =? 0)%nat then b64 else b64 ++ repeat 61 (4 - pad)%nat in
  match atob b64' with
  | Some str => decodeURIComponent (escape str)
  | None => None
  end.

(** [JSON.stringify({ baseUrl: cfg.baseUrl, model: cfg.model,
    apiKey: cfg.apiKey })] for a record of strings. *)
Definition stringifyConfig (cfg : Settings) : jsstring :=
  [123] ++ quoteJSONString (js "baseUrl") ++ [58]
        ++ quoteJSONString (baseUrl cfg) ++ [44]
        ++ quoteJSONString (js "model") ++ [58]
        ++ quoteJSONString (model cfg) ++ [44]
        ++ quoteJSONString (js "apiKey") ++ [58]
        ++ quoteJSONString (apiKey cfg) ++ [125].

(** [buildMagicLink(cfg)]; [base] is [origin + pathname] of the page. *)
Definition buildMagicLink (base : jsstring) (cfg : Settings) : jsstring :=
  base ++ js "#cfg=" ++ toBase64Url (stringifyConfig cfg).

Definition isBase64UrlChar (c : N) : bool :=
  isAlpha c || isDigit c || (c =? 95) || (c =? 45).

(** [/[#&]cfg=([A-Za-z0-9_\-]+)/] *)
Definition cfgRegex : regex :=
  Seq (Class (fun c => (c =? 35) || (c =? 38)))
    (Seq (Lit (js "cfg="))
       (Cap (Plus (Class isBase64UrlChar)))).

(** [parseMagicLinkFromHash], with [window.location.hash] and the settings
    currently in memory passed in. *)
Definition parseMagicLinkFromHash (cur : Settings) (hash : jsstring)
  : option Settings :=
  if negb (truthy hash) then None
  else
    match exec cfgRegex hash with
    | None => None
    | Some m =>
        match fromBase64Url (capture m) with
        | None => None
        | Some json =>
            if negb (truthy json) then None
            else
              match JSON_parse json with
              | Some obj => sanitizeConfig cur obj
              | None => None
              end
        end
    end.

(** [window.location.hash] of a page address: the fragment with its [#], or
    the empty string when the fragment is missing or empty. *)
Fixpoint locationHash (url : jsstring) : jsstring :=
  match url with
  | [] => []
  | c :: rest =>
      if c =? 35 then (match rest with [] => [] | _ => url end)
      else locationHash rest
  end.

(** ** Declarative reading of the patterns *)

(** [Matches r st st']: the pattern [r] can match from [st] to [st'].  The
    relation ignores priorities (greedy, lazy, leftmost); it says which
    matches exist, and the matcher picks one of them. *)
Inductive Matches : regex -> mstate -> mstate -> Prop :=
| M_Empty st : Matches Empty st st
| M_Class p c bef aft cp :
    p c = true ->
    Matches (Class p) (MState bef (c :: aft) cp) (MState (c :: bef) aft cp)
| M_Seq r1 r2 st1 st2 st3 :
    Matches r1 st1 st2 -> Matches r2 st2 st3 -> Matches (Seq r1 r2) st1 st3
| M_StarNil g r st : Matches (Star g r) st st
| M_StarCons g r st1 st2 st3 :
    Matches r st1 st2 ->
    (length (after st2) < length (after st1))%nat ->
    Matches (Star g r) st2 st3 ->
    Matches (Star g r) st1 st3
| M_Cap r st st1 :
    Matches r st st1 ->
    Matches (Cap r) st
      (MState (before st1) (after st1)
         (Some (firstn (length (after st) - length (after st1)) (after st))))
| M_Bol m st : atBol m st = true -> Matches (Bol m) st st
| M_Eol m st : atEol m st = true -> Matches (Eol m) st st
| M_WordB st : atWordB st = true -> Matches WordB st st.

(** [r] matches somewhere in [s]: after the prefix [pre]. *)
Definition MatchesIn (r : regex) (s : jsstring) : Prop :=
  exists pre post st',
    s = pre ++ post /\ Matches r (MState (rev pre) post None) st'.

(** ** Vocabulary of the specification *)

(** [w] equals the upper-case ASCII word [u] up to the case of its
    letters. *)
Fixpoint ciEq (w u : jsstring) : bool :=
  match w, u with
  | [], [] => true
  | c :: w', x :: u' => ((c =? x) || (c =? x + 32)) && ciEq w' u'
  | _, _ => false
  end.

(** The reserved toggle command: the text is, after trimming and up to
    case, the literal word STATE. *)
Definition isToggleCommand (text : jsstring) : bool :=
  ciEq (trim text) (js "STATE").

(** The text mentions the word STATE (in any case) as a whole word: no word
    character stands directly before or after it. *)
Definition ContainsStateWord (text : jsstring) : Prop :=
  exists pre w post,
    text = pre ++ w ++ post /\ ciEq w (js "STATE") = true /\
    isWordAt (rev pre) = false /\ isWordAt post = false.

(** A string that is present and not blank. *)
Definition nonBlank (s : jsstring) : bool := truthy (trim s).

Definition userMessage (text : jsstring) : Message :=
  {| role := user; content := text |}.
Definition assistantMessage (text : jsstring) : Message :=
  {| role := assistant; content := text |}.

(** *** Fenced regions, as the code delimits them

    The pattern [```[a-zA-Z]*\n([\s\S]*?)```], unfolded into a direct scan.
    A region opens with three backticks, a tag of zero or more ASCII
    letters and a line feed directly after it, and closes at the next
    three backticks.  Regions are taken from left to right and do not
    overlap; an opening marker that no closing marker follows opens no
    region.  Three backticks followed by anything else (a digit, a blank,
    a carriage return) open nothing. *)

(** The text after the opening marker that [s] starts with. *)
Definition openingAt (s : jsstring) : option jsstring :=
  if startsWith fence s then
    match dropWhile isAlpha (skipn 3 s) with
    | 10 :: body => Some body
    | _ => None
    end
  else None.

(** The text up to the first closing marker, and the text after it. *)
Fixpoint splitAtFence (s : jsstring) : option (jsstring * jsstring) :=
  match s with
  | [] => None
  | c :: s' =>
      if startsWith fence s then Some ([], skipn 3 s)
      else consFst c (splitAtFence s')
  end.

(** The region that opens exactly at the start of [s]. *)
Definition regionAt (s : jsstring) : option (jsstring * jsstring) :=
  match openingAt s with
  | Some body => splitAtFence body
  | None => None
  end.

(** The first region of [s]: its inner text and the text after its closing
    marker. *)
Fixpoint firstRegion (s : jsstring) : option (jsstring * jsstring) :=
  match regionAt s with
  | Some r => Some r
  | None =>
      match s with
      | [] => None
      | _ :: s' => firstRegion s'
      end
  end.

Fixpoint regionsFrom (fuel : nat) (s : jsstring) : list jsstring :=
  match fuel with
  | O => []
  | S fuel' =>
      match firstRegion s with
      | Some (b, rest) => b :: regionsFrom fuel' rest
      | None => []
      end
  end.

(** The inner texts of the fenced regions of a reply, in order. *)
Definition fencedRegions (text : jsstring) : list jsstring :=
  regionsFrom (length text) text.

(** *** Fenced regions, as the specification words them (4.2)

    "Fenced regions delimited by triple-backtick-style markers (language
    tag optional/ignored)": a region opens with three backticks; what
    follows on that line, whatever it is, is the tag and is ignored; the
    inner text starts after the line feed and ends at the next three
    backticks.  These definitions follow the specification and are
    compared with the ones above; the code is embedded in
    [extractStateYaml]. *)
Definition specOpeningAt (s : jsstring) : option jsstring :=
  if startsWith fence s then
    match dropWhile (fun c => negb (c =? 10)) (skipn 3 s) with
    | 10 :: body => Some body
    | _ => None
    end
  else None.

Definition specRegionAt (s : jsstring) : option (jsstring * jsstring) :=
  match specOpeningAt s with
  | Some body => splitAtFence body
  | None => None
  end.

Fixpoint specFirstRegion (s : jsstring) : option (jsstring * jsstring) :=
  match specRegionAt s with
  | Some r => Some r
  | None =>
      match s with
      | [] => None
      | _ :: s' => specFirstRegion s'
      end
  end.

Fixpoint specRegionsFrom (fuel : nat) (s : jsstring) : list jsstring :=
  match fuel with
  | O => []
  | S fuel' =>
      match specFirstRegion s with
      | Some (b, rest) => b :: specRegionsFrom fuel' rest
      | None => []
      end
  end.

Definition specFencedRegions (text : jsstring) : list jsstring :=
  specRegionsFrom (length text) text.

(** The text is at the start of a line: nothing, or a line terminator,
    stands before it. *)
Definition lineStart (pre : jsstring) : Prop :=
  match rev pre with
  | [] => True
  | c :: _ => isLineTerminator c = true
  end.

(** The region contains a line that matches [^\s*STATE\s*:]. *)
Definition StateLine (b : jsstring) : Prop :=
  exists pre ws1 ws2 post,
    b = pre ++ ws1 ++ js "STATE" ++ ws2 ++ [58] ++ post /\
    lineStart pre /\
    forallb isSpace ws1 = true /\ forallb isSpace ws2 = true.

(** No closing marker starts inside [b] when [b] is followed by one. *)
Definition fenceFree (b : jsstring) : Prop :=
  forall pre post, b ++ fence = pre ++ fence ++ post -> pre = b.

(** *** Auxiliary functions: a star over a character class, unfolded *)

Section ClassRuns.
Context {A : Type} (p : N -> bool) (k : mstate -> option A).

Fixpoint greedyRun (bef aft : jsstring) (cp : option jsstring)
  : option A :=
  match aft with
  | c :: rest =>
      if p c then
        match greedyRun (c :: bef) rest cp with
        | Some x => Some x
        | None => k (MState bef aft cp)
        end
      else k (MState bef aft cp)
  | [] => k (MState bef aft cp)
  end.

Fixpoint lazyRun (bef aft : jsstring) (cp : option jsstring)
  : option A :=
  match k (MState bef aft cp) with
  | Some x => Some x
  | None =>
      match aft with
      | c :: rest => if p c then lazyRun (c :: bef) rest cp else None
      | [] => None
      end
  end.
End ClassRuns.

(** *** Auxiliary functions: the extraction loop *)

(** What the extractor reads off a match: the captured inner text and the
    text left after the closing marker. *)
Definition matchParts (st : mstate) : jsstring * jsstring :=
  (capture st, after st).

(** The value the loop keeps: the trimmed text of the last region that
    passes the test, over the value it started with. *)
Definition keepLast (acc : option jsstring) (regions : list jsstring)
  : option jsstring :=
  fold_left
    (fun acc b => if test stateLineRegex b then Some (trim b) else acc)
    regions acc.

(** *** Sample data for the examples *)

Definition samplePrompt : jsstring := js "SYSTEM / CONTROLLER INSTRUCTIONS".

Definition sampleSettings : Settings :=
  {| baseUrl := js "http://localhost:11434/v1";
     model := js "llama3";
     apiKey := [] |}.

Definition sampleYaml : jsstring :=
  js "STATE:" ++ [10] ++ js "  progress: {current_stage: 3, stages_total: 8}".

Definition sampleMessages : list Message :=
  [ {| role := system; content := samplePrompt |};
    userMessage (js "Start. Please begin at Stage 0.");
    assistantMessage (js "Stage 0. Type NEXT to continue.") ].

(** An active session, last action accepted at time 1000, with a state
    block on display. *)
Definition sampleState : AppState :=
  {| settings := sampleSettings;
     messages := sampleMessages;
     input := js "draft";
     busy := false;
     error := [];
     lastAction := 1000;
     drawerOpen := true;
     lastYaml := sampleYaml;
     storage := {| stored_settings := Some sampleSettings;
                   stored_transcript := Some sampleMessages;
                   stored_lastYaml := Some sampleYaml |} |}.

Definition sampleWorld : World :=
  {| appState := sampleState; inflight := None; calls := [] |}.

(** A reply that carries a state block. *)
Definition sampleReply : jsstring :=
  js "Stage 4." ++ [10] ++ fence ++ js "yaml" ++ [10] ++ js "STATE:" ++ [10]
    ++ js "  progress: {current_stage: 4, stages_total: 8}" ++ [10] ++ fence.

(** *** Vocabulary for the progress parser *)

(** The word [u] does not occur in [s]. *)
Definition NoOcc (u s : jsstring) : Prop :=
  forall a b, s <> a ++ u ++ b.

(** No occurrence of [u] starts inside [pre] when [pre] is followed by
    [u]: the [u] after [pre] is the first one. *)
Definition FirstOcc (u pre : jsstring) : Prop :=
  forall a b, pre ++ u = a ++ u ++ b -> a = pre.

Definition startsWithDigit (s : jsstring) : bool :=
  match s with
  | c :: _ => isDigit c
  | [] => false
  end.

(** [KEY:\s*(\d+)] matched at the cursor, unfolded. *)
Definition fieldTail (key : jsstring) (st : mstate) : option mstate :=
  if startsWith key (after st) then
    let a1 := skipn (length key) (after st) in
    let a2 := dropWhile isSpace a1 in
    match takeWhile isDigit a2 with
    | [] => None
    | d :: ds =>
        Some (MState
                (rev (d :: ds) ++ rev (takeWhile isSpace a1) ++ rev key
                 ++ before st)
                (dropWhile isDigit a2) (Some (d :: ds)))
    end
  else None.

(** One attempt of [progressFieldRegex key] at the cursor, unfolded. *)
Definition fieldAt (key bef aft : jsstring) : option mstate :=
  if startsWith (js "progress:") aft then
    let a0 := skipn 9 aft in
    match dropWhile isSpace a0 with
    | c :: run =>
        if 123 =? c then
          greedyRun notCloseBrace (fieldTail key)
            (c :: rev (takeWhile isSpace a0) ++ rev (js "progress:") ++ bef)
            run None
        else None
    | [] => None
    end
  else None.

(** The shape of a text from which [/progress:\s*{[^}]*KEY:\s*(\d+)/] reads
    the digits [ds]: the first [progress:] of the text is followed by white
    space and an opening brace; then, before any closing brace, [key] occurs
    once, followed by white space and the whole run of digits [ds]. *)
Definition FieldOfFirstMapping (key text ds : jsstring) : Prop :=
  exists pre ws1 mid ws2 post,
    text = pre ++ js "progress:" ++ ws1 ++ [123] ++ mid
               ++ key ++ ws2 ++ ds ++ post /\
    FirstOcc (js "progress:") pre /\
    forallb isSpace ws1 = true /\
    forallb notCloseBrace mid = true /\
    forallb isSpace ws2 = true /\
    ds <> [] /\ forallb isDigit ds = true /\
    startsWithDigit post = false /\
    (forall u b,
       mid ++ key ++ ws2 ++ ds ++ post = u ++ key ++ b ->
       forallb notCloseBrace u = true -> u = mid).

(** *** Decision procedures for the side conditions *)

(** [u] occurs somewhere in [s]. *)
Fixpoint occurs (u s : jsstring) : bool :=
  startsWith u s ||
  match s with
  | [] => false
  | _ :: s' => occurs u s'
  end.

(** [u] does not start at any of the first [n] positions of [s]. *)
Fixpoint noneBefore (u s : jsstring) (n : nat) : bool :=
  match n, s with
  | S n', c :: s' => negb (startsWith u s) && noneBefore u s' n'
  | _, _ => true
  end.

(** Along the run of [s] that has no closing brace, [key] starts at
    position [n] only ([i] is the position of the head of [s]). *)
Fixpoint onlyAt (key s : jsstring) (i n : nat) : bool :=
  (if startsWith key s then (i =? n)%nat else true) &&
  match s with
  | [] => true
  | c :: s' => if notCloseBrace c then onlyAt key s' (S i) n else true
  end.

Definition sampleProgressText : jsstring :=
  js "STATE:" ++ [10] ++ js "  progress: {current_stage: 5}".

(** *** Auxiliary functions: code points and octets *)

(** The code points of a string; [None] when a surrogate is unpaired. *)
Fixpoint codePoints (s : jsstring) : option (list N) :=
  match s with
  | [] => Some []
  | c :: rest =>
      if isHighSurrogate c then
        match rest with
        | d :: rest' =>
            if isLowSurrogate d then
              option_map
                (cons (65536 + (c - 55296) * 1024 + (d - 56320)))
                (codePoints rest')
            else None
        | [] => None
        end
      else if isLowSurrogate c then None
      else option_map (cons c) (codePoints rest)
  end.

(** What [encodeURIComponent] writes for one code point. *)
Definition encodeCodePoint (cp : N) : jsstring :=
  if uriUnreserved cp then [cp] else flat_map pctOctet (utf8Octets cp).

(** What [escape] followed by the first pass of [decodeURIComponent] makes
    of one octet. *)
Definition tokenOfOctet (b : N) : uriToken :=
  if escapeSafe b then Raw b else Oct b.

(** A Unicode scalar value. *)
Definition isScalar (cp : N) : bool :=
  (cp <? 1114112) && negb ((55296 <=? cp) && (cp <=? 57343)).

(** A code unit. *)
Definition isCodeUnit (c : N) : bool := c <? 65536.

(** The base64 text of [btoa] without its padding, and the number of
    padding signs. *)
Fixpoint b64Body (bs : list N) : jsstring :=
  match bs with
  | [] => []
  | [b1] => [b64Char (b1 / 4); b64Char ((b1 mod 4) * 16)]
  | [b1; b2] =>
      [b64Char (b1 / 4); b64Char ((b1 mod 4) * 16 + b2 / 16);
       b64Char ((b2 mod 16) * 4)]
  | b1 :: b2 :: b3 :: rest =>
      b64Char (b1 / 4) :: b64Char ((b1 mod 4) * 16 + b2 / 16)
      :: b64Char ((b2 mod 16) * 4 + b3 / 64) :: b64Char (b3 mod 64)
      :: b64Body rest
  end.

Fixpoint b64Pad (bs : list N) : nat :=
  match bs with
  | [] => 0
  | [_] => 2
  | [_; _] => 1
  | _ :: _ :: _ :: rest => b64Pad rest
  end.

(** The settings a record decodes to: baseUrl and model trimmed, or taken
    from memory when blank; apiKey as it is. *)
Definition sanitized (cur cfg : Settings) : Settings :=
  {| baseUrl := if nonBlank (baseUrl cfg) then trim (baseUrl cfg)
                else baseUrl cur;
     model := if nonBlank (model cfg) then trim (model cfg) else model cur;
     apiKey := apiKey cfg |}.

Definition wellFormedSettings (cfg : Settings) : bool :=
  forallb isCodeUnit (baseUrl cfg) && forallb isCodeUnit (model cfg)
  && forallb isCodeUnit (apiKey cfg).

(** The object that [buildMagicLink] serializes. *)
Definition configObject (cfg : Settings) : json :=
  JObj [ (js "baseUrl", JStr (baseUrl cfg));
         (js "model", JStr (model cfg));
         (js "apiKey", JStr (apiKey cfg)) ].

(** The text without padding is made of alphabet characters. *)
Inductive AllB64 : jsstring -> Prop :=
| AllB64_nil : AllB64 []
| AllB64_cons v s : v < 64 -> AllB64 s -> AllB64 (b64Char v :: s).

(** Not the padding sign. *)
Definition notEquals (c : N) : bool := negb (61 =? c).

(** ** Settings and transcript in the browser storage
    (source lines 110-153, 240-260, 262-284 and 321-324) *)

(** [localStorage]: its entries by key.  The code reads and writes whole
    entries, so the order of the entries is not observable; a write that
    throws (storage full) is caught by the caller and is not modelled. *)
Definition LocalStorage : Type := list (jsstring * jsstring).

Definition getItem (key : jsstring) (ls : LocalStorage) : option jsstring :=
  option_map snd (find (fun e => jsstring_eqb (fst e) key) ls).

Definition setItem (key value : jsstring) (ls : LocalStorage) : LocalStorage :=
  (key, value) :: filter (fun e => negb (jsstring_eqb (fst e) key)) ls.

Module LS_KEYS.
Definition settings : jsstring := js "pcpc_settings_v1".
Definition transcript : jsstring := js "pcpc_transcript_v1".
Definition lastYaml : jsstring := js "pcpc_state_yaml_v1".
End LS_KEYS.

(** [JSON.stringify({ apiKey, baseUrl, model })] for a record of strings. *)
Definition stringifySettings (s : Settings) : jsstring :=
  [123] ++ quoteJSONString (js "apiKey") ++ [58]
        ++ quoteJSONString (apiKey s) ++ [44]
        ++ quoteJSONString (js "baseUrl") ++ [58]
        ++ quoteJSONString (baseUrl s) ++ [44]
        ++ quoteJSONString (js "model") ++ [58]
        ++ quoteJSONString (model s) ++ [125].

Definition saveSettings (s : Settings) (ls : LocalStorage) : LocalStorage :=
  setItem LS_KEYS.settings (stringifySettings s) ls.

(** [loadSettings]: [None] is [null], also when [JSON.parse] throws. *)
Definition loadSettings (ls : LocalStorage) : option json :=
  match getItem LS_KEYS.settings ls with
  | Some raw => if truthy raw then JSON_parse raw else None
  | None => None
  end.

(** The values [useState] gives the three settings cells at the first
    render. *)
Definition initialSettings : Settings :=
  {| baseUrl := js "https://api.openai.com/v1";
     model := js "gpt-4o-mini";
     apiKey := [] |}.

(** [s.key || dflt] for a value [s] that [JSON.parse] returned.  [None]: the
    property is [true], a number, an array or an object; the cell would then
    hold a value that is not a string, which is outside this model. *)
Definition storedOr (key : jsstring) (s : json) (dflt : jsstring)
  : option jsstring :=
  match getProp key s with
  | None | Some JNull | Some (JBool false) => Some dflt
  | Some (JStr v) => if truthy v then Some v else Some dflt
  | Some _ => None
  end.

(** The first half of the mount effect: the settings cells after
    [const s = loadSettings(); if (s) { ... }].  When the guard fails the
    cells keep their initial values; when [s] is a number, a boolean, a
    string or an array it has none of the three properties and the three
    defaults, which are those same initial values, are set. *)
Definition restoreSettings (loaded : option json) : option Settings :=
  match loaded with
  | None => Some initialSettings
  | Some s =>
      match storedOr (js "apiKey") s [],
            storedOr (js "baseUrl") s (js "https://api.openai.com/v1"),
            storedOr (js "model") s (js "gpt-4o-mini") with
      | Some a, Some b, Some m =>
          Some {| baseUrl := b; model := m; apiKey := a |}
      | _, _, _ => None
      end
  end.

(** The mount effect: the settings cells and the storage after it, with
    [window.location.hash] passed in.  The effect runs the
    [parseMagicLinkFromHash] of the first render, whose [sanitizeConfig]
    reads the initial values of the cells, not the settings just loaded.
    On a record of strings [cfg.baseUrl || ""] is [cfg.baseUrl]. *)
Definition mountEffect (hash : jsstring) (ls : LocalStorage)
  : option (Settings * LocalStorage) :=
  match restoreSettings (loadSettings ls) with
  | None => None
  | Some loaded =>
      match parseMagicLinkFromHash initialSettings hash with
      | Some cfg => Some (cfg, saveSettings cfg ls)
      | None => Some (loaded, ls)
      end
  end.

(** [handleSaveSettings], on the storage. *)
Definition handleSaveSettings (s : Settings) (ls : LocalStorage)
  : LocalStorage :=
  saveSettings s ls.

(** [JSON.stringify(messages)] for a list of messages. *)
Definition roleName (r : Role) : jsstring :=
  match r with
  | system => js "system"
  | user => js "user"
  | assistant => js "assistant"
  end.

Definition stringifyMessage (m : Message) : jsstring :=
  [123] ++ quoteJSONString (js "role") ++ [58]
        ++ quoteJSONString (roleName (role m)) ++ [44]
        ++ quoteJSONString (js "content") ++ [58]
        ++ quoteJSONString (content m) ++ [125].

Fixpoint joinComma (l : list jsstring) : jsstring :=
  match l with
  | [] => []
  | [x] => x
  | x :: rest => x ++ [44] ++ joinComma rest
  end.

Definition stringifyMessages (ms : list Message) : jsstring :=
  [91] ++ joinComma (map stringifyMessage ms) ++ [93].

Definition saveTranscript (t : list Message) (ls : LocalStorage)
  : LocalStorage :=
  setItem LS_KEYS.transcript (stringifyMessages t) ls.

Definition loadTranscript (ls : LocalStorage) : option json :=
  match getItem LS_KEYS.transcript ls with
  | Some raw => if truthy raw then JSON_parse raw else None
  | None => None
  end.

Definition roleOfName (n : jsstring) : option Role :=
  if jsstring_eqb n (js "system") then Some system
  else if jsstring_eqb n (js "user") then Some user
  else if jsstring_eqb n (js "assistant") then Some assistant
  else None.

(** A parsed value as a message: an object with exactly the members [role]
    and [content], in this order, as the handlers build it. *)
Definition messageOfJson (v : json) : option Message :=
  match v with
  | JObj [(k1, JStr r); (k2, JStr c)] =>
      if jsstring_eqb k1 (js "role") && jsstring_eqb k2 (js "content")
      then option_map (fun r' => {| role := r'; content := c |})
             (roleOfName r)
      else None
  | _ => None
  end.

(** The initial value of the [messages] cell, [loadTranscript() ?? []].
    [None]: the stored value is not a list of messages, which is outside
    this model. *)
Definition initialMessages (ls : LocalStorage) : option (list Message) :=
  match loadTranscript ls with
  | None | Some JNull => Some []
  | Some (JArr es) => mapOption messageOfJson es
  | Some _ => None
  end.

(** [saveLastYaml] and the initial value of the [lastYaml] cell,
    [localStorage.getItem(LS_KEYS.lastYaml) || ""]. *)
Definition saveLastYaml (y : jsstring) (ls : LocalStorage) : LocalStorage :=
  setItem LS_KEYS.lastYaml y ls.

Definition initialLastYaml (ls : LocalStorage) : jsstring :=
  match getItem LS_KEYS.lastYaml ls with
  | Some v => v
  | None => []
  end.

(** A page load: the first render and the effects that follow it, in the
    order the component declares them (source lines 250, 258 and 263-299).
    The cells for the transcript and the state block are read from the
    storage; the mount effect sets the settings; the two persistence
    effects then write the transcript and the state block that were read.
    The result is the settings, the transcript, the state block and the
    storage after the load. *)
Definition pageLoad (hash : jsstring) (ls : LocalStorage)
  : option (Settings * list Message * jsstring * LocalStorage) :=
  match initialMessages ls, mountEffect hash ls with
  | Some ms, Some (cfg, ls1) =>
      Some (cfg, ms, initialLastYaml ls,
            saveLastYaml (initialLastYaml ls) (saveTranscript ms ls1))
  | _, _ => None
  end.

(** ** The request of [callChatCompletions] (source lines 181-187) *)

(** [s.replace(r, "")] for a regex without the [g] flag: the leftmost match
    is removed. *)
Fixpoint removeFirst (r : regex) (bef aft : jsstring) : jsstring :=
  match rmatch r (MState bef aft None) Some with
  | Some st => rev bef ++ after st
  | None =>
      match aft with
      | [] => rev bef
      | c :: aft' => removeFirst r (c :: bef) aft'
      end
  end.

(** [/\/$/] *)
Definition trailingSlashRegex : regex := Seq (Chr 47) (Eol false).

Definition chatCompletionsUrl (base : jsstring) : jsstring :=
  removeFirst trailingSlashRegex [] base ++ js "/chat/completions".


(** ** Predicates of the statements about the session *)

(** The settings that come back from the storage: an empty baseUrl or model
    is replaced by the built-in default. *)
Definition withDefaults (s : Settings) : Settings :=
  {| baseUrl := if truthy (baseUrl s) then baseUrl s
                else js "https://api.openai.com/v1";
     model := if truthy (model s) then model s else js "gpt-4o-mini";
     apiKey := apiKey s |}.

Definition isSystem (m : Message) : bool :=
  match role m with system => true | _ => false end.

Definition isUser (m : Message) : bool :=
  match role m with user => true | _ => false end.

(** No system message after the first position. *)
Definition systemOnlyFirst (ms : list Message) : bool :=
  forallb (fun m => negb (isSystem m)) (tl ms).


(** A call is in flight exactly when the busy flag is set. *)
Definition busyIffInflight (w : World) : bool :=
  Bool.eqb (busy (appState w))
    (match inflight w with Some _ => true | None => false end).

(** The request carries the three settings of [cfg]. *)
Definition requestFrom (cfg : Settings) (r : Request) : Prop :=
  req_baseUrl r = baseUrl cfg /\ req_apiKey r = apiKey cfg /\
  req_model r = model cfg.

(** The two messages a session starts with. *)
Definition seedMessages (prompt : jsstring) : list Message :=
  [ {| role := system; content := prompt |};
    userMessage (js "Start. Please begin at Stage 0.") ].

(** The request ends with a message of the user. *)
Definition endsWithUser (r : Request) : bool :=
  match rev (req_messages r) with
  | m :: _ => isUser m
  | [] => false
  end.

(** The text ends with the code unit [c]. *)
Definition endsWith (c : N) (s : jsstring) : bool :=
  match rev s with
  | d :: _ => d =? c
  | [] => false
  end.

(** ** Message rendering (source lines 750-764) *)

Inductive Block : Type :=
| TextBlock (text : jsstring)
| CodeBlock (text : jsstring).

(** [re.exec(text)] for a regex with the [g] flag, resuming at the cursor:
    the text skipped before the match, [text.slice(lastIndex, m.index)],
    and the state at the end of the match. *)
Fixpoint execFrom (r : regex) (bef aft : jsstring)
  : option (jsstring * mstate) :=
  match rmatch r (MState bef aft None) Some with
  | Some st => Some ([], st)
  | None =>
      match aft with
      | [] => None
      | c :: aft' =>
          match execFrom r (c :: bef) aft' with
          | Some (skipped, st) => Some (c :: skipped, st)
          | None => None
          end
      end
  end.

(** [if (t.trim()) blocks.push({ type: "text", text: t.trim() })] *)
Definition textBlock (t : jsstring) : list Block :=
  if truthy (trim t) then [TextBlock (trim t)] else [].

(** The loop of [splitIntoBlocks] and the tail after it.  [None] stands for
    a loop that has not finished within [fuel] iterations. *)
Fixpoint splitLoop (fuel : nat) (bef aft : jsstring) (blocks : list Block)
  : option (list Block) :=
  match fuel with
  | O => None
  | S fuel' =>
      match execFrom codeBlockRegex bef aft with
      | Some (skipped, st) =>
          splitLoop fuel' (before st) (after st)
            (blocks ++ textBlock skipped ++ [CodeBlock (trim (capture st))])
      | None => Some (blocks ++ textBlock aft)
      end
  end.

Definition splitIntoBlocks (text : jsstring) : list Block :=
  match splitLoop (S (length text)) [] text [] with
  | Some (b :: bs) => b :: bs
  | _ => [TextBlock text]
  end.

(** The texts of the code blocks, in order. *)
Definition codeTexts (bs : list Block) : list jsstring :=
  flat_map (fun b => match b with
                     | CodeBlock t => [t]
                     | TextBlock _ => []
                     end) bs.

(** * Properties *)

(** ** The matcher and the declarative reading agree *)

Section MatcherFacts.
Context {A : Type}.

Lemma starLoop_sound (r : regex) (g : bool) (k : mstate -> option A) :
  (forall st (k' : mstate -> option A) x, rmatch r st k' = Some x ->
     exists st', Matches r st st' /\ k' st' = Some x) ->
  forall n st x,
    starLoop (rmatch r) g k n st = Some x ->
    exists st', Matches (Star g r) st st' /\ k st' = Some x.
Proof.
  intros Hbody n.
  induction n as [|n IH]; intros st x H; simpl in H.
  - exists st. split; [constructor | exact H].
  - assert (Hiter : forall y,
              rmatch r st (fun st' =>
                if (length (after st') <? length (after st))%nat
                then starLoop (rmatch r) g k n st' else None) = Some y ->
              exists st', Matches (Star g r) st st' /\ k st' = Some y).
    { intros y Hy. apply Hbody in Hy. destruct Hy as [st1 [Hm Hk]].
      destruct (Nat.ltb_spec (length (after st1)) (length (after st)))
        as [Hlt|]; [|discriminate].
      apply IH in Hk. destruct Hk as [st2 [Hs Hk]].
      exists st2. split; [|exact Hk].
      eapply M_StarCons; eauto. }
    destruct g.
    + destruct (rmatch r st _) as [y|] eqn:E.
      * inversion H; subst. apply Hiter. reflexivity.
      * exists st. split; [constructor | exact H].
    + destruct (k st) as [y|] eqn:E.
      * inversion H; subst. exists st. split; [constructor | exact E].
      * apply Hiter. exact H.
Qed.
End MatcherFacts.

Lemma rmatch_sound {A : Type} (r : regex) :
  forall st (k : mstate -> option A) x,
    rmatch r st k = Some x ->
    exists st', Matches r st st' /\ k st' = Some x.
Proof.
  induction r as [|p|r1 IH1 r2 IH2|g r IH|r IH|m|m|]; intros st k x H;
    simpl in H.
  - exists st. split; [constructor | exact H].
  - destruct st as [bef aft cp]. simpl in H.
    destruct aft as [|c rest]; [discriminate|].
    destruct (p c) eqn:Hp; [|discriminate].
    eexists. split; [constructor; exact Hp | exact H].
  - apply IH1 in H. destruct H as [st1 [H1 H]].
    apply IH2 in H. destruct H as [st2 [H2 H]].
    exists st2. split; [econstructor; eauto | exact H].
  - eapply starLoop_sound; eauto.
  - apply IH in H. destruct H as [st1 [H1 H]].
    eexists. split; [constructor; exact H1 | exact H].
  - destruct (atBol m st) eqn:E; [|discriminate].
    exists st. split; [constructor; exact E | exact H].
  - destruct (atEol m st) eqn:E; [|discriminate].
    exists st. split; [constructor; exact E | exact H].
  - destruct (atWordB st) eqn:E; [|discriminate].
    exists st. split; [constructor; exact E | exact H].
Qed.

(** Completeness: when a match exists after which the continuation
    succeeds, the matcher succeeds (possibly with another match of higher
    priority). *)
Lemma rmatch_complete_gen {A : Type} (r : regex) (st st' : mstate) :
  Matches r st st' ->
  forall (k : mstate -> option A) x, k st' = Some x ->
    (exists y, rmatch r st k = Some y) /\
    (forall g r1, r = Star g r1 ->
       forall n, (length (after st) <= n)%nat ->
         exists y, starLoop (rmatch r1) g k n st = Some y).
Proof.
  induction 1 as [st|p c bef aft cp Hp|r1 r2 st1 st2 st3 H1 IH1 H2 IH2
                  |g r st|g r st1 st2 st3 H1 IH1 Hlt H2 IH2
                  |r st st1 H1 IH1|m st Hm|m st Hm|st Hm];
    intros k x Hk.
  - split; [exists x; exact Hk | intros; discriminate].
  - split; [|intros; discriminate]. exists x. simpl. rewrite Hp. exact Hk.
  - split; [|intros; discriminate]. simpl.
    destruct (IH2 k x Hk) as [[y Hy] _].
    destruct (IH1 (fun st' => rmatch r2 st' k) y Hy) as [Hz _]. exact Hz.
  - assert (Hloop : forall n, exists y, starLoop (rmatch r) g k n st = Some y).
    { intros [|n]; simpl; [exists x; exact Hk|].
      destruct g.
      - destruct (rmatch r st _) as [y|]; [exists y; reflexivity|].
        exists x; exact Hk.
      - rewrite Hk. exists x; reflexivity. }
    split; [apply Hloop|].
    intros g' r1 E n _. inversion E; subst. apply Hloop.
  - assert (Hloop : forall n, (length (after st1) <= n)%nat ->
              exists y, starLoop (rmatch r) g k n st1 = Some y).
    { intros n Hn. destruct n as [|n]; [lia|]. simpl.
      destruct (IH2 k x Hk) as [_ Htail].
      destruct (Htail g r eq_refl n ltac:(lia)) as [y Hy].
      destruct (IH1 (fun st' =>
                  if (length (after st') <? length (after st1))%nat
                  then starLoop (rmatch r) g k n st' else None) y) as [[z Hz] _].
      { destruct (Nat.ltb_spec (length (after st2)) (length (after st1)));
          [exact Hy | lia]. }
      destruct g.
      - rewrite Hz. exists z; reflexivity.
      - destruct (k st1) as [w|]; [exists w; reflexivity|].
        exists z; exact Hz. }
    split; [apply Hloop; lia|].
    intros g' r1 E n Hn. inversion E; subst. apply Hloop; exact Hn.
  - split; [|intros; discriminate]. simpl.
    destruct (IH1 (fun st' => k (MState (before st') (after st')
                (Some (firstn (length (after st) - length (after st'))
                              (after st))))) x Hk) as [Hz _].
    exact Hz.
  - split; [|intros; discriminate]. simpl. rewrite Hm. exists x; exact Hk.
  - split; [|intros; discriminate]. simpl. rewrite Hm. exists x; exact Hk.
  - split; [|intros; discriminate]. simpl. rewrite Hm. exists x; exact Hk.
Qed.

Lemma rmatch_complete {A : Type} (r : regex) (st st' : mstate)
  (k : mstate -> option A) (x : A) :
  Matches r st st' -> k st' = Some x -> exists y, rmatch r st k = Some y.
Proof.
  intros H Hk. destruct (rmatch_complete_gen r st st' H k x Hk) as [Hy _].
  exact Hy.
Qed.

Lemma search_sound (r : regex) :
  forall aft bef st',
    search r bef aft = Some st' ->
    exists pre post,
      aft = pre ++ post /\ Matches r (MState (rev pre ++ bef) post None) st'.
Proof.
  induction aft as [|c aft IH]; intros bef st' H; simpl in H.
  - destruct (rmatch r (MState bef [] None) Some) as [st|] eqn:E;
      [|discriminate].
    inversion H; subst. apply rmatch_sound in E.
    destruct E as [st1 [Hm Hs]]. inversion Hs; subst.
    exists [], []. split; [reflexivity | exact Hm].
  - destruct (rmatch r (MState bef (c :: aft) None) Some) as [st|] eqn:E.
    + inversion H; subst. apply rmatch_sound in E.
      destruct E as [st1 [Hm Hs]]. inversion Hs; subst.
      exists [], (c :: aft). split; [reflexivity | exact Hm].
    + apply IH in H. destruct H as [pre [post [Heq Hm]]].
      exists (c :: pre), post. split; [simpl; congruence|].
      simpl. rewrite <- app_assoc. exact Hm.
Qed.

Lemma search_complete (r : regex) :
  forall pre post bef st',
    Matches r (MState (rev pre ++ bef) post None) st' ->
    exists st'', search r bef (pre ++ post) = Some st''.
Proof.
  induction pre as [|c pre IH]; intros post bef st' Hm.
  - simpl in *. destruct (rmatch_complete r _ _ Some st' Hm eq_refl) as [y Hy].
    destruct post; simpl; rewrite Hy; eexists; reflexivity.
  - simpl. destruct (rmatch r _ Some) as [st|]; [eexists; reflexivity|].
    apply (IH post (c :: bef) st'). simpl in Hm.
    rewrite <- app_assoc in Hm. exact Hm.
Qed.

(** [test] decides whether a match exists somewhere in the text. *)
Lemma test_iff (r : regex) (s : jsstring) :
  test r s = true <-> MatchesIn r s.
Proof.
  unfold test, exec, MatchesIn. split.
  - destruct (search r [] s) as [st|] eqn:E; [|discriminate]. intros _.
    apply search_sound in E. destruct E as [pre [post [Heq Hm]]].
    rewrite app_nil_r in Hm. exists pre, post, st. split; assumption.
  - intros [pre [post [st' [Heq Hm]]]]. subst s.
    destruct (search_complete r pre post [] st') as [st'' Hs].
    { rewrite app_nil_r. exact Hm. }
    rewrite Hs. reflexivity.
Qed.

(** ** Literals *)

Lemma Matches_Lit (u : jsstring) :
  forall st st',
    Matches (Lit u) st st' <->
    after st = u ++ after st' /\ before st' = rev u ++ before st /\
    cap st' = cap st.
Proof.
  induction u as [|x u IH]; intros st st'; simpl.
  - split.
    + intros H. inversion H; subst. auto.
    + intros [H1 [H2 H3]]. destruct st, st'; simpl in *; subst. constructor.
  - split.
    + intros H. inversion H as [| | r1 r2 s1 s2 s3 Ha Hb | | | | | |]; subst.
      inversion Ha as [|p c bef aft cp Hp| | | | | | |]; subst.
      apply IH in Hb. simpl in Hb.
      destruct Hb as [E1 [E2 E3]].
      apply N.eqb_eq in Hp. subst c. simpl.
      rewrite E1, E2, <- app_assoc. auto.
    + intros [H1 [H2 H3]]. destruct st as [bef aft cp], st' as [bef' aft' cp'].
      simpl in *. subst.
      apply M_Seq with (st2 := MState (x :: bef) (u ++ aft') cp).
      * constructor. apply N.eqb_refl.
      * apply IH. simpl. rewrite <- app_assoc. auto.
Qed.

Lemma Matches_LitI (u : jsstring) :
  forall st st',
    Matches (LitI u) st st' <->
    exists w, ciEq w u = true /\
      after st = w ++ after st' /\ before st' = rev w ++ before st /\
      cap st' = cap st.
Proof.
  induction u as [|x u IH]; intros st st'; simpl.
  - split.
    + intros H. inversion H; subst. exists []. auto.
    + intros [w [Hw [H1 [H2 H3]]]]. destruct w; [|discriminate].
      destruct st, st'; simpl in *; subst. constructor.
  - split.
    + intros H. inversion H as [| | r1 r2 s1 s2 s3 Ha Hb | | | | | |]; subst.
      inversion Ha as [|p c bef aft cp Hp| | | | | | |]; subst.
      apply IH in Hb. simpl in Hb.
      destruct Hb as [w [Hw [E1 [E2 E3]]]].
      exists (c :: w). simpl. rewrite Hp, Hw, E1, E2, <- app_assoc. auto.
    + intros [w [Hw [H1 [H2 H3]]]].
      destruct w as [|c w]; [discriminate|].
      apply andb_prop in Hw. destruct Hw as [Hc Hw].
      destruct st as [bef aft cp], st' as [bef' aft' cp'].
      simpl in *. subst.
      apply M_Seq with (st2 := MState (c :: bef) (w ++ aft') cp).
      * constructor. exact Hc.
      * apply IH. exists w. simpl. rewrite <- app_assoc. auto.
Qed.

(** ** Trimming *)

Lemma dropWhile_split {A} (p : A -> bool) (l : list A) :
  l = takeWhile p l ++ dropWhile p l.
Proof.
  induction l as [|x l IH]; simpl; [reflexivity|].
  destruct (p x); simpl; congruence.
Qed.

Lemma takeWhile_all {A} (p : A -> bool) (l : list A) :
  forallb p (takeWhile p l) = true.
Proof.
  induction l as [|x l IH]; simpl; [reflexivity|].
  destruct (p x) eqn:E; simpl; [rewrite E; exact IH | reflexivity].
Qed.

Lemma dropWhile_head {A} (p : A -> bool) (l : list A) x l' :
  dropWhile p l = x :: l' -> p x = false.
Proof.
  induction l as [|y l IH]; simpl; [discriminate|].
  destruct (p y) eqn:E; [exact IH|]. intros H; inversion H; subst. exact E.
Qed.

Lemma forallb_rev {A} (p : A -> bool) (l : list A) :
  forallb p (rev l) = forallb p l.
Proof.
  induction l as [|x l IH]; simpl; [reflexivity|].
  rewrite forallb_app, IH. simpl. rewrite andb_true_r. apply andb_comm.
Qed.

(** [trim] removes a run of white space at each end and nothing else; what
    is left neither starts nor ends with white space. *)
Lemma trim_decompose (s : jsstring) :
  exists l r,
    s = l ++ trim s ++ r /\
    forallb isSpace l = true /\ forallb isSpace r = true /\
    (forall x t, trim s = x :: t -> isSpace x = false) /\
    (forall x t, rev (trim s) = x :: t -> isSpace x = false).
Proof.
  unfold trim, trimEnd, trimStart.
  exists (takeWhile isSpace s),
         (rev (takeWhile isSpace (rev (dropWhile isSpace s)))).
  split; [|split; [|split; [|split]]].
  - rewrite <- rev_app_distr, <- dropWhile_split, rev_involutive.
    apply dropWhile_split.
  - apply takeWhile_all.
  - rewrite forallb_rev. apply takeWhile_all.
  - intros x t H.
    destruct (dropWhile isSpace s) as [|y d] eqn:Ed; [discriminate|].
    pose proof (dropWhile_head _ _ _ _ Ed) as Hy.
    assert (Hsplit := dropWhile_split isSpace (rev (y :: d))).
    apply (f_equal (@rev N)) in Hsplit.
    rewrite rev_involutive, rev_app_distr in Hsplit.
    rewrite H in Hsplit. simpl in Hsplit. inversion Hsplit; subst. exact Hy.
  - intros x t H. rewrite rev_involutive in H.
    eapply dropWhile_head; eauto.
Qed.

Lemma trim_empty_all_space (s : jsstring) :
  trim s = [] -> forallb isSpace s = true.
Proof.
  intros H. destruct (trim_decompose s) as [l [r [Hs [Hl [Hr _]]]]].
  rewrite H in Hs. rewrite Hs. simpl. rewrite forallb_app, Hl, Hr. reflexivity.
Qed.

(** ** The two patterns of the toggle command *)

Ltac inv_seq H Ha Hb :=
  inversion H as [| | ? ? ? ? ? Ha Hb | | | | | |]; subst; clear H.

Lemma ciEq_length (w u : jsstring) : ciEq w u = true -> length w = length u.
Proof.
  revert u. induction w as [|c w IH]; intros [|x u] H; simpl in *;
    try discriminate; [reflexivity|].
  apply andb_prop in H. destruct H as [_ H]. f_equal. apply IH, H.
Qed.

Lemma ciEq_STATE_ends (w : jsstring) :
  ciEq w (js "STATE") = true ->
  isWordAt w = true /\ isWordAt (rev w) = true /\ forallb isSpace w = false.
Proof.
  intros H.
  destruct w as [|c1 [|c2 [|c3 [|c4 [|c5 [|c6 w]]]]]]; simpl in H;
    try discriminate; try (rewrite !andb_false_r in H; discriminate).
  rewrite andb_true_r in H.
  repeat (apply andb_prop in H; destruct H as [?H H]).
  repeat match goal with
         | Hc : (_ || _)%bool = true |- _ =>
             apply orb_prop in Hc; destruct Hc as [Hc|Hc];
             apply N.eqb_eq in Hc; subst
         end; vm_compute; auto.
Qed.

(** [/^STATE$/i] accepts exactly the five letters of STATE, in any case. *)
Lemma toggleRegex_test (t : jsstring) :
  test toggleRegex t = ciEq t (js "STATE").
Proof.
  apply eq_true_iff_eq. rewrite test_iff. unfold MatchesIn, toggleRegex. split.
  - intros [pre [post [st' [Heq Hm]]]].
    inv_seq Hm Ha Hb. inv_seq Hb Hc Hd.
    inversion Ha as [| | | | | |m st Hbol| |]; subst; clear Ha.
    inversion Hd as [| | | | | | |m st Heol|]; subst; clear Hd.
    apply (proj1 (Matches_LitI (js "STATE") _ _)) in Hc. destruct Hc as [w [Hw [E1 [E2 E3]]]].
    simpl in *. unfold atBol in Hbol. simpl in Hbol.
    unfold atEol in Heol.
    destruct (rev pre) eqn:Er; [|discriminate].
    apply (f_equal (@rev N)) in Er. rewrite rev_involutive in Er. subst pre.
    destruct (after st'); [|discriminate].
    rewrite app_nil_r in E1. simpl. subst post. exact Hw.
  - intros Hw. exists [], t, (MState (rev t) [] None). split; [reflexivity|].
    apply M_Seq with (st2 := MState [] t None); [constructor; reflexivity|].
    apply M_Seq with (st2 := MState (rev t) [] None);
      [|constructor; reflexivity].
    apply (proj2 (Matches_LitI (js "STATE") _ _)). exists t. simpl.
    rewrite !app_nil_r. auto.
Qed.

(** [/\bSTATE\b/i] accepts the texts that mention STATE as a whole word. *)
Lemma stateWordRegex_iff (text : jsstring) :
  test stateWordRegex text = true <-> ContainsStateWord text.
Proof.
  rewrite test_iff. unfold MatchesIn, stateWordRegex, ContainsStateWord. split.
  - intros [pre [post [st' [Heq Hm]]]].
    inv_seq Hm Ha Hb. inv_seq Hb Hc Hd.
    inversion Ha as [| | | | | | | |st Hb1]; subst; clear Ha.
    inversion Hd as [| | | | | | | |st Hb2]; subst; clear Hd.
    apply (proj1 (Matches_LitI (js "STATE") _ _)) in Hc. destruct Hc as [w [Hw [E1 [E2 E3]]]].
    simpl in *. exists pre, w, (after st').
    destruct (ciEq_STATE_ends w Hw) as [Hh [Hl _]].
    unfold atWordB in Hb1, Hb2. simpl in Hb1. rewrite E1 in Hb1.
    rewrite E2 in Hb2.
    assert (Hw1 : isWordAt (w ++ after st') = true).
    { destruct w; [discriminate|]. exact Hh. }
    assert (Hw2 : isWordAt (rev w ++ rev pre) = true).
    { destruct (rev w); [discriminate|]. exact Hl. }
    rewrite Hw1 in Hb1. rewrite Hw2 in Hb2.
    split; [rewrite E1; reflexivity|]. split; [exact Hw|]. split.
    + destruct (isWordAt (rev pre)); [discriminate | reflexivity].
    + destruct (isWordAt (after st')); [discriminate | reflexivity].
  - intros [pre [w [post [Heq [Hw [Hp Hq]]]]]].
    destruct (ciEq_STATE_ends w Hw) as [Hh [Hl _]].
    assert (Hw1 : isWordAt (w ++ post) = true).
    { destruct w; [discriminate|]. exact Hh. }
    assert (Hw2 : isWordAt (rev w ++ rev pre) = true).
    { destruct (rev w); [discriminate|]. exact Hl. }
    exists pre, (w ++ post), (MState (rev w ++ rev pre) post None).
    split; [exact Heq|].
    apply M_Seq with (st2 := MState (rev pre) (w ++ post) None).
    { constructor. unfold atWordB. simpl. rewrite Hp, Hw1. reflexivity. }
    apply M_Seq with (st2 := MState (rev w ++ rev pre) post None).
    { apply (proj2 (Matches_LitI (js "STATE") _ _)). exists w. auto. }
    constructor. unfold atWordB. simpl. rewrite Hq, Hw2. reflexivity.
Qed.

Lemma wordChar_range (x : N) : isWordChar x = true -> 48 <= x <= 122.
Proof.
  unfold isWordChar, isAlpha, isUpper, isLower, isDigit. intros H.
  rewrite ?orb_true_iff, ?andb_true_iff, ?N.eqb_eq, ?N.leb_le in H. lia.
Qed.

Lemma space_range (x : N) : isSpace x = true -> x < 48 \/ 122 < x.
Proof.
  unfold isSpace, isWhiteSpace, isLineTerminator. intros H.
  rewrite ?orb_true_iff, ?andb_true_iff, ?N.eqb_eq, ?N.leb_le in H. lia.
Qed.

Lemma space_not_word (x : N) : isSpace x = true -> isWordChar x = false.
Proof.
  intros H. destruct (isWordChar x) eqn:E; [|reflexivity].
  apply wordChar_range in E. apply space_range in H. lia.
Qed.

(** The toggle command mentions the word STATE. *)
Lemma toggle_contains_word (text : jsstring) :
  isToggleCommand text = true -> ContainsStateWord text.
Proof.
  unfold isToggleCommand. intros Hw.
  destruct (trim_decompose text) as [l [r [Hs [Hl [Hr _]]]]].
  exists l, (trim text), r. repeat split; auto.
  - rewrite <- forallb_rev in Hl. destruct (rev l) as [|x t]; [reflexivity|].
    simpl in *. apply andb_prop in Hl. destruct Hl as [Hx _].
    apply space_not_word. exact Hx.
  - destruct r as [|x t]; [reflexivity|].
    simpl in *. apply andb_prop in Hr. destruct Hr as [Hx _].
    apply space_not_word. exact Hx.
Qed.

(** ** Stars over a character class *)

Section ClassStar.
Context {A : Type} (p : N -> bool) (k : mstate -> option A).

Lemma starLoop_class_greedy :
  forall aft n bef cp, (length aft <= n)%nat ->
    starLoop (rmatch (Class p)) true k n (MState bef aft cp)
    = greedyRun p k bef aft cp.
Proof.
  induction aft as [|c rest IH]; intros n bef cp Hn.
  - destruct n; reflexivity.
  - destruct n as [|n]; [simpl in Hn; lia|].
    simpl. destruct (p c); [|reflexivity].
    destruct (Nat.ltb_spec (length rest) (S (length rest))); [|lia].
    rewrite IH by (simpl in Hn; lia). reflexivity.
Qed.

Lemma starLoop_class_lazy :
  forall aft n bef cp, (length aft <= n)%nat ->
    starLoop (rmatch (Class p)) false k n (MState bef aft cp)
    = lazyRun p k bef aft cp.
Proof.
  induction aft as [|c rest IH]; intros n bef cp Hn.
  - destruct n; simpl; destruct (k _); reflexivity.
  - destruct n as [|n]; [simpl in Hn; lia|].
    simpl. destruct (k _); [reflexivity|].
    destruct (p c); [|reflexivity].
    destruct (Nat.ltb_spec (length rest) (S (length rest))); [|lia].
    rewrite IH by (simpl in Hn; lia). reflexivity.
Qed.

Lemma rmatch_star_greedy (st : mstate) :
  rmatch (Star true (Class p)) st k
  = greedyRun p k (before st) (after st) (cap st).
Proof.
  destruct st as [bef aft cp]. simpl.
  apply starLoop_class_greedy. lia.
Qed.

Lemma rmatch_star_lazy (st : mstate) :
  rmatch (Star false (Class p)) st k
  = lazyRun p k (before st) (after st) (cap st).
Proof.
  destruct st as [bef aft cp]. simpl.
  apply starLoop_class_lazy. lia.
Qed.

(** When the continuation cannot succeed in front of a character of the
    class, a greedy star commits to the longest run. *)
Lemma greedyRun_longest :
  (forall bef c rest cp, p c = true -> k (MState bef (c :: rest) cp) = None) ->
  forall aft bef cp,
    greedyRun p k bef aft cp
    = k (MState (rev (takeWhile p aft) ++ bef) (dropWhile p aft) cp).
Proof.
  intros Hk. induction aft as [|c rest IH]; intros bef cp; simpl.
  - reflexivity.
  - destruct (p c) eqn:Hp; [|reflexivity].
    rewrite IH, (Hk _ _ _ _ Hp). simpl. rewrite <- app_assoc. simpl.
    destruct (k _); reflexivity.
Qed.
End ClassStar.

Lemma rmatch_Lit {A : Type} (u : jsstring) (k : mstate -> option A) :
  forall bef aft cp,
    rmatch (Lit u) (MState bef aft cp) k
    = if startsWith u aft
      then k (MState (rev u ++ bef) (skipn (length u) aft) cp)
      else None.
Proof.
  induction u as [|x u IH]; intros bef aft cp; simpl.
  - reflexivity.
  - destruct aft as [|c aft]; [reflexivity|].
    destruct (N.eqb_spec x c); simpl; [|reflexivity].
    subst c. rewrite IH, <- app_assoc. reflexivity.
Qed.

(** The matches of a star over a class are the runs of the class. *)
Lemma Matches_StarClass (g : bool) (p : N -> bool) (st st' : mstate) :
  Matches (Star g (Class p)) st st' <->
  exists w, forallb p w = true /\
    after st = w ++ after st' /\ before st' = rev w ++ before st /\
    cap st' = cap st.
Proof.
  split.
  - intros H. remember (Star g (Class p)) as r eqn:Er.
    induction H as [| | |g' r' st|g' r' st1 st2 st3 H1 _ Hlt H2 IH2| | | |];
      try discriminate.
    + exists []. auto.
    + inversion Er; subst.
      destruct (IH2 eq_refl) as [w [Hw [E1 [E2 E3]]]].
      inversion H1 as [|p0 c bef aft cp Hp| | | | | | |]; subst.
      simpl in *. exists (c :: w). simpl.
      rewrite Hp, Hw, E1, E2, <- app_assoc. auto.
  - intros [w [Hw [E1 [E2 E3]]]].
    destruct st as [bef aft cp], st' as [bef' aft' cp']. simpl in *.
    subst bef' aft cp'.
    revert bef Hw. induction w as [|c w IH]; intros bef Hw; simpl.
    + constructor.
    + simpl in Hw. apply andb_prop in Hw. destruct Hw as [Hc Hw].
      apply M_StarCons with (st2 := MState (c :: bef) (w ++ aft') cp).
      * constructor. exact Hc.
      * simpl. lia.
      * rewrite <- app_assoc. simpl. apply IH. exact Hw.
Qed.

Lemma rmatch_Seq {A : Type} (r1 r2 : regex) (st : mstate)
  (k : mstate -> option A) :
  rmatch (Seq r1 r2) st k = rmatch r1 st (fun st' => rmatch r2 st' k).
Proof. reflexivity. Qed.

Lemma rmatch_Cap {A : Type} (r : regex) (st : mstate)
  (k : mstate -> option A) :
  rmatch (Cap r) st k
  = rmatch r st (fun st' =>
      k (MState (before st') (after st')
           (Some (firstn (length (after st) - length (after st'))
                         (after st))))).
Proof. reflexivity. Qed.

Lemma rmatch_Class {A : Type} (p : N -> bool) (bef aft : jsstring)
  (cp : option jsstring) (k : mstate -> option A) :
  rmatch (Class p) (MState bef aft cp) k
  = match aft with
    | c :: rest => if p c then k (MState (c :: bef) rest cp) else None
    | [] => None
    end.
Proof. reflexivity. Qed.

(** ** The structured-block extractor *)


Lemma firstn_app_length_sub (pre aft : jsstring) :
  firstn (length (pre ++ aft) - length aft) (pre ++ aft) = pre.
Proof.
  rewrite length_app, Nat.add_sub.
  rewrite firstn_app, Nat.sub_diag, firstn_all. simpl. apply app_nil_r.
Qed.

(** The lazy body [([\s\S]*?)] followed by the closing marker stops at the
    first closing marker. *)
Lemma lazy_body_splitAtFence (body0 : jsstring) :
  forall aft pre bef cp0,
    body0 = pre ++ aft ->
    option_map matchParts
      (lazyRun anyChar
         (fun st' =>
            rmatch (Lit fence)
              (MState (before st') (after st')
                 (Some (firstn (length body0 - length (after st')) body0)))
              Some)
         bef aft cp0)
    = option_map (fun r => (pre ++ fst r, snd r)) (splitAtFence aft).
Proof.
  induction aft as [|c rest IH]; intros pre bef cp0 Hb.
  - reflexivity.
  - cbn [lazyRun before after]. rewrite rmatch_Lit.
    cbn [splitAtFence].
    destruct (startsWith fence (c :: rest)) eqn:Hf.
    + subst body0. rewrite firstn_app_length_sub.
      cbn. rewrite app_nil_r. reflexivity.
    + unfold anyChar at 1. cbv beta iota.
      rewrite (IH (pre ++ [c]) (c :: bef) cp0)
        by (rewrite <- app_assoc; exact Hb).
      destruct (splitAtFence rest) as [[b r]|]; cbn; [|reflexivity].
      rewrite <- app_assoc. reflexivity.
Qed.

Lemma isAlpha_not_newline (c : N) : isAlpha c = true -> (10 =? c) = false.
Proof.
  unfold isAlpha, isUpper, isLower. intros H.
  destruct (N.eqb_spec 10 c); [subst; discriminate | reflexivity].
Qed.

(** One attempt of the pattern at a fixed position finds the region that
    opens there. *)
Lemma codeBlock_at (bef aft : jsstring) :
  option_map matchParts (rmatch codeBlockRegex (MState bef aft None) Some)
  = regionAt aft.
Proof.
  unfold codeBlockRegex, regionAt, openingAt.
  rewrite rmatch_Seq, rmatch_Lit.
  destruct (startsWith fence aft); [|reflexivity].
  cbv beta. rewrite rmatch_Seq, rmatch_star_greedy.
  rewrite greedyRun_longest.
  2:{ intros b c rest cp Hc. rewrite rmatch_Seq. unfold Chr.
      rewrite rmatch_Class, (isAlpha_not_newline c Hc). reflexivity. }
  cbn [before after cap]. change (length fence) with 3%nat.
  destruct (dropWhile isAlpha (skipn 3 aft)) as [|c body]; [reflexivity|].
  rewrite rmatch_Seq. unfold Chr. rewrite rmatch_Class.
  destruct (N.eqb_spec 10 c) as [<-|Hne].
  - rewrite rmatch_Seq, rmatch_Cap, rmatch_star_lazy.
    cbn [before after cap].
    transitivity (option_map (fun r : jsstring * jsstring => ([] ++ fst r, snd r))
                    (splitAtFence body)).
    + apply (lazy_body_splitAtFence body body [] _ None eq_refl).
    + destruct (splitAtFence body) as [[b r]|]; reflexivity.
  - destruct c as [|c]; [reflexivity|].
    repeat (destruct c as [c|c|]; try reflexivity). contradiction.
Qed.

(** The leftmost match is the first region, wherever the scan starts. *)
Lemma codeBlock_search :
  forall aft bef,
    option_map matchParts (search codeBlockRegex bef aft) = firstRegion aft.
Proof.
  induction aft as [|c aft IH]; intros bef.
  - pose proof (codeBlock_at bef []) as H. cbn [search firstRegion].
    rewrite <- H.
    destruct (rmatch codeBlockRegex _ Some); reflexivity.
  - pose proof (codeBlock_at bef (c :: aft)) as H. cbn [search firstRegion].
    rewrite <- H.
    destruct (rmatch codeBlockRegex _ Some); [reflexivity|].
    cbn [option_map]. apply IH.
Qed.

Lemma startsWith_iff (p s : jsstring) :
  startsWith p s = true <-> exists t, s = p ++ t.
Proof.
  revert s. induction p as [|a p IH]; intros s; simpl.
  - split; [intros _; exists s; reflexivity | reflexivity].
  - destruct s as [|b s].
    + split; [discriminate | intros [t Ht]; discriminate].
    + rewrite andb_true_iff, N.eqb_eq, IH. split.
      * intros [-> [t ->]]. exists t. reflexivity.
      * intros [t Ht]. inversion Ht; subst. split; [reflexivity|].
        exists t. reflexivity.
Qed.

Lemma startsWith_skipn (p s : jsstring) :
  startsWith p s = true -> s = p ++ skipn (length p) s.
Proof.
  intros H. apply startsWith_iff in H. destruct H as [t ->].
  rewrite skipn_app, Nat.sub_diag, skipn_all. reflexivity.
Qed.

(** The closing marker found is the first one. *)
Lemma splitAtFence_spec :
  forall s b r,
    splitAtFence s = Some (b, r) -> s = b ++ fence ++ r /\ fenceFree b.
Proof.
  induction s as [|c s IH]; intros b r H; [discriminate|].
  cbn [splitAtFence] in H.
  destruct (startsWith fence (c :: s)) eqn:Hf.
  - inversion H; subst. split.
    + apply (startsWith_skipn fence). exact Hf.
    + intros pre post E. apply (f_equal (@length N)) in E.
      rewrite !length_app in E. simpl in E.
      destruct pre; [reflexivity | simpl in E; lia].
  - destruct (splitAtFence s) as [[b' r']|] eqn:Es; [|discriminate].
    inversion H; subst. destruct (IH b' r eq_refl) as [Hs Hfree].
    split; [simpl; f_equal; exact Hs|].
    intros pre post E. destruct pre as [|x pre].
    + exfalso. assert (startsWith fence (c :: s) = true); [|congruence].
      apply startsWith_iff. exists (post ++ r).
      rewrite Hs. change (c :: b' ++ fence ++ r)
        with ((c :: b') ++ fence ++ r).
      rewrite app_assoc, E. simpl. rewrite <- ?app_assoc. reflexivity.
    + simpl in E. inversion E; subst. f_equal. apply (Hfree pre post).
      assumption.
Qed.

Lemma regionAt_spec (s b r : jsstring) :
  regionAt s = Some (b, r) ->
  exists tag,
    s = fence ++ tag ++ [10] ++ b ++ fence ++ r /\
    forallb isAlpha tag = true /\ fenceFree b.
Proof.
  unfold regionAt, openingAt. intros H.
  destruct (startsWith fence s) eqn:Hf; [|discriminate].
  destruct (dropWhile isAlpha (skipn 3 s)) as [|c body] eqn:Ed; [discriminate|].
  assert (c = 10) as ->.
  { destruct c as [|c]; [discriminate|].
    repeat (destruct c as [c|c|]; try discriminate). reflexivity. }
  apply splitAtFence_spec in H. destruct H as [Hb Hfree].
  exists (takeWhile isAlpha (skipn 3 s)). split; [|split].
  - rewrite (startsWith_skipn fence s Hf) at 1. f_equal.
    change (length fence) with 3%nat.
    rewrite (dropWhile_split isAlpha (skipn 3 s)) at 1.
    rewrite Ed, Hb. reflexivity.
  - apply takeWhile_all.
  - exact Hfree.
Qed.

Lemma firstRegion_spec :
  forall s b r,
    firstRegion s = Some (b, r) ->
    exists pre tag,
      s = pre ++ fence ++ tag ++ [10] ++ b ++ fence ++ r /\
      forallb isAlpha tag = true /\ fenceFree b.
Proof.
  induction s as [|c s IH]; intros b r H; cbn [firstRegion] in H.
  - destruct (regionAt []) eqn:E; [discriminate E | discriminate].
  - destruct (regionAt (c :: s)) as [[b' r']|] eqn:E.
    + inversion H; subst. apply regionAt_spec in E.
      destruct E as [tag Ht]. exists [], tag. exact Ht.
    + apply IH in H. destruct H as [pre [tag [Hs Ht]]].
      exists (c :: pre), tag. split; [simpl; f_equal; exact Hs | exact Ht].
Qed.

Lemma firstRegion_shorter (s b r : jsstring) :
  firstRegion s = Some (b, r) -> (length r < length s)%nat.
Proof.
  intros H. apply firstRegion_spec in H.
  destruct H as [pre [tag [-> _]]]. rewrite !length_app. simpl. lia.
Qed.

Lemma regionsFrom_fuel :
  forall n m s, (length s <= n)%nat -> (length s <= m)%nat ->
    regionsFrom n s = regionsFrom m s.
Proof.
  induction n as [|n IH]; intros m s Hn Hm.
  - destruct s; [|simpl in Hn; lia]. destruct m; reflexivity.
  - destruct m as [|m].
    + destruct s; [reflexivity | simpl in Hm; lia].
    + simpl. destruct (firstRegion s) as [[b r]|] eqn:E; [|reflexivity].
      apply firstRegion_shorter in E. f_equal. apply IH; lia.
Qed.

(** Every fenced region is well closed: it sits between an opening marker
    and the first closing marker after it. *)
Lemma regionsFrom_closed (b : jsstring) :
  forall fuel s,
    In b (regionsFrom fuel s) ->
    exists pre tag post,
      s = pre ++ fence ++ tag ++ [10] ++ b ++ fence ++ post /\
      forallb isAlpha tag = true /\ fenceFree b.
Proof.
  induction fuel as [|fuel IH]; intros s H; [contradiction|].
  simpl in H. destruct (firstRegion s) as [[b0 r]|] eqn:E; [|contradiction].
  apply firstRegion_spec in E. destruct E as [pre [tag [Hs Ht]]].
  destruct H as [->|H].
  - exists pre, tag, r. split; [exact Hs | exact Ht].
  - apply IH in H. destruct H as [pre' [tag' [post' [Hr Ht']]]].
    exists (pre ++ fence ++ tag ++ [10] ++ b0 ++ fence ++ pre'), tag', post'.
    split; [|exact Ht'].
    rewrite Hs, Hr. rewrite <- !app_assoc. reflexivity.
Qed.


Lemma extractLoop_regions :
  forall fuel aft bef acc, (length aft < fuel)%nat ->
    extractLoop fuel bef aft acc
    = Some (keepLast acc (regionsFrom (length aft) aft)).
Proof.
  induction fuel as [|fuel IH]; intros aft bef acc Hf; [lia|].
  cbn [extractLoop].
  pose proof (codeBlock_search aft bef) as Hs.
  destruct (search codeBlockRegex bef aft) as [st|].
  - cbn in Hs. symmetry in Hs.
    pose proof (firstRegion_shorter _ _ _ Hs) as Hlt.
    rewrite IH by lia.
    destruct aft as [|c aft]; [simpl in Hlt; lia|].
    cbn [length regionsFrom]. rewrite Hs. unfold matchParts.
    rewrite (regionsFrom_fuel (length aft) (length (after st)) (after st))
      by (simpl in Hlt; lia).
    reflexivity.
  - cbn in Hs. symmetry in Hs.
    destruct aft as [|c aft]; [reflexivity|].
    cbn [length regionsFrom]. rewrite Hs. reflexivity.
Qed.

Lemma keepLast_spec :
  forall regions acc,
    match keepLast acc regions with
    | Some y =>
        (exists earlier b later,
           regions = earlier ++ b :: later /\
           test stateLineRegex b = true /\
           (forall b', In b' later -> test stateLineRegex b' = false) /\
           y = trim b)
        \/ (acc = Some y /\
            forall b, In b regions -> test stateLineRegex b = false)
    | None =>
        acc = None /\
        forall b, In b regions -> test stateLineRegex b = false
    end.
Proof.
  induction regions as [|b0 l IH]; intros acc.
  - simpl. destruct acc; [right|]; split; auto; intros b [].
  - cbn [keepLast fold_left].
    specialize (IH (if test stateLineRegex b0 then Some (trim b0) else acc)).
    unfold keepLast in IH.
    destruct (fold_left _ l _) as [y|].
    + destruct IH as [[earlier [b [later [E [Hb [Hl Hy]]]]]]|[Hacc Hall]].
      * left. exists (b0 :: earlier), b, later. subst. auto.
      * destruct (test stateLineRegex b0) eqn:E0.
        -- left. exists [], b0, l. inversion Hacc; subst. auto.
        -- right. split; [exact Hacc|]. intros b [->|Hin]; auto.
    + destruct IH as [Hacc Hall].
      destruct (test stateLineRegex b0) eqn:E0; [discriminate|].
      split; [exact Hacc|]. intros b [->|Hin]; auto.
Qed.

Lemma atBol_lineStart (pre post : jsstring) (cp : option jsstring) :
  atBol true (MState (rev pre) post cp) = true <-> lineStart pre.
Proof.
  unfold atBol, lineStart. simpl. destruct (rev pre); simpl; tauto.
Qed.

(** The test of the source accepts the regions with a STATE line. *)
Lemma stateLineRegex_iff (b : jsstring) :
  test stateLineRegex b = true <-> StateLine b.
Proof.
  rewrite test_iff. unfold MatchesIn, stateLineRegex, StateLine. split.
  - intros [pre [post [st' [Heq Hm]]]].
    inv_seq Hm Ha Hb. inv_seq Hb Hc Hd. inv_seq Hd He Hf. inv_seq Hf Hg Hh.
    inversion Ha as [| | | | | |m st Hbol| |]; subst; clear Ha.
    apply Matches_StarClass in Hc. destruct Hc as [ws1 [H1 [A1 [B1 C1]]]].
    apply (proj1 (Matches_Lit (js "STATE") _ _)) in He.
    destruct He as [A2 [B2 C2]].
    apply Matches_StarClass in Hg. destruct Hg as [ws2 [H3 [A3 [B3 C3]]]].
    inversion Hh as [|p c bef aft cp Hp| | | | | | |]; subst; clear Hh.
    apply N.eqb_eq in Hp. subst c. simpl in *.
    exists pre, ws1, ws2, aft. split; [|split; [|split]]; auto.
    + rewrite A1, A2, A3. reflexivity.
    + apply (atBol_lineStart pre post None). exact Hbol.
  - intros [pre [ws1 [ws2 [post [Heq [Hl [H1 H2]]]]]]].
    exists pre, (ws1 ++ js "STATE" ++ ws2 ++ [58] ++ post).
    set (s1 := MState (rev ws1 ++ rev pre) (js "STATE" ++ ws2 ++ [58] ++ post) None).
    set (s2 := MState (rev (js "STATE") ++ before s1) (ws2 ++ [58] ++ post) None).
    set (s3 := MState (rev ws2 ++ before s2) ([58] ++ post) None).
    exists (MState (58 :: before s3) post None).
    split; [exact Heq|].
    eapply M_Seq; [constructor; apply atBol_lineStart; exact Hl|].
    apply M_Seq with (st2 := s1).
    { apply Matches_StarClass. exists ws1. auto. }
    apply M_Seq with (st2 := s2).
    { apply (proj2 (Matches_Lit (js "STATE") _ _)). auto. }
    apply M_Seq with (st2 := s3).
    { apply Matches_StarClass. exists ws2. auto. }
    constructor. reflexivity.
Qed.

(** A region with a STATE line is not blank. *)
Lemma StateLine_not_blank (b : jsstring) : StateLine b -> trim b <> [].
Proof.
  intros [pre [ws1 [ws2 [post [Heq _]]]]] Ht.
  apply trim_empty_all_space in Ht. subst b.
  rewrite !forallb_app in Ht.
  repeat (apply andb_prop in Ht; destruct Ht as [?H Ht]).
  discriminate.
Qed.

Lemma extractStateYaml_keepLast (text : jsstring) :
  extractLoop (S (length text)) [] text None
  = Some (keepLast None (fencedRegions text)) /\
  extractStateYaml text = keepLast None (fencedRegions text).
Proof.
  unfold extractStateYaml, fencedRegions.
  rewrite extractLoop_regions by lia. auto.
Qed.

(** What is extracted is never the empty string. *)
Lemma extractStateYaml_truthy (text y : jsstring) :
  extractStateYaml text = Some y -> truthy y = true.
Proof.
  intros H. destruct (extractStateYaml_keepLast text) as [_ Hres].
  rewrite Hres in H.
  pose proof (keepLast_spec (fencedRegions text) None) as Hk.
  rewrite H in Hk.
  destruct Hk as [[earlier [b [later [E [Hb [Hl Hy]]]]]]|[Hacc _]];
    [|discriminate].
  apply stateLineRegex_iff, StateLine_not_blank in Hb.
  subst y. destruct (trim b); [contradiction | reflexivity].
Qed.

(** C1, as stated, fails.  The reply below is one well-closed region of
    the specification, tagged [python3], whose inner text is a STATE line;
    the claim promises the trimmed inner text, and the extractor returns
    nothing, because a tag with a digit opens no region for the pattern.
    In the second reply the pattern pairs the closing marker of such a
    block with the opening marker of the next one and returns the prose
    between the two blocks, which lies in no region of the
    specification. *)
Lemma C1_counterexample_tag_not_letters :
  let reply := js "```python3" ++ [10] ++ js "STATE: x" ++ [10] ++ fence in
  let reply2 :=
    js "```python3" ++ [10] ++ js "print(1)" ++ [10] ++ fence ++ [10]
      ++ js "STATE: prose" ++ [10] ++ js "```yaml" ++ [10]
      ++ js "a: 1" ++ [10] ++ fence in
  specFencedRegions reply = [js "STATE: x" ++ [10]] /\
  test stateLineRegex (js "STATE: x" ++ [10]) = true /\
  extractStateYaml reply = None /\
  specFencedRegions reply2
  = [js "print(1)" ++ [10]; js "a: 1" ++ [10]] /\
  extractStateYaml reply2 = Some (js "STATE: prose").
Proof. vm_compute. repeat split. Qed.

(** C1, amended.  For every reply the extractor terminates and returns the
    trimmed inner text of the last fenced region that has a line matching
    [^\s*STATE\s*:], where the fenced regions are those the code delimits:
    opened by three backticks, zero or more ASCII letters and a line feed,
    closed by the first three backticks after that, taken from left to
    right.  It returns nothing when no such region has such a line.  Every
    region counted is closed by a marker, and regions before the last
    qualifying one are discarded. *)
Theorem C1_extractStateYaml_last_qualifying_region (text : jsstring) :
  extractLoop (S (length text)) [] text None = Some (extractStateYaml text) /\
  (forall b, In b (fencedRegions text) ->
     exists pre tag post,
       text = pre ++ fence ++ tag ++ [10] ++ b ++ fence ++ post /\
       forallb isAlpha tag = true /\ fenceFree b) /\
  match extractStateYaml text with
  | Some y =>
      exists earlier b later,
        fencedRegions text = earlier ++ b :: later /\
        StateLine b /\
        (forall b', In b' later -> ~ StateLine b') /\
        y = trim b
  | None => forall b, In b (fencedRegions text) -> ~ StateLine b
  end.
Proof.
  destruct (extractStateYaml_keepLast text) as [Hloop Hres].
  split; [rewrite Hres; exact Hloop|].
  split; [intros b Hb; eapply regionsFrom_closed; exact Hb|].
  rewrite Hres.
  pose proof (keepLast_spec (fencedRegions text) None) as H.
  destruct (keepLast None (fencedRegions text)) as [y|].
  - destruct H as [[earlier [b [later [E [Hb [Hl Hy]]]]]]|[Hacc _]];
      [|discriminate].
    exists earlier, b, later. split; [exact E|].
    split; [apply stateLineRegex_iff; exact Hb|].
    split; [|exact Hy].
    intros b' Hin Hs. apply stateLineRegex_iff in Hs.
    rewrite (Hl b' Hin) in Hs. discriminate.
  - destruct H as [_ Hall]. intros b Hin Hs.
    apply stateLineRegex_iff in Hs. rewrite (Hall b Hin) in Hs. discriminate.
Qed.


(** ** The session controller *)

Lemma ciEq_STATE_truthy (w : jsstring) :
  ciEq w (js "STATE") = true -> truthy w = true.
Proof. destruct w; [discriminate | reflexivity]. Qed.

Lemma nonBlank_truthy (s : jsstring) : nonBlank s = true -> truthy s = true.
Proof. destruct s; [discriminate | reflexivity]. Qed.

(** C10.  A submission whose trimmed text is empty changes nothing: no
    message, no outbound call, the same state block, visibility, error and
    stores, and the debounce timestamp is left as it was. *)
Theorem C10_blank_submission_is_noop (P : jsstring) (w : World) (now : Z)
  (text : jsstring) :
  nonBlank text = false ->
  step P w (EvSendUser now text) = w /\
  (forall now', canAct now' (appState (step P w (EvSendUser now text)))
                = canAct now' (appState w)).
Proof.
  intros H.
  assert (E : step P w (EvSendUser now text) = w).
  { unfold step, launch, sendUser. unfold nonBlank in H. rewrite H. simpl.
    destruct w; reflexivity. }
  rewrite E. auto.
Qed.

Lemma C10_blank_submission_witness :
  nonBlank [32; 9; 10] = false /\
  step samplePrompt sampleWorld (EvSendUser 1001 [32; 9; 10]) = sampleWorld.
Proof.
  split; [reflexivity|].
  apply (C10_blank_submission_is_noop samplePrompt sampleWorld 1001 [32; 9; 10]).
  reflexivity.
Defined.

(** C4.  Submitting the toggle command while a non-blank state block is
    held never calls out and leaves the messages, the state block, the
    settings and the stores as they are; when the submission is accepted
    (no call in flight, debounce passed) visibility is flipped once. *)
Theorem C4_toggle_is_local (P : jsstring) (w : World) (now : Z)
  (text : jsstring) :
  isToggleCommand text = true ->
  nonBlank (lastYaml (appState w)) = true ->
  let w' := step P w (EvSendUser now text) in
  (calls w' = calls w /\ inflight w' = inflight w /\
   messages (appState w') = messages (appState w) /\
   lastYaml (appState w') = lastYaml (appState w) /\
   settings (appState w') = settings (appState w) /\
   storage (appState w') = storage (appState w)) /\
  (busy (appState w) = false ->
   (300 <= now - lastAction (appState w))%Z ->
   drawerOpen (appState w') = negb (drawerOpen (appState w))).
Proof.
  intros Ht Hy. unfold isToggleCommand in Ht.
  pose proof (ciEq_STATE_truthy _ Ht) as Htr.
  pose proof (nonBlank_truthy _ Hy) as Hy'. unfold nonBlank in Hy.
  destruct w as [s inf cs]. cbn [appState] in *.
  unfold step, launch, sendUser. cbn [appState].
  rewrite Htr. cbn [negb].
  destruct (busy s) eqn:Hb.
  { cbn. split; [repeat split | discriminate]. }
  unfold canAct.
  destruct (Z.ltb_spec (now - lastAction s) 300) as [Hlt|Hge].
  { cbn. split; [repeat split | intros _ ?; lia]. }
  cbn [negb]. rewrite toggleRegex_test, Ht.
  cbn [lastYaml setLastAction]. rewrite Hy, Hy'. cbn.
  split; [repeat split | reflexivity].
Qed.

Lemma C4_toggle_witness :
  drawerOpen
    (appState (step samplePrompt sampleWorld (EvSendUser 1300 (js " state "))))
  = false /\
  calls (step samplePrompt sampleWorld (EvSendUser 1300 (js " state "))) = [].
Proof.
  destruct (C4_toggle_is_local samplePrompt sampleWorld 1300 (js " state ")
              eq_refl eq_refl) as [[Hc _] Hflip].
  split; [apply Hflip; [reflexivity | vm_compute; discriminate] | exact Hc].
Defined.

(** C5.  When the outbound call of a submission fails, the conversation is
    the one before the submission plus the user message (which is also the
    end of what was sent), no assistant message is added, visibility and
    the state block are as before, the error text is on display, and the
    controller is idle again: the same text submitted 300 ms or more after
    the failed submission is sent out again. *)
Theorem C5_failed_call (now : Z) (text : jsstring) (s s1 : AppState)
  (req : Request) (p : Pending) (e : Exception) :
  sendUser now text s = (s1, Some (req, p)) ->
  let s2 := callRejected p e s1 in
  messages s2 = messages s ++ [userMessage text] /\
  req_messages req = messages s ++ [userMessage text] /\
  drawerOpen s2 = drawerOpen s /\
  lastYaml s2 = lastYaml s /\
  error s2 = errorText e /\
  busy s2 = false /\
  (forall now', (300 <= now' - now)%Z ->
     exists s3 req',
       sendUser now' text s2 = (s3, Some (req', PendingSend text))).
Proof.
  unfold sendUser, canAct. intros H.
  destruct (truthy (trim text)) eqn:Ht; [|discriminate].
  cbn [negb] in H. destruct (busy s) eqn:Hb; [discriminate|].
  destruct (Z.ltb_spec (now - lastAction s) 300) as [Hlt|Hge];
    [discriminate|].
  cbn [negb] in H.
  destruct (test toggleRegex (trim text)
            && (truthy (lastYaml (setLastAction now s))
                && truthy (trim (lastYaml (setLastAction now s))))) eqn:Htg;
    [discriminate|].
  destruct (ensureSettings (settings (setError [] (setLastAction now s))))
    eqn:Hes; [discriminate|].
  inversion H; subst; clear H. cbn.
  repeat split.
  intros now' Hnow.
  destruct (Z.ltb_spec (now' - now) 300) as [?|_]; [lia|].
  cbn [negb]. cbn [lastYaml setLastAction] in Htg.
  cbn [lastYaml setLastAction callRejected setBusy setError setInput
       setMessages]. rewrite Htg.
  cbn [settings setError setLastAction] in Hes.
  cbn [settings setLastAction callRejected setBusy setError setInput
       setMessages]. rewrite Hes. eexists. eexists. reflexivity.
Qed.

Lemma C5_failed_call_witness :
  let s := sampleState in
  let r := sendUser 2000 (js "NEXT") s in
  let s2 := callRejected (PendingSend (js "NEXT"))
              {| e_name := js "Error"; e_message := js "LLM error 500: oops" |}
              (fst r) in
  messages s2 = sampleMessages ++ [userMessage (js "NEXT")] /\
  error s2 = js "LLM error 500: oops" /\ busy s2 = false.
Proof.
  destruct (C5_failed_call 2000 (js "NEXT") sampleState
              (fst (sendUser 2000 (js "NEXT") sampleState))
              (requestOf sampleState
                 (sampleMessages ++ [userMessage (js "NEXT")]))
              (PendingSend (js "NEXT"))
              {| e_name := js "Error"; e_message := js "LLM error 500: oops" |}
              eq_refl)
    as [Hm [_ [_ [_ [He [Hb _]]]]]].
  split; [exact Hm | split; [exact He | exact Hb]].
Defined.

(** C2: the code departs from the claim.  The user has a state block on
    display and asks a question that merely mentions the word STATE; this
    is not the toggle command.  The reply carries no block, and the code
    clears the state block and closes the drawer, where the claim (and the
    comment on that branch, "if user asked to toggle STATE") leaves both
    unchanged. *)
Lemma C2_counterexample_mention_clears :
  let text := js "what does state mean?" in
  let reply := js "It is a summary of the session." in
  let s' := callResolved (PendingSend text) reply sampleState in
  extractStateYaml reply = None /\
  isToggleCommand text = false /\
  lastYaml sampleState = sampleYaml /\ drawerOpen sampleState = true /\
  lastYaml s' = [] /\ drawerOpen s' = false.
Proof. vm_compute. repeat split. Qed.

(** What the continuation of a submission does with a reply, as the code
    has it.  A block that is found becomes the state block and visibility
    is forced on; with no block and a user text in which [/\bSTATE\b/i]
    matches (the word STATE in any case, as a whole word; the toggle
    command is such a text) the state block is cleared and visibility is
    forced off; in every other case both are left as they were.  The reply
    is appended in every case. *)
Theorem reply_update_rule (text assistantText : jsstring) (s : AppState) :
  let s' := callResolved (PendingSend text) assistantText s in
  (forall y, extractStateYaml assistantText = Some y ->
     lastYaml s' = y /\ drawerOpen s' = true) /\
  (extractStateYaml assistantText = None -> ContainsStateWord text ->
     lastYaml s' = [] /\ drawerOpen s' = false) /\
  (extractStateYaml assistantText = None -> ~ ContainsStateWord text ->
     lastYaml s' = lastYaml s /\ drawerOpen s' = drawerOpen s) /\
  (isToggleCommand text = true -> ContainsStateWord text) /\
  messages s' = messages s ++ [assistantMessage assistantText].
Proof.
  unfold callResolved. cbn zeta.
  split; [|split; [|split; [|split]]].
  - intros y Hy. rewrite Hy. cbn [yamlFound yamlText].
    rewrite (extractStateYaml_truthy _ _ Hy). split; reflexivity.
  - intros Hn Hw. rewrite Hn. cbn [yamlFound].
    apply stateWordRegex_iff in Hw. rewrite Hw. split; reflexivity.
  - intros Hn Hw. rewrite Hn. cbn [yamlFound].
    destruct (test stateWordRegex text) eqn:E.
    + exfalso. apply Hw, stateWordRegex_iff, E.
    + split; reflexivity.
  - apply toggle_contains_word.
  - destruct (yamlFound (extractStateYaml assistantText));
      [reflexivity|].
    destruct (test stateWordRegex text); reflexivity.
Qed.

Lemma reply_update_rule_witness :
  lastYaml (callResolved (PendingSend (js "NEXT")) sampleReply sampleState)
  = js "STATE:" ++ [10]
      ++ js "  progress: {current_stage: 4, stages_total: 8}".
Proof.
  assert (E : extractStateYaml sampleReply
              = Some (js "STATE:" ++ [10]
                        ++ js "  progress: {current_stage: 4, stages_total: 8}"))
    by (vm_compute; reflexivity).
  destruct (reply_update_rule (js "NEXT") sampleReply sampleState)
    as [Hfound _].
  exact (proj1 (Hfound _ E)).
Defined.

(** C7, as stated, fails for the action type "reset": a reset invoked
    100 ms after an accepted submission is carried out, while a submission
    at that same instant is rejected. *)
Lemma C7_counterexample_reset_not_debounced :
  let w1 := step samplePrompt sampleWorld (EvSendUser 5000 (js "STATE")) in
  lastAction (appState w1) = 5000%Z /\
  step samplePrompt w1 (EvSendUser 5100 (js "NEXT")) = w1 /\
  step samplePrompt w1 (EvResetSession 5100) <> w1 /\
  messages (appState (step samplePrompt w1 (EvResetSession 5100))) = [] /\
  messages (appState w1) = sampleMessages.
Proof.
  vm_compute. repeat split. discriminate.
Qed.

(** C7, amended.  The guard [canAct] rejects a call strictly within 300 ms
    of the last accepted one and leaves the timestamp alone; it accepts at
    300 ms or more and records the time.  Session start and user
    submission go through the guard, so within 300 ms they do nothing, and
    of two of them within 300 ms only the first is accepted, while one
    issued 300 ms after the accepted one is accepted again.  Reset is not
    guarded: it is always carried out and never reads or writes the
    timestamp. *)
Theorem C7_debounce_guard (P : jsstring) :
  (forall now s, (now - lastAction s < 300)%Z -> canAct now s = (false, s)) /\
  (forall now s, (300 <= now - lastAction s)%Z ->
     canAct now s = (true, setLastAction now s)) /\
  (forall w now, (now - lastAction (appState w) < 300)%Z ->
     step P w (EvStartSession now) = w /\
     forall text, step P w (EvSendUser now text) = w) /\
  (forall t1 t2 t3 s,
     fst (canAct t1 s) = true ->
     (t2 - t1 < 300)%Z -> (300 <= t3 - t1)%Z ->
     let s1 := snd (canAct t1 s) in
     canAct t2 s1 = (false, s1) /\
     fst (canAct t3 (snd (canAct t2 s1))) = true) /\
  (forall w now,
     appState (step P w (EvResetSession now)) = resetSession (appState w) /\
     lastAction (resetSession (appState w)) = lastAction (appState w)).
Proof.
  assert (Hrej : forall now s, (now - lastAction s < 300)%Z ->
                   canAct now s = (false, s)).
  { intros now s H. unfold canAct.
    destruct (Z.ltb_spec (now - lastAction s) 300); [reflexivity | lia]. }
  assert (Hacc : forall now s, (300 <= now - lastAction s)%Z ->
                   canAct now s = (true, setLastAction now s)).
  { intros now s H. unfold canAct.
    destruct (Z.ltb_spec (now - lastAction s) 300); [lia | reflexivity]. }
  split; [exact Hrej|]. split; [exact Hacc|]. split; [|split].
  - intros [s inf cs] now H. cbn [appState] in H. split.
    + unfold step, launch, startSession. cbn [appState].
      rewrite (Hrej _ _ H). destruct (busy s); reflexivity.
    + intros text. unfold step, launch, sendUser. cbn [appState].
      rewrite (Hrej _ _ H).
      destruct (negb (truthy (trim text))); [reflexivity|].
      destruct (busy s); reflexivity.
  - intros t1 t2 t3 s H1 H2 H3. cbn zeta.
    unfold canAct in H1 |- *.
    destruct (Z.ltb_spec (t1 - lastAction s) 300); [discriminate|].
    cbn [snd lastAction setLastAction].
    destruct (Z.ltb_spec (t2 - t1) 300); [|lia].
    cbn [snd fst lastAction setLastAction].
    destruct (Z.ltb_spec (t3 - t1) 300); [lia|]. split; reflexivity.
  - intros w now. split; reflexivity.
Qed.

Lemma C7_debounce_guard_witness :
  canAct 1200 sampleState = (false, sampleState) /\
  fst (canAct 1300 sampleState) = true.
Proof.
  destruct (C7_debounce_guard samplePrompt) as [Hrej [Hacc _]].
  split.
  - apply Hrej. reflexivity.
  - rewrite Hacc; [reflexivity | vm_compute; discriminate].
Defined.

(** C9, as stated, fails: a reply that arrives after a reset is applied to
    the fresh session.  The messages, emptied by the reset, then hold the
    stale reply, and the state block and visibility are set from it. *)
Lemma C9_counterexample_stale_reply_applied :
  let w2 := run samplePrompt sampleWorld
              [EvSendUser 5000 (js "NEXT"); EvResetSession 6000] in
  let w3 := step samplePrompt w2 (EvCallResolved sampleReply) in
  messages (appState w2) = [] /\ lastYaml (appState w2) = [] /\
  drawerOpen (appState w2) = false /\
  inflight w2 = Some (PendingSend (js "NEXT")) /\
  messages (appState w3) = [assistantMessage sampleReply] /\
  lastYaml (appState w3)
  = js "STATE:" ++ [10]
      ++ js "  progress: {current_stage: 4, stages_total: 8}" /\
  drawerOpen (appState w3) = true.
Proof. vm_compute. repeat split. Qed.

(** C9, amended.  A reset does not cancel the outstanding call and its
    completion handler does not look for a reset: the reply of a call that
    was outstanding at the reset becomes the only message of the fresh
    session, and the state block and visibility are set from it by the
    usual rule (a block found is stored and shown; otherwise they stay
    cleared). *)
Theorem C9_reset_does_not_discard_reply (P : jsstring) (w : World)
  (p : Pending) (now : Z) (assistantText : jsstring) :
  inflight w = Some p ->
  let w1 := step P w (EvResetSession now) in
  let w2 := step P w1 (EvCallResolved assistantText) in
  inflight w1 = Some p /\
  messages (appState w1) = [] /\
  messages (appState w2) = [assistantMessage assistantText] /\
  (forall y, extractStateYaml assistantText = Some y ->
     lastYaml (appState w2) = y /\ drawerOpen (appState w2) = true) /\
  (extractStateYaml assistantText = None ->
     lastYaml (appState w2) = [] /\ drawerOpen (appState w2) = false).
Proof.
  intros Hp. destruct w as [s inf cs]. cbn [inflight] in Hp. subst inf.
  cbn [step inflight appState]. unfold callResolved.
  split; [reflexivity|]. split; [reflexivity|]. split; [|split].
  - destruct p; destruct (yamlFound _); try reflexivity.
    destruct (test stateWordRegex text); reflexivity.
  - intros y Hy. rewrite Hy. cbn [yamlFound yamlText].
    rewrite (extractStateYaml_truthy _ _ Hy).
    destruct p; split; reflexivity.
  - intros Hn. rewrite Hn. cbn [yamlFound].
    destruct p; [split; reflexivity|].
    destruct (test stateWordRegex text); split; reflexivity.
Qed.

Lemma C9_reset_does_not_discard_reply_witness :
  let w := step samplePrompt sampleWorld (EvSendUser 5000 (js "NEXT")) in
  messages
    (appState
       (step samplePrompt (step samplePrompt w (EvResetSession 6000))
          (EvCallResolved sampleReply)))
  = [assistantMessage sampleReply].
Proof.
  destruct (C9_reset_does_not_discard_reply samplePrompt
              (step samplePrompt sampleWorld (EvSendUser 5000 (js "NEXT")))
              (PendingSend (js "NEXT")) 6000 sampleReply eq_refl)
    as [_ [_ [Hm _]]].
  exact Hm.
Defined.

(** ** The progress parser *)

Section GreedyRunFacts.
Context {A : Type} (p : N -> bool).

Lemma greedyRun_ext (k1 k2 : mstate -> option A) :
  (forall st, k1 st = k2 st) ->
  forall aft bef cp, greedyRun p k1 bef aft cp = greedyRun p k2 bef aft cp.
Proof.
  intros H. induction aft as [|c rest IH]; intros bef cp; simpl.
  - apply H.
  - rewrite IH, H. reflexivity.
Qed.

(** A continuation that always succeeds gets the longest run. *)
Lemma greedyRun_total (k : mstate -> option A) :
  (forall st, k st <> None) ->
  forall aft bef cp,
    greedyRun p k bef aft cp
    = k (MState (rev (takeWhile p aft) ++ bef) (dropWhile p aft) cp).
Proof.
  intros Hk. induction aft as [|c rest IH]; intros bef cp; simpl.
  - reflexivity.
  - destruct (p c); [|reflexivity].
    rewrite IH. simpl. rewrite <- app_assoc. simpl.
    destruct (k _) eqn:E; [reflexivity|]. exfalso. eapply Hk, E.
Qed.

Lemma greedyRun_none (k : mstate -> option A) :
  forall aft bef cp,
    (forall u aft', aft = u ++ aft' -> forallb p u = true ->
       k (MState (rev u ++ bef) aft' cp) = None) ->
    greedyRun p k bef aft cp = None.
Proof.
  induction aft as [|c rest IH]; intros bef cp H; simpl.
  - apply (H [] []); reflexivity.
  - assert (H0 : k (MState bef (c :: rest) cp) = None)
      by (apply (H [] (c :: rest)); reflexivity).
    destruct (p c) eqn:Hp; [|exact H0].
    rewrite IH, H0; [reflexivity|].
    intros u aft' E Hu. specialize (H (c :: u) aft').
    simpl in H. rewrite <- app_assoc in H. apply H.
    + rewrite E. reflexivity.
    + rewrite Hp. exact Hu.
Qed.

(** When the continuation succeeds after exactly one run of the class,
    the greedy star finds it, whatever it tries first. *)
Lemma greedyRun_unique (k : mstate -> option A) (x : A) :
  forall u aft' bef cp,
    forallb p u = true ->
    k (MState (rev u ++ bef) aft' cp) = Some x ->
    (forall u' aft'', u ++ aft' = u' ++ aft'' -> forallb p u' = true ->
       u' <> u -> k (MState (rev u' ++ bef) aft'' cp) = None) ->
    greedyRun p k bef (u ++ aft') cp = Some x.
Proof.
  induction u as [|c u IH]; intros aft' bef cp Hu Hk Hother.
  - simpl in *. destruct aft' as [|c rest]; simpl; [exact Hk|].
    destruct (p c) eqn:Hp; [|exact Hk].
    rewrite greedyRun_none, Hk; [reflexivity|].
    intros u aft'' E Hpu. specialize (Hother (c :: u) aft'').
    simpl in Hother. rewrite <- app_assoc in Hother. apply Hother.
    + rewrite E. reflexivity.
    + rewrite Hp. exact Hpu.
    + discriminate.
  - simpl in Hu. apply andb_prop in Hu. destruct Hu as [Hc Hu].
    simpl. rewrite Hc.
    rewrite (IH aft' (c :: bef) cp Hu).
    + reflexivity.
    + simpl in Hk. rewrite <- app_assoc in Hk. exact Hk.
    + intros u' aft'' E Hpu Hne. specialize (Hother (c :: u') aft'').
      simpl in Hother. rewrite <- app_assoc in Hother. apply Hother.
      * rewrite E. reflexivity.
      * rewrite Hc. exact Hpu.
      * intros Heq. inversion Heq. contradiction.
Qed.
End GreedyRunFacts.

Lemma takeWhile_app_stop {A} (p : A -> bool) (w rest : list A) :
  forallb p w = true ->
  match rest with x :: _ => p x = false | [] => True end ->
  takeWhile p (w ++ rest) = w /\ dropWhile p (w ++ rest) = rest.
Proof.
  intros Hw Hr. induction w as [|y w IH]; simpl.
  - destruct rest as [|x rest]; simpl; [auto|]. rewrite Hr. auto.
  - simpl in Hw. apply andb_prop in Hw. destruct Hw as [Hy Hw].
    rewrite Hy. destruct (IH Hw) as [E1 E2]. rewrite E1, E2. auto.
Qed.

Lemma firstn_takeWhile {A} (p : A -> bool) (l : list A) :
  firstn (length l - length (dropWhile p l)) l = takeWhile p l.
Proof.
  rewrite (dropWhile_split p l) at 1 3.
  rewrite length_app, Nat.add_sub.
  rewrite firstn_app, Nat.sub_diag, firstn_all. simpl. apply app_nil_r.
Qed.

(** [(\d+)] at the end of a pattern captures the longest run. *)
Lemma rmatch_Cap_Plus (p : N -> bool) (bef aft : jsstring)
  (cp : option jsstring) :
  rmatch (Cap (Plus (Class p))) (MState bef aft cp) Some
  = match takeWhile p aft with
    | [] => None
    | d :: ds =>
        Some (MState (rev (d :: ds) ++ bef) (dropWhile p aft) (Some (d :: ds)))
    end.
Proof.
  rewrite rmatch_Cap. unfold Plus. rewrite rmatch_Seq, rmatch_Class.
  destruct aft as [|c rest]; [reflexivity|].
  cbn [takeWhile dropWhile]. destruct (p c) eqn:Hp; [|reflexivity].
  rewrite rmatch_star_greedy. cbn [before after cap].
  rewrite greedyRun_total by discriminate.
  cbn [before after]. f_equal. f_equal.
  - simpl. rewrite <- app_assoc. reflexivity.
  - f_equal. pose proof (firstn_takeWhile p (c :: rest)) as H.
    cbn [takeWhile dropWhile] in H. rewrite Hp in H. exact H.
Qed.

Lemma space_not_digit (c : N) : isSpace c = true -> isDigit c = false.
Proof.
  intros H. destruct (isDigit c) eqn:E; [|reflexivity].
  apply space_range in H. unfold isDigit in E.
  rewrite andb_true_iff, !N.leb_le in E. lia.
Qed.

Lemma fieldTail_spec (key : jsstring) (st : mstate) :
  rmatch (Seq (Lit key)
            (Seq (Star true (Class isSpace)) (Cap (Plus (Class isDigit)))))
    st Some
  = fieldTail key st.
Proof.
  destruct st as [bef aft cp]. unfold fieldTail. cbn [before after].
  rewrite rmatch_Seq, rmatch_Lit.
  destruct (startsWith key aft); [|reflexivity].
  cbv beta. rewrite rmatch_Seq, rmatch_star_greedy.
  rewrite greedyRun_longest.
  2:{ intros b c rest cp' Hc. rewrite rmatch_Cap_Plus.
      cbn [takeWhile]. rewrite (space_not_digit c Hc). reflexivity. }
  cbn [before after cap]. rewrite rmatch_Cap_Plus.
  destruct (takeWhile isDigit _); reflexivity.
Qed.

Lemma fieldAt_spec (key bef aft : jsstring) :
  rmatch (progressFieldRegex key) (MState bef aft None) Some
  = fieldAt key bef aft.
Proof.
  unfold progressFieldRegex, fieldAt.
  rewrite rmatch_Seq, rmatch_Lit.
  destruct (startsWith (js "progress:") aft); [|reflexivity].
  cbv beta. rewrite rmatch_Seq, rmatch_star_greedy.
  rewrite greedyRun_longest.
  2:{ intros b c rest cp Hc. rewrite rmatch_Seq. unfold Chr.
      rewrite rmatch_Class.
      destruct (N.eqb_spec 123 c); [subst; discriminate | reflexivity]. }
  cbn [before after cap]. change (length (js "progress:")) with 9%nat.
  destruct (dropWhile isSpace (skipn 9 aft)) as [|c run]; [reflexivity|].
  rewrite rmatch_Seq. unfold Chr. rewrite rmatch_Class.
  destruct (123 =? c); [|reflexivity].
  rewrite rmatch_Seq, rmatch_star_greedy. cbn [before after cap].
  apply greedyRun_ext. intros st. apply fieldTail_spec.
Qed.

Lemma search_here (r : regex) (bef aft : jsstring) (st : mstate) :
  rmatch r (MState bef aft None) Some = Some st -> search r bef aft = Some st.
Proof. intros H. destruct aft; simpl; rewrite H; reflexivity. Qed.

Lemma search_skip (r : regex) :
  forall pre bef rest,
    (forall a x, pre = a ++ x -> x <> [] ->
       rmatch r (MState (rev a ++ bef) (x ++ rest) None) Some = None) ->
    search r bef (pre ++ rest) = search r (rev pre ++ bef) rest.
Proof.
  induction pre as [|c pre IH]; intros bef rest H; [reflexivity|].
  cbn [app search].
  assert (H0 : rmatch r (MState bef (c :: pre ++ rest) None) Some = None).
  { apply (H [] (c :: pre) eq_refl). discriminate. }
  rewrite H0, IH.
  - simpl. rewrite <- app_assoc. reflexivity.
  - intros a x E Hx. specialize (H (c :: a) x). simpl in H.
    rewrite <- app_assoc in H. apply H; [rewrite E; reflexivity | exact Hx].
Qed.

Lemma startsWith_app (u t : jsstring) : startsWith u (u ++ t) = true.
Proof. apply startsWith_iff. exists t. reflexivity. Qed.

Lemma FirstOcc_no_earlier (u pre a x rest : jsstring) :
  FirstOcc u pre -> pre = a ++ x -> x <> [] ->
  startsWith u (x ++ u ++ rest) = false.
Proof.
  intros Hf E Hx. destruct (startsWith u (x ++ u ++ rest)) eqn:Hs;
    [|reflexivity].
  exfalso. apply startsWith_iff in Hs. destruct Hs as [t Ht].
  assert (Hxu : x ++ u = u ++ firstn (length x) t).
  { apply (f_equal (firstn (length x + length u))) in Ht.
    rewrite app_assoc in Ht.
    rewrite firstn_app in Ht. rewrite length_app in Ht.
    rewrite Nat.sub_diag, firstn_all2 in Ht by (rewrite length_app; lia).
    simpl in Ht. rewrite app_nil_r in Ht. rewrite Ht.
    rewrite firstn_app.
    rewrite firstn_all2 by lia.
    replace (length x + length u - length u)%nat with (length x) by lia.
    reflexivity. }
  specialize (Hf a (firstn (length x) t)).
  rewrite E, <- app_assoc, Hxu in Hf. specialize (Hf eq_refl).
  apply (f_equal (@length N)) in Hf. rewrite length_app in Hf.
  destruct x; [contradiction | simpl in Hf; lia].
Qed.

(** With the first [progress:] at the end of [pre], the scan starts its
    match there or later. *)
Lemma exec_progressField_first (key pre rest : jsstring) :
  FirstOcc (js "progress:") pre ->
  exec (progressFieldRegex key) (pre ++ js "progress:" ++ rest)
  = search (progressFieldRegex key) (rev pre) (js "progress:" ++ rest).
Proof.
  intros Hf. unfold exec. rewrite search_skip.
  - rewrite app_nil_r. reflexivity.
  - intros a x E Hx. rewrite fieldAt_spec. unfold fieldAt.
    rewrite (FirstOcc_no_earlier _ _ _ _ _ Hf E Hx). reflexivity.
Qed.

(** A match consumes a prefix of the remaining text. *)
Lemma Matches_consumes (r : regex) (st st' : mstate) :
  Matches r st st' -> exists w, after st = w ++ after st'.
Proof.
  induction 1 as [st|p c bef aft cp Hp|r1 r2 st1 st2 st3 H1 IH1 H2 IH2
                  |g r st|g r st1 st2 st3 H1 IH1 Hlt H2 IH2
                  |r st st1 H1 IH1|m st Hm|m st Hm|st Hm];
    try (exists []; reflexivity).
  - exists [c]. reflexivity.
  - destruct IH1 as [w1 E1], IH2 as [w2 E2]. exists (w1 ++ w2).
    rewrite E1, E2, app_assoc. reflexivity.
  - destruct IH1 as [w1 E1], IH2 as [w2 E2]. exists (w1 ++ w2).
    rewrite E1, E2, app_assoc. reflexivity.
  - exact IH1.
Qed.

(** Without the key in the text the field pattern finds nothing. *)
Lemma exec_progressField_NoOcc (key text : jsstring) :
  NoOcc key text -> exec (progressFieldRegex key) text = None.
Proof.
  intros Hno. destruct (exec (progressFieldRegex key) text) as [st|] eqn:E;
    [|reflexivity].
  exfalso. unfold exec in E. apply search_sound in E.
  destruct E as [pre [post [Ht Hm]]]. unfold progressFieldRegex in Hm.
  inv_seq Hm Ha Hb. inv_seq Hb Hc Hd. inv_seq Hd He Hf. inv_seq Hf Hg Hh.
  inv_seq Hh Hi Hj.
  apply Matches_consumes in Ha, Hc, He, Hg.
  destruct Ha as [w1 E1], Hc as [w2 E2], He as [w3 E3], Hg as [w4 E4].
  apply Matches_Lit in Hi. destruct Hi as [E5 _].
  cbn [after] in E1.
  apply (Hno (pre ++ w1 ++ w2 ++ w3 ++ w4) (after st5)).
  rewrite E1, E2, E3, E4, E5. rewrite <- !app_assoc. reflexivity.
Qed.

Lemma skipn_app_exact {A} (u t : list A) : skipn (length u) (u ++ t) = t.
Proof. rewrite skipn_app, Nat.sub_diag, skipn_all. reflexivity. Qed.

Lemma digit_not_space (c : N) : isDigit c = true -> isSpace c = false.
Proof.
  intros H. destruct (isSpace c) eqn:E; [|reflexivity].
  apply space_not_digit in E. congruence.
Qed.

(** The field pattern on a text whose first [progress:] opens an inline
    mapping in which the key occurs once, followed by an integer. *)
Lemma progressField_exec (key pre ws1 mid ws2 ds post : jsstring) :
  FirstOcc (js "progress:") pre ->
  forallb isSpace ws1 = true ->
  forallb notCloseBrace mid = true ->
  forallb isSpace ws2 = true ->
  ds <> [] -> forallb isDigit ds = true ->
  startsWithDigit post = false ->
  (forall u b, mid ++ key ++ ws2 ++ ds ++ post = u ++ key ++ b ->
     forallb notCloseBrace u = true -> u = mid) ->
  exists st,
    exec (progressFieldRegex key)
      (pre ++ js "progress:" ++ ws1 ++ [123] ++ mid ++ key ++ ws2 ++ ds ++ post)
    = Some st /\ capture st = ds.
Proof.
  intros Hfirst Hws1 Hmid Hws2 Hne Hds Hpost Huniq.
  rewrite exec_progressField_first by exact Hfirst.
  destruct ds as [|d ds']; [contradiction|].
  assert (Hd : isDigit d = true)
    by (simpl in Hds; apply andb_prop in Hds; tauto).
  eexists. split.
  - apply search_here. rewrite fieldAt_spec. unfold fieldAt.
    rewrite startsWith_app.
    change 9%nat with (length (js "progress:")). rewrite skipn_app_exact.
    destruct (takeWhile_app_stop isSpace ws1
                ([123] ++ mid ++ key ++ ws2 ++ (d :: ds') ++ post) Hws1
                eq_refl) as [Et Ed].
    rewrite Ed, Et. cbn [app]. rewrite N.eqb_refl.
    apply (greedyRun_unique notCloseBrace (fieldTail key)).
    + exact Hmid.
    + unfold fieldTail. cbn [after before].
      rewrite startsWith_app, skipn_app_exact.
      destruct (takeWhile_app_stop isSpace ws2 (d :: ds' ++ post) Hws2
                  (digit_not_space d Hd)) as [Et2 Ed2].
      rewrite Ed2, Et2.
      change (d :: ds' ++ post) with ((d :: ds') ++ post).
      assert (Hp : match post with x :: _ => isDigit x = false | [] => True end)
        by (destruct post; [exact I | exact Hpost]).
      destruct (takeWhile_app_stop isDigit (d :: ds') post Hds Hp)
        as [Et3 Ed3].
      rewrite Et3, Ed3. reflexivity.
    + intros u' aft'' E Hu' Hneq. unfold fieldTail. cbn [after].
      destruct (startsWith key aft'') eqn:Hs; [|reflexivity].
      exfalso. apply Hneq. apply startsWith_iff in Hs. destruct Hs as [b Hb].
      apply (Huniq u' b); [|exact Hu']. rewrite <- Hb. exact E.
  - reflexivity.
Qed.

Lemma parseStageProgress_Some (text : jsstring) :
  text <> [] ->
  parseStageProgress (Some text)
  = {| current := match exec currentStageRegex text with
                  | Some st => Some (Number (capture st))
                  | None => None
                  end;
       total := match exec stagesTotalRegex text with
                | Some st => Number (capture st)
                | None => Finite 8
                end |}.
Proof. destruct text; [contradiction | reflexivity]. Qed.

(** The two patterns on the mapping that the specification quotes. *)
Lemma progress_example_exec (pre post : jsstring) :
  FirstOcc (js "progress:") pre ->
  let text :=
    pre ++ js "progress: {current_stage: 3, stages_total: 8}" ++ post in
  option_map capture (exec currentStageRegex text) = Some (js "3") /\
  option_map capture (exec stagesTotalRegex text) = Some (js "8").
Proof.
  intros Hfirst text. subst text.
  change (js "progress: {current_stage: 3, stages_total: 8}")
    with (js "progress:" ++ js " {current_stage: 3, stages_total: 8}").
  rewrite <- app_assoc.
  unfold currentStageRegex, stagesTotalRegex.
  rewrite !exec_progressField_first by exact Hfirst.
  split.
  - erewrite search_here;
      [|rewrite fieldAt_spec; vm_compute; reflexivity].
    reflexivity.
  - erewrite search_here;
      [|rewrite fieldAt_spec; vm_compute; reflexivity].
    reflexivity.
Qed.

Lemma size_small (n : N) : n < 2 ^ 53 -> (N.size n <=? 53) = true.
Proof.
  intros H. apply N.leb_le. destruct (N.eq_dec n 0) as [E|E].
  - subst n. cbn. lia.
  - rewrite (N.size_log2 n E).
    assert (Hl : N.log2 n < 53) by (apply N.log2_lt_pow2; lia). lia.
Qed.

Lemma Number_exact (ds : jsstring) :
  numberOfDigits ds < 2 ^ 53 -> Number ds = Finite (numberOfDigits ds).
Proof.
  intros H. unfold Number, roundToDouble.
  rewrite (size_small _ H). reflexivity.
Qed.

(** C6, as stated, fails.  A text can contain the quoted mapping and still
    give other numbers, because each pattern reads the first mapping it
    matches; and a [current_stage] integer outside a [progress:] mapping is
    not read at all. *)
Lemma C6_counterexample_first_mapping_wins :
  parseStageProgress
    (Some (js "progress: {current_stage: 7, stages_total: 9}" ++ [10]
             ++ js "progress: {current_stage: 3, stages_total: 8}"))
  = {| current := Some (Finite 7); total := 9 |} /\
  parseStageProgress (Some (js "current_stage: 4"))
  = {| current := None; total := 8 |}.
Proof. vm_compute. split; reflexivity. Qed.

(** C6, amended.  The progress parser is a total function.  On absent (or
    empty) input it returns no current stage and total 8.  On a text whose
    first [progress:] is the mapping [{current_stage: 3, stages_total: 8}]
    it returns current 3 and total 8.  In general each field is read on its
    own: when the first [progress:] of the text opens a mapping that has,
    before any closing brace, one [current_stage:] followed by an integer,
    current is [Number] of its digits, and likewise total for
    [stages_total:]; when [stages_total:] does not occur in the text, total
    is the default 8, and when [current_stage:] does not occur, current is
    absent.  [Number] of the digits is the integer itself below 2^53. *)
Theorem C6_parseStageProgress :
  parseStageProgress None = {| current := None; total := 8 |} /\
  parseStageProgress (Some []) = {| current := None; total := 8 |} /\
  (forall pre post,
     FirstOcc (js "progress:") pre ->
     parseStageProgress
       (Some (pre ++ js "progress: {current_stage: 3, stages_total: 8}"
                  ++ post))
     = {| current := Some (Finite 3); total := 8 |}) /\
  (forall text ds,
     FieldOfFirstMapping (js "current_stage:") text ds ->
     current (parseStageProgress (Some text)) = Some (Number ds)) /\
  (forall text ds,
     FieldOfFirstMapping (js "stages_total:") text ds ->
     total (parseStageProgress (Some text)) = Number ds) /\
  (forall text,
     NoOcc (js "stages_total:") text ->
     total (parseStageProgress (Some text)) = Finite 8) /\
  (forall text,
     NoOcc (js "current_stage:") text ->
     current (parseStageProgress (Some text)) = None) /\
  (forall ds,
     numberOfDigits ds < 2 ^ 53 -> Number ds = Finite (numberOfDigits ds)).
Proof.
  split; [reflexivity|]. split; [reflexivity|].
  split; [|split; [|split; [|split; [|split]]]].
  - intros pre post Hfirst.
    destruct (progress_example_exec pre post Hfirst) as [H1 H2].
    rewrite parseStageProgress_Some by (destruct pre; discriminate).
    destruct (exec currentStageRegex _) as [st1|]; [|discriminate].
    destruct (exec stagesTotalRegex _) as [st2|]; [|discriminate].
    cbn in H1, H2. inversion H1 as [E1]. inversion H2 as [E2].
    rewrite E1, E2. reflexivity.
  - intros text ds
      [pre [ws1 [mid [ws2 [post [Et [Hfirst [Hws1 [Hmid [Hws2 [Hne [Hds
       [Hpost Huniq]]]]]]]]]]]]].
    rewrite parseStageProgress_Some by (subst text; destruct pre; discriminate).
    destruct (progressField_exec (js "current_stage:") pre ws1 mid ws2 ds post
                Hfirst Hws1 Hmid Hws2 Hne Hds Hpost Huniq) as [st [E Hc]].
    unfold currentStageRegex. rewrite <- Et in E. cbn [current].
    rewrite E, Hc. reflexivity.
  - intros text ds
      [pre [ws1 [mid [ws2 [post [Et [Hfirst [Hws1 [Hmid [Hws2 [Hne [Hds
       [Hpost Huniq]]]]]]]]]]]]].
    rewrite parseStageProgress_Some by (subst text; destruct pre; discriminate).
    destruct (progressField_exec (js "stages_total:") pre ws1 mid ws2 ds post
                Hfirst Hws1 Hmid Hws2 Hne Hds Hpost Huniq) as [st [E Hc]].
    unfold stagesTotalRegex. rewrite <- Et in E. cbn [total].
    rewrite E, Hc. reflexivity.
  - intros text Hno. destruct text as [|c text]; [reflexivity|].
    rewrite parseStageProgress_Some by discriminate. cbn [total].
    unfold stagesTotalRegex. rewrite (exec_progressField_NoOcc _ _ Hno).
    reflexivity.
  - intros text Hno. destruct text as [|c text]; [reflexivity|].
    rewrite parseStageProgress_Some by discriminate. cbn [current].
    unfold currentStageRegex. rewrite (exec_progressField_NoOcc _ _ Hno).
    reflexivity.
  - exact Number_exact.
Qed.

Lemma NoOcc_check (u s : jsstring) : occurs u s = false -> NoOcc u s.
Proof.
  intros H a. revert s H. induction a as [|x a IH]; intros s H b E; subst s.
  - simpl in H. destruct (u ++ b) eqn:Eub; simpl in H;
      apply orb_false_elim in H; destruct H as [H _];
      rewrite <- Eub, startsWith_app in H; discriminate.
  - simpl in H. apply orb_false_elim in H. destruct H as [_ H].
    exact (IH _ H b eq_refl).
Qed.

Lemma FirstOcc_check (u pre : jsstring) :
  noneBefore u (pre ++ u) (length pre) = true -> FirstOcc u pre.
Proof.
  induction pre as [|c pre IH]; intros H a b E.
  - simpl in E. apply (f_equal (@length N)) in E. rewrite !length_app in E.
    destruct a; [reflexivity | simpl in E; lia].
  - simpl in H. apply andb_prop in H. destruct H as [Hs H].
    destruct a as [|x a].
    + exfalso.
      assert (Hx : startsWith u ((c :: pre) ++ u) = true)
        by (rewrite E; apply (startsWith_app u b)).
      simpl in Hx, Hs. rewrite Hx in Hs. discriminate.
    + simpl in E. inversion E; subst. f_equal. apply (IH H a b). assumption.
Qed.

Lemma onlyAt_sound (key : jsstring) :
  forall s i n,
    onlyAt key s i n = true ->
    forall u b, s = u ++ key ++ b -> forallb notCloseBrace u = true ->
      (length u + i = n)%nat.
Proof.
  induction s as [|c s IH]; intros i n H u b E Hu.
  - destruct u; [|discriminate]. simpl in *.
    apply andb_prop in H. destruct H as [H _].
    rewrite E, startsWith_app in H. apply Nat.eqb_eq in H. exact H.
  - cbn [onlyAt] in H. apply andb_prop in H. destruct H as [H1 H2].
    destruct u as [|x u].
    + simpl in E. rewrite E, startsWith_app in H1.
      apply Nat.eqb_eq in H1. exact H1.
    + simpl in E. inversion E; subst. simpl in Hu.
      apply andb_prop in Hu. destruct Hu as [Hx Hu]. rewrite Hx in H2.
      specialize (IH (S i) n H2 u b eq_refl Hu). simpl. lia.
Qed.

Lemma unique_key_check (key mid tail : jsstring) :
  onlyAt key (mid ++ key ++ tail) 0 (length mid) = true ->
  forall u b, mid ++ key ++ tail = u ++ key ++ b ->
    forallb notCloseBrace u = true -> u = mid.
Proof.
  intros H u b E Hu.
  pose proof (onlyAt_sound key _ _ _ H u b E Hu) as Hl.
  rewrite Nat.add_0_r in Hl.
  assert (E1 : firstn (length u) (u ++ key ++ b) = u).
  { rewrite firstn_app, Nat.sub_diag, firstn_all. simpl. apply app_nil_r. }
  assert (E2 : firstn (length mid) (mid ++ key ++ tail) = mid).
  { rewrite firstn_app, Nat.sub_diag, firstn_all. simpl. apply app_nil_r. }
  transitivity (firstn (length u) (u ++ key ++ b)); [symmetry; exact E1|].
  rewrite <- E, Hl. exact E2.
Qed.

Lemma C6_parseStageProgress_witness :
  current (parseStageProgress (Some sampleProgressText)) = Some (Finite 5) /\
  total (parseStageProgress (Some sampleProgressText)) = Finite 8.
Proof.
  destruct C6_parseStageProgress as [_ [_ [_ [Hc [_ [Ht _]]]]]].
  split.
  - apply (Hc sampleProgressText (js "5")).
    exists (js "STATE:" ++ [10] ++ js "  "), (js " "), [], (js " "), (js "}").
    split; [reflexivity|].
    split; [apply FirstOcc_check; vm_compute; reflexivity|].
    do 3 (split; [reflexivity|]). split; [discriminate|].
    do 2 (split; [reflexivity|]).
    apply (unique_key_check (js "current_stage:") [] (js " 5}")).
    vm_compute. reflexivity.
  - apply Ht. apply NoOcc_check. vm_compute. reflexivity.
Defined.

(** ** The link codec: sanitization *)




(** ** The link codec: JSON *)

Ltac Zify.zify_post_hook ::= Z.to_euclidean_division_equations.

(** Case analysis on every comparison of the goal, pruning by arithmetic. *)
Ltac cmp_cases :=
  repeat (match goal with
          | |- context [N.ltb ?a ?b] => destruct (N.ltb_spec a b)
          | |- context [N.leb ?a ?b] => destruct (N.leb_spec a b)
          | |- context [N.eqb ?a ?b] => destruct (N.eqb_spec a b)
          end; cbn [andb orb negb]; try lia).

Lemma hexValue_hexDigit (up : bool) (n : N) :
  n < 16 -> hexValue (hexDigit up n) = Some n.
Proof.
  intros H. unfold hexValue, hexDigit, isDigit.
  destruct up; cmp_cases; f_equal; lia.
Qed.

Lemma hexByte_digits (up : bool) (b : N) :
  b < 256 -> hexByte (hexDigit up (b / 16)) (hexDigit up (b mod 16)) = Some b.
Proof.
  intros H. unfold hexByte.
  rewrite !hexValue_hexDigit by lia. f_equal. lia.
Qed.

Lemma hexWord_digits (up : bool) (c : N) :
  c < 65536 ->
  hexWord (hexDigit up (c / 4096)) (hexDigit up ((c / 256) mod 16))
          (hexDigit up ((c / 16) mod 16)) (hexDigit up (c mod 16))
  = Some c.
Proof.
  intros H. unfold hexWord, hexByte.
  rewrite !hexValue_hexDigit by lia. f_equal. lia.
Qed.

Lemma strong_list_ind {A} (P : list A -> Prop) :
  (forall s, (forall t, (length t < length s)%nat -> P t) -> P s) ->
  forall s, P s.
Proof.
  intros H s. remember (length s) as n eqn:En.
  revert s En. induction n as [n IH] using lt_wf_ind. intros s En.
  apply H. intros t Ht. apply (IH (length t)); [lia | reflexivity].
Qed.

Lemma parse_unicodeEscape (c : N) (t : jsstring) :
  c < 65536 ->
  parseStringBody (unicodeEscape c ++ t) = consFst c (parseStringBody t).
Proof.
  intros H. unfold unicodeEscape. cbn [app parseStringBody].
  cbn. rewrite hexWord_digits by exact H. reflexivity.
Qed.

(** Reading back what [JSON.stringify] wrote between the quotes. *)
Lemma parseStringBody_quoteBody :
  forall s rest,
    parseStringBody (quoteBody s ++ 34 :: rest) = Some (s, rest).
Proof.
  induction s as [s IH] using strong_list_ind. intros rest.
  destruct s as [|c s]; [reflexivity|].
  assert (IHs : parseStringBody (quoteBody s ++ 34 :: rest) = Some (s, rest))
    by (apply IH; simpl; lia).
  cbn [quoteBody].
  destruct (N.eqb_spec c 8) as [->|N8]; [cbn; rewrite IHs; reflexivity|].
  destruct (N.eqb_spec c 9) as [->|N9]; [cbn; rewrite IHs; reflexivity|].
  destruct (N.eqb_spec c 10) as [->|N10]; [cbn; rewrite IHs; reflexivity|].
  destruct (N.eqb_spec c 12) as [->|N12]; [cbn; rewrite IHs; reflexivity|].
  destruct (N.eqb_spec c 13) as [->|N13]; [cbn; rewrite IHs; reflexivity|].
  destruct (N.eqb_spec c 34) as [->|N34]; [cbn; rewrite IHs; reflexivity|].
  destruct (N.eqb_spec c 92) as [->|N92]; [cbn; rewrite IHs; reflexivity|].
  assert (Hverb : forall x t,
            x <> 34 -> x <> 92 -> 32 <= x ->
            parseStringBody (x :: t) = consFst x (parseStringBody t)).
  { intros x t H1 H2 H3. cbn [parseStringBody].
    destruct (N.eqb_spec x 34); [contradiction|].
    destruct (N.eqb_spec x 92); [contradiction|].
    destruct (N.ltb_spec x 32); [lia | reflexivity]. }
  destruct (N.ltb_spec c 32) as [L32|G32].
  { rewrite <- app_assoc, parse_unicodeEscape by lia. rewrite IHs.
    reflexivity. }
  destruct (isHighSurrogate c) eqn:Hh.
  - unfold isHighSurrogate in Hh. apply andb_prop in Hh.
    destruct Hh as [Hh1 Hh2]. apply N.leb_le in Hh1, Hh2.
    destruct s as [|d s'].
    + rewrite <- app_assoc, parse_unicodeEscape by lia. rewrite IHs.
      reflexivity.
    + destruct (isLowSurrogate d) eqn:Hl.
      * unfold isLowSurrogate in Hl. apply andb_prop in Hl.
        destruct Hl as [Hl1 Hl2]. apply N.leb_le in Hl1, Hl2.
        cbn [app]. rewrite Hverb by lia. rewrite Hverb by lia.
        rewrite (IH s') by (simpl; lia). reflexivity.
      * rewrite <- app_assoc, parse_unicodeEscape by lia. rewrite IHs.
        reflexivity.
  - destruct (isLowSurrogate c) eqn:Hl.
    + unfold isLowSurrogate in Hl. apply andb_prop in Hl.
      destruct Hl as [Hl1 Hl2]. apply N.leb_le in Hl1, Hl2.
      rewrite <- app_assoc, parse_unicodeEscape by lia. rewrite IHs.
      reflexivity.
    + cbn [app]. rewrite Hverb by lia. rewrite IHs. reflexivity.
Qed.

Lemma parseValue_string (f : nat) (v rest : jsstring) :
  parseValue (S f) (34 :: quoteBody v ++ 34 :: rest) = Some (JStr v, rest).
Proof.
  cbn [parseValue skipWs dropWhile].
  change (isJsonWhitespace 34) with false. cbv iota.
  change (34 =? 34) with true. cbv iota.
  rewrite parseStringBody_quoteBody. reflexivity.
Qed.

Lemma parseMembers_cons (f : nat) (key v r : jsstring) :
  parseMembers (S (S f))
    (34 :: quoteBody key ++ 34 :: 58 :: 34 :: quoteBody v ++ 34 :: 44 :: 34 :: r)
  = consFst (key, JStr v) (parseMembers (S f) (34 :: r)).
Proof.
  cbn [parseMembers]. rewrite parseStringBody_quoteBody.
  cbn [skipWs dropWhile]. change (isJsonWhitespace 58) with false. cbv iota.
  rewrite parseValue_string.
  cbn [skipWs dropWhile]. change (isJsonWhitespace 44) with false.
  change (isJsonWhitespace 34) with false. cbv iota. reflexivity.
Qed.

Lemma parseMembers_last (f : nat) (key v r : jsstring) :
  parseMembers (S (S f))
    (34 :: quoteBody key ++ 34 :: 58 :: 34 :: quoteBody v ++ 34 :: 125 :: r)
  = Some ([(key, JStr v)], r).
Proof.
  cbn [parseMembers]. rewrite parseStringBody_quoteBody.
  cbn [skipWs dropWhile]. change (isJsonWhitespace 58) with false. cbv iota.
  rewrite parseValue_string.
  cbn [skipWs dropWhile]. change (isJsonWhitespace 125) with false.
  cbv iota. reflexivity.
Qed.

Lemma parseValue_object (f : nat) (r : jsstring) :
  parseValue (S f) (123 :: 34 :: r)
  = match parseMembers f (34 :: r) with
    | Some (ms, r') => Some (JObj ms, r')
    | None => None
    end.
Proof. reflexivity. Qed.

Lemma object_shape (a b c d e f : jsstring) :
  [123] ++ (34 :: a ++ [34]) ++ [58] ++ (34 :: b ++ [34]) ++ [44]
        ++ (34 :: c ++ [34]) ++ [58] ++ (34 :: d ++ [34]) ++ [44]
        ++ (34 :: e ++ [34]) ++ [58] ++ (34 :: f ++ [34]) ++ [125]
  = 123 :: 34 :: a ++ 34 :: 58 :: 34 :: b ++ 34 :: 44 :: 34
        :: c ++ 34 :: 58 :: 34 :: d ++ 34 :: 44 :: 34
        :: e ++ 34 :: 58 :: 34 :: f ++ [34; 125].
Proof. cbn [app]. rewrite <- !app_assoc. cbn [app]. reflexivity. Qed.

Lemma stringifyConfig_shape (cfg : Settings) :
  stringifyConfig cfg
  = 123 :: 34 :: quoteBody (js "baseUrl") ++ 34 :: 58 :: 34
        :: quoteBody (baseUrl cfg) ++ 34 :: 44 :: 34
        :: quoteBody (js "model") ++ 34 :: 58 :: 34
        :: quoteBody (model cfg) ++ 34 :: 44 :: 34
        :: quoteBody (js "apiKey") ++ 34 :: 58 :: 34
        :: quoteBody (apiKey cfg) ++ [34; 125].
Proof. apply object_shape. Qed.

Lemma JSON_parse_object3 (ka a kb b kc c : jsstring) :
  JSON_parse
    (123 :: 34 :: quoteBody ka ++ 34 :: 58 :: 34 :: quoteBody a ++ 34 :: 44 :: 34
         :: quoteBody kb ++ 34 :: 58 :: 34 :: quoteBody b ++ 34 :: 44 :: 34
         :: quoteBody kc ++ 34 :: 58 :: 34 :: quoteBody c ++ [34; 125])
  = Some (JObj [(ka, JStr a); (kb, JStr b); (kc, JStr c)]).
Proof.
  unfold JSON_parse.
  cbn [length]. rewrite !length_app. cbn [length].
  rewrite <- !plus_n_Sm.
  rewrite parseValue_object.
  rewrite parseMembers_cons, parseMembers_cons, parseMembers_last.
  reflexivity.
Qed.

(** [JSON.parse] reads back the object that [JSON.stringify] wrote. *)
Lemma JSON_parse_stringifyConfig (cfg : Settings) :
  JSON_parse (stringifyConfig cfg) = Some (configObject cfg).
Proof. rewrite stringifyConfig_shape. apply JSON_parse_object3. Qed.

(** ** The link codec: UTF-8 through the URI functions *)

Lemma unreserved_ascii (c : N) : uriUnreserved c = true -> c < 128.
Proof.
  unfold uriUnreserved, isAlpha, isUpper, isLower, isDigit. intros H.
  rewrite ?orb_true_iff, ?andb_true_iff, ?N.eqb_eq, ?N.leb_le in H. lia.
Qed.

Lemma unreserved_not_surrogate (c : N) :
  uriUnreserved c = true ->
  isHighSurrogate c = false /\ isLowSurrogate c = false.
Proof.
  intros H. apply unreserved_ascii in H.
  unfold isHighSurrogate, isLowSurrogate. split; cmp_cases; reflexivity.
Qed.

Lemma option_map_map {A B C} (f : A -> B) (g : B -> C) (o : option A) :
  option_map g (option_map f o) = option_map (fun x => g (f x)) o.
Proof. destruct o; reflexivity. Qed.

Lemma option_map_ext {A B} (f g : A -> B) (o : option A) :
  (forall x, f x = g x) -> option_map f o = option_map g o.
Proof. intros H. destruct o; simpl; [rewrite H|]; reflexivity. Qed.

(** [encodeURIComponent] works code point by code point. *)
Lemma encodeURIComponent_codePoints :
  forall s,
    encodeURIComponent s
    = option_map (flat_map encodeCodePoint) (codePoints s).
Proof.
  induction s as [s IH] using strong_list_ind.
  destruct s as [|c rest]; [reflexivity|].
  cbn [encodeURIComponent codePoints].
  destruct (uriUnreserved c) eqn:Hu.
  - destruct (unreserved_not_surrogate c Hu) as [Hh Hl]. rewrite Hh, Hl.
    rewrite IH by (simpl; lia). rewrite !option_map_map.
    apply option_map_ext. intros l. cbn [flat_map].
    unfold encodeCodePoint at 2. rewrite Hu. reflexivity.
  - destruct (isHighSurrogate c) eqn:Hh.
    + destruct rest as [|d rest']; [reflexivity|].
      destruct (isLowSurrogate d) eqn:Hl; [|reflexivity].
      rewrite IH by (simpl; lia). rewrite !option_map_map.
      apply option_map_ext. intros l. cbn [flat_map].
      unfold encodeCodePoint at 2.
      assert (Hn : uriUnreserved (65536 + (c - 55296) * 1024 + (d - 56320))
                   = false).
      { destruct (uriUnreserved (65536 + (c - 55296) * 1024 + (d - 56320)))
          eqn:E; [|reflexivity].
        apply unreserved_ascii in E. lia. }
      rewrite Hn. reflexivity.
    + destruct (isLowSurrogate c); [reflexivity|].
      rewrite IH by (simpl; lia). rewrite !option_map_map.
      apply option_map_ext. intros l. cbn [flat_map].
      unfold encodeCodePoint at 2. rewrite Hu. reflexivity.
Qed.

Lemma hexDigit_upper_range (n : N) :
  n < 16 -> 48 <= hexDigit true n <= 70.
Proof. intros H. unfold hexDigit. cmp_cases. Qed.

Lemma unescape_pct (b : N) (t : jsstring) :
  b < 256 -> unescape (pctOctet b ++ t) = b :: unescape t.
Proof.
  intros H. unfold pctOctet. cbn [app unescape].
  change (37 =? 37) with true. cbv iota.
  pose proof (hexDigit_upper_range (b / 16) ltac:(lia)) as Hr.
  destruct (N.eqb_spec (hexDigit true (b / 16)) 117); [lia|].
  rewrite hexByte_digits by exact H. reflexivity.
Qed.

Lemma unescape_plain (c : N) (t : jsstring) :
  c <> 37 -> unescape (c :: t) = c :: unescape t.
Proof.
  intros H. cbn [unescape]. destruct (N.eqb_spec c 37); [contradiction|].
  reflexivity.
Qed.

Lemma unescape_pct_all (bs : list N) (t : jsstring) :
  forallb (fun b => b <? 256) bs = true ->
  unescape (flat_map pctOctet bs ++ t) = bs ++ unescape t.
Proof.
  induction bs as [|b bs IH]; intros H; [reflexivity|].
  simpl in H. apply andb_prop in H. destruct H as [Hb H].
  apply N.ltb_lt in Hb.
  cbn [flat_map]. rewrite <- app_assoc, unescape_pct by exact Hb.
  rewrite IH by exact H. reflexivity.
Qed.

Lemma utf8Octets_bound (cp : N) :
  cp < 1114112 -> forallb (fun b => b <? 256) (utf8Octets cp) = true.
Proof.
  intros H. unfold utf8Octets.
  destruct (N.ltb_spec cp 128); [|destruct (N.ltb_spec cp 2048);
    [|destruct (N.ltb_spec cp 65536)]];
    cbn [forallb]; rewrite ?andb_true_iff, ?N.ltb_lt; repeat split; lia.
Qed.

Lemma isScalar_bound (cp : N) : isScalar cp = true -> cp < 1114112.
Proof.
  unfold isScalar. rewrite andb_true_iff, N.ltb_lt. tauto.
Qed.

(** [unescape] turns the percent triples back into the UTF-8 octets. *)
Lemma unescape_encodeCodePoints (cps : list N) :
  forallb isScalar cps = true ->
  unescape (flat_map encodeCodePoint cps) = flat_map utf8Octets cps /\
  forallb (fun b => b <? 256) (flat_map utf8Octets cps) = true.
Proof.
  induction cps as [|cp cps IH]; intros H; [split; reflexivity|].
  simpl in H. apply andb_prop in H. destruct H as [Hcp H].
  destruct (IH H) as [IH1 IH2]. apply isScalar_bound in Hcp.
  cbn [flat_map]. rewrite forallb_app, (utf8Octets_bound cp Hcp), IH2.
  split; [|reflexivity].
  destruct (uriUnreserved cp) eqn:Hu.
  - pose proof (unreserved_ascii cp Hu) as Ha.
    assert (E : encodeCodePoint cp = [cp])
      by (unfold encodeCodePoint; rewrite Hu; reflexivity).
    rewrite E. cbn [app]. rewrite unescape_plain, IH1.
    + unfold utf8Octets. destruct (N.ltb_spec cp 128); [reflexivity | lia].
    + intros ->. discriminate.
  - assert (E : encodeCodePoint cp = flat_map pctOctet (utf8Octets cp))
      by (unfold encodeCodePoint; rewrite Hu; reflexivity).
    rewrite E.
    rewrite unescape_pct_all by (apply utf8Octets_bound; exact Hcp).
    rewrite IH1. reflexivity.
Qed.

Lemma escapeSafe_ascii (b : N) : escapeSafe b = true -> b < 128 /\ b <> 37.
Proof.
  unfold escapeSafe, isAlpha, isUpper, isLower, isDigit. intros H.
  rewrite ?orb_true_iff, ?andb_true_iff, ?N.eqb_eq, ?N.leb_le in H. lia.
Qed.

(** [escape] followed by the reading of the percent triples gives one
    token per octet. *)
Lemma pctTokens_escape (bs : list N) :
  forallb (fun b => b <? 256) bs = true ->
  pctTokens (escape bs) = Some (map tokenOfOctet bs).
Proof.
  induction bs as [|b bs IH]; intros H; [reflexivity|].
  simpl in H. apply andb_prop in H. destruct H as [Hb H].
  apply N.ltb_lt in Hb. specialize (IH H).
  unfold escape in *. cbn [flat_map map].
  unfold tokenOfOctet. destruct (escapeSafe b) eqn:Hs.
  - destruct (escapeSafe_ascii b Hs) as [_ Hn].
    assert (E : escapeUnit b = [b])
      by (unfold escapeUnit; rewrite Hs; reflexivity).
    rewrite E.
    cbn [app pctTokens]. destruct (N.eqb_spec b 37); [contradiction|].
    rewrite IH. reflexivity.
  - assert (E : escapeUnit b = pctOctet b).
    { unfold escapeUnit. rewrite Hs.
      destruct (N.ltb_spec b 256); [reflexivity | lia]. }
    rewrite E.
    unfold pctOctet. cbn [app pctTokens]. change (37 =? 37) with true.
    cbv iota. rewrite hexByte_digits by exact Hb. rewrite IH. reflexivity.
Qed.

Lemma escapeSafe_high (b : N) : 128 <= b -> escapeSafe b = false.
Proof.
  intros H. destruct (escapeSafe b) eqn:E; [|reflexivity].
  apply escapeSafe_ascii in E. lia.
Qed.

Lemma tokenOfOctet_high (b : N) : 128 <= b -> tokenOfOctet b = Oct b.
Proof.
  intros H. unfold tokenOfOctet. rewrite escapeSafe_high by exact H.
  reflexivity.
Qed.

Lemma option_map_app_one {A} (x : A) (o : option (list A)) :
  option_map (List.app [x]) o = option_map (cons x) o.
Proof. destruct o; reflexivity. Qed.

(** The second pass of [decodeURIComponent] reads the octets of a scalar
    value back as that value. *)
Lemma decodeTokens_octets (cp : N) (ts : list uriToken) :
  isScalar cp = true ->
  decodeTokens (map tokenOfOctet (utf8Octets cp) ++ ts)
  = option_map (List.app (utf16Units cp)) (decodeTokens ts).
Proof.
  intros Hs. unfold isScalar in Hs. apply andb_prop in Hs.
  destruct Hs as [Hmax Hsur]. apply N.ltb_lt in Hmax.
  unfold utf8Octets.
  destruct (N.ltb_spec cp 128) as [H1|H1].
  { assert (Hu : utf16Units cp = [cp]).
    { unfold utf16Units. destruct (N.ltb_spec cp 65536); [reflexivity|lia]. }
    rewrite Hu, option_map_app_one. cbn [map app].
    unfold tokenOfOctet. destruct (escapeSafe cp); cbn [decodeTokens].
    - reflexivity.
    - destruct (N.ltb_spec cp 128); [reflexivity | lia]. }
  destruct (N.ltb_spec cp 2048) as [H2|H2].
  { cbn [map app]. rewrite !tokenOfOctet_high by lia.
    cbn [decodeTokens]. cbv zeta. unfold isContinuation.
    replace ((192 + cp / 64 - 192) * 64 + (128 + cp mod 64 - 128)) with cp
      by lia.
    cmp_cases. reflexivity. }
  destruct (N.ltb_spec cp 65536) as [H3|H3].
  { cbn [map app]. rewrite !tokenOfOctet_high by lia.
    cbn [decodeTokens]. cbv zeta. unfold isContinuation.
    replace ((224 + cp / 4096 - 224) * 4096
             + (128 + (cp / 64) mod 64 - 128) * 64
             + (128 + cp mod 64 - 128)) with cp by lia.
    rewrite Hsur.
    cmp_cases. reflexivity. }
  cbn [map app]. rewrite !tokenOfOctet_high by lia.
  cbn [decodeTokens]. cbv zeta. unfold isContinuation.
  replace ((240 + cp / 262144 - 240) * 262144
           + (128 + (cp / 4096) mod 64 - 128) * 4096
           + (128 + (cp / 64) mod 64 - 128) * 64
           + (128 + cp mod 64 - 128)) with cp by lia.
  cmp_cases. reflexivity.
Qed.

Lemma decodeTokens_all (cps : list N) :
  forallb isScalar cps = true ->
  decodeTokens (map tokenOfOctet (flat_map utf8Octets cps))
  = Some (flat_map utf16Units cps).
Proof.
  induction cps as [|cp cps IH]; intros H; [reflexivity|].
  simpl in H. apply andb_prop in H. destruct H as [Hcp H].
  cbn [flat_map]. rewrite map_app, decodeTokens_octets by exact Hcp.
  rewrite IH by exact H. reflexivity.
Qed.

Lemma pair_scalar (c d : N) :
  isHighSurrogate c = true -> isLowSurrogate d = true ->
  isScalar (65536 + (c - 55296) * 1024 + (d - 56320)) = true /\
  utf16Units (65536 + (c - 55296) * 1024 + (d - 56320)) = [c; d].
Proof.
  unfold isHighSurrogate, isLowSurrogate.
  rewrite !andb_true_iff, !N.leb_le. intros [H1 H2] [H3 H4].
  split.
  - unfold isScalar.
    destruct (N.ltb_spec (65536 + (c - 55296) * 1024 + (d - 56320)) 1114112);
      [|lia].
    destruct (N.leb_spec 55296 (65536 + (c - 55296) * 1024 + (d - 56320)));
      [|lia].
    destruct (N.leb_spec (65536 + (c - 55296) * 1024 + (d - 56320)) 57343);
      [lia|].
    reflexivity.
  - unfold utf16Units.
    destruct (N.ltb_spec (65536 + (c - 55296) * 1024 + (d - 56320)) 65536);
      [lia|].
    f_equal; [lia|]. f_equal. lia.
Qed.

Lemma bmp_scalar (c : N) :
  isCodeUnit c = true ->
  isHighSurrogate c = false -> isLowSurrogate c = false ->
  isScalar c = true /\ utf16Units c = [c].
Proof.
  unfold isCodeUnit, isHighSurrogate, isLowSurrogate, isScalar, utf16Units.
  rewrite N.ltb_lt, !andb_false_iff, !N.leb_gt. intros H1 H2 H3.
  destruct (N.ltb_spec c 65536); [|lia].
  destruct (N.ltb_spec c 1114112); [|lia].
  destruct (N.leb_spec 55296 c); [|split; reflexivity].
  destruct (N.leb_spec c 57343); [lia | split; reflexivity].
Qed.

(** The code points of a string of code units are scalar values, and
    writing them in UTF-16 gives the string back. *)
Lemma codePoints_spec :
  forall s cps,
    forallb isCodeUnit s = true ->
    codePoints s = Some cps ->
    forallb isScalar cps = true /\ flat_map utf16Units cps = s.
Proof.
  induction s as [s IH] using strong_list_ind. intros cps Hs Hc.
  destruct s as [|c rest].
  { cbn in Hc. assert (cps = []) by congruence. subst cps.
    split; reflexivity. }
  cbn [forallb] in Hs. apply andb_prop in Hs. destruct Hs as [Hcu Hs].
  cbn [codePoints] in Hc.
  destruct (isHighSurrogate c) eqn:Hh.
  - destruct rest as [|d rest']; [discriminate|].
    destruct (isLowSurrogate d) eqn:Hl; [|discriminate].
    cbn [forallb] in Hs. apply andb_prop in Hs. destruct Hs as [_ Hs].
    destruct (codePoints rest') as [cps'|] eqn:E; [|discriminate].
    assert (IHr : forallb isScalar cps' = true
                  /\ flat_map utf16Units cps' = rest').
    { apply IH; [simpl; lia | exact Hs | exact E]. }
    clear IH. destruct IHr as [IH1 IH2].
    destruct (pair_scalar c d Hh Hl) as [P1 P2].
    set (cp := 65536 + (c - 55296) * 1024 + (d - 56320)) in *.
    cbn [option_map] in Hc. assert (cps = cp :: cps') by congruence.
    subst cps. cbn [forallb flat_map].
    rewrite P1, P2, IH1, IH2. split; reflexivity.
  - destruct (isLowSurrogate c) eqn:Hl; [discriminate|].
    destruct (codePoints rest) as [cps'|] eqn:E; [|discriminate].
    assert (IHr : forallb isScalar cps' = true
                  /\ flat_map utf16Units cps' = rest).
    { apply IH; [simpl; lia | exact Hs | exact E]. }
    clear IH. destruct IHr as [IH1 IH2].
    destruct (bmp_scalar c Hcu Hh Hl) as [P1 P2].
    cbn [option_map] in Hc. assert (cps = c :: cps') by congruence.
    subst cps. cbn [forallb flat_map].
    rewrite P1, P2, IH1, IH2. split; reflexivity.
Qed.

(** The four URI functions, composed as the source composes them, take a
    well-formed string to its UTF-8 octets and back. *)
Lemma uri_roundtrip (s : jsstring) (cps : list N) :
  forallb isCodeUnit s = true ->
  codePoints s = Some cps ->
  exists e,
    encodeURIComponent s = Some e /\
    forallb (fun b => b <? 256) (unescape e) = true /\
    decodeURIComponent (escape (unescape e)) = Some s.
Proof.
  intros Hs Hc. destruct (codePoints_spec s cps Hs Hc) as [Hsc Hu].
  exists (flat_map encodeCodePoint cps).
  rewrite encodeURIComponent_codePoints, Hc.
  destruct (unescape_encodeCodePoints cps Hsc) as [E1 E2].
  split; [reflexivity|]. rewrite E1. split; [exact E2|].
  unfold decodeURIComponent. rewrite pctTokens_escape by exact E2.
  rewrite decodeTokens_all by exact Hsc. rewrite Hu. reflexivity.
Qed.

(** *** What [JSON.stringify] writes has no unpaired surrogate *)

Lemma codePoints_plain (c : N) (t : jsstring) :
  c < 55296 -> codePoints (c :: t) = option_map (cons c) (codePoints t).
Proof.
  intros H. cbn [codePoints]. unfold isHighSurrogate, isLowSurrogate.
  destruct (N.leb_spec 55296 c); [lia|].
  destruct (N.leb_spec 56320 c); [lia | reflexivity].
Qed.

Lemma codePoints_app :
  forall a b,
    codePoints a <> None -> codePoints b <> None ->
    codePoints (a ++ b) <> None.
Proof.
  induction a as [a IH] using strong_list_ind. intros b Ha Hb.
  destruct a as [|c rest]; [exact Hb|].
  cbn [app codePoints] in *.
  destruct (isHighSurrogate c).
  - destruct rest as [|d rest']; [contradiction|]. cbn [app].
    destruct (isLowSurrogate d); [|contradiction].
    assert (H : codePoints (rest' ++ b) <> None).
    { apply IH; [simpl; lia | | exact Hb].
      destruct (codePoints rest'); [discriminate | contradiction]. }
    destruct (codePoints (rest' ++ b)); [discriminate | contradiction].
  - destruct (isLowSurrogate c); [contradiction|].
    assert (H : codePoints (rest ++ b) <> None).
    { apply IH; [simpl; lia | | exact Hb].
      destruct (codePoints rest); [discriminate | contradiction]. }
    destruct (codePoints (rest ++ b)); [discriminate | contradiction].
Qed.

Lemma hexDigit_small (up : bool) (n : N) : n < 16 -> hexDigit up n < 128.
Proof. intros H. unfold hexDigit. destruct up; cmp_cases. Qed.

Lemma codePoints_unicodeEscape (c : N) :
  c < 65536 -> codePoints (unicodeEscape c) <> None.
Proof.
  intros H. unfold unicodeEscape.
  pose proof (hexDigit_small false (c / 4096) ltac:(lia)).
  pose proof (hexDigit_small false ((c / 256) mod 16) ltac:(lia)).
  pose proof (hexDigit_small false ((c / 16) mod 16) ltac:(lia)).
  pose proof (hexDigit_small false (c mod 16) ltac:(lia)).
  rewrite !codePoints_plain by lia. discriminate.
Qed.

Lemma isCodeUnit_unicodeEscape (c : N) :
  c < 65536 -> forallb isCodeUnit (unicodeEscape c) = true.
Proof.
  intros H. unfold unicodeEscape, isCodeUnit.
  pose proof (hexDigit_small false (c / 4096) ltac:(lia)).
  pose proof (hexDigit_small false ((c / 256) mod 16) ltac:(lia)).
  pose proof (hexDigit_small false ((c / 16) mod 16) ltac:(lia)).
  pose proof (hexDigit_small false (c mod 16) ltac:(lia)).
  cbn [forallb]. rewrite ?andb_true_iff, ?N.ltb_lt. repeat split; lia.
Qed.

Lemma codePoints_cons_ok (c : N) (t : jsstring) :
  c < 55296 -> codePoints t <> None -> codePoints (c :: t) <> None.
Proof.
  intros H Ht. rewrite codePoints_plain by exact H.
  destruct (codePoints t); [discriminate | contradiction].
Qed.

(** The text between the quotes is well formed and made of code units. *)
Lemma quoteBody_wellFormed :
  forall s,
    forallb isCodeUnit s = true ->
    codePoints (quoteBody s) <> None /\
    forallb isCodeUnit (quoteBody s) = true.
Proof.
  induction s as [s IH] using strong_list_ind. intros Hs.
  destruct s as [|c rest]; [split; [discriminate | reflexivity]|].
  cbn [forallb] in Hs. apply andb_prop in Hs. destruct Hs as [Hc Hs].
  destruct (IH rest ltac:(simpl; lia) Hs) as [IH1 IH2].
  assert (Hesc : codePoints (unicodeEscape c ++ quoteBody rest) <> None /\
                 forallb isCodeUnit (unicodeEscape c ++ quoteBody rest) = true).
  { unfold isCodeUnit in Hc. apply N.ltb_lt in Hc. split.
    - apply codePoints_app; [apply codePoints_unicodeEscape; exact Hc | exact IH1].
    - rewrite forallb_app, isCodeUnit_unicodeEscape by exact Hc. exact IH2. }
  assert (Hshort : forall e, e < 128 ->
            codePoints (92 :: e :: quoteBody rest) <> None /\
            forallb isCodeUnit (92 :: e :: quoteBody rest) = true).
  { intros e He. split.
    - apply codePoints_cons_ok; [lia|]. apply codePoints_cons_ok; [lia|].
      exact IH1.
    - cbn [forallb]. rewrite IH2. unfold isCodeUnit.
      destruct (N.ltb_spec e 65536); [reflexivity | lia]. }
  cbn [quoteBody].
  destruct (c =? 8); [apply Hshort; lia|].
  destruct (c =? 9); [apply Hshort; lia|].
  destruct (c =? 10); [apply Hshort; lia|].
  destruct (c =? 12); [apply Hshort; lia|].
  destruct (c =? 13); [apply Hshort; lia|].
  destruct (c =? 34); [apply Hshort; lia|].
  destruct (c =? 92); [apply Hshort; lia|].
  destruct (c <? 32); [exact Hesc|].
  destruct (isHighSurrogate c) eqn:Hh.
  - destruct rest as [|d rest']; [exact Hesc|].
    destruct (isLowSurrogate d) eqn:Hl; [|exact Hesc].
    cbn [forallb] in Hs. apply andb_prop in Hs. destruct Hs as [Hd Hs].
    destruct (IH rest' ltac:(simpl; lia) Hs) as [J1 J2].
    split.
    + cbn [codePoints]. rewrite Hh, Hl.
      destruct (codePoints (quoteBody rest')); [discriminate | contradiction].
    + cbn [forallb]. rewrite Hc, Hd, J2. reflexivity.
  - destruct (isLowSurrogate c) eqn:Hl; [exact Hesc|].
    split.
    + cbn [codePoints]. rewrite Hh, Hl.
      destruct (codePoints (quoteBody rest)); [discriminate | contradiction].
    + cbn [forallb]. rewrite Hc, IH2. reflexivity.
Qed.

Lemma quoteJSONString_wellFormed (s : jsstring) :
  forallb isCodeUnit s = true ->
  codePoints (quoteJSONString s) <> None /\
  forallb isCodeUnit (quoteJSONString s) = true.
Proof.
  intros H. destruct (quoteBody_wellFormed s H) as [H1 H2].
  unfold quoteJSONString. split.
  - apply codePoints_cons_ok; [lia|].
    apply codePoints_app; [exact H1 | discriminate].
  - cbn [forallb]. rewrite forallb_app, H2. reflexivity.
Qed.

Lemma stringifyConfig_wellFormed (cfg : Settings) :
  wellFormedSettings cfg = true ->
  codePoints (stringifyConfig cfg) <> None /\
  forallb isCodeUnit (stringifyConfig cfg) = true.
Proof.
  unfold wellFormedSettings. rewrite !andb_true_iff. intros [[Hb Hm] Hk].
  destruct (quoteJSONString_wellFormed (baseUrl cfg) Hb) as [B1 B2].
  destruct (quoteJSONString_wellFormed (model cfg) Hm) as [M1 M2].
  destruct (quoteJSONString_wellFormed (apiKey cfg) Hk) as [K1 K2].
  destruct (quoteJSONString_wellFormed (js "baseUrl") eq_refl) as [X1 X2].
  destruct (quoteJSONString_wellFormed (js "model") eq_refl) as [Y1 Y2].
  destruct (quoteJSONString_wellFormed (js "apiKey") eq_refl) as [Z1 Z2].
  unfold stringifyConfig. split.
  - repeat (apply codePoints_app; [first [assumption | discriminate]|]).
    discriminate.
  - rewrite !forallb_app, B2, M2, K2, X2, Y2, Z2. reflexivity.
Qed.

(** ** The link codec: base64 *)

Lemma list_ind3 {A} (P : list A -> Prop) :
  P [] -> (forall a, P [a]) -> (forall a b, P [a; b]) ->
  (forall a b c l, P l -> P (a :: b :: c :: l)) ->
  forall l, P l.
Proof.
  intros H0 H1 H2 H3 l. induction l as [l IH] using strong_list_ind.
  destruct l as [|a [|b [|c l]]]; auto.
  apply H3, IH. simpl. lia.
Qed.

Lemma b64Value_b64Char (v : N) : v < 64 -> b64Value (b64Char v) = Some v.
Proof.
  intros H. unfold b64Char.
  destruct (N.ltb_spec v 26); [|destruct (N.ltb_spec v 52);
    [|destruct (N.ltb_spec v 62); [|destruct (N.eqb_spec v 62)]]];
    unfold b64Value, isUpper, isLower, isDigit;
    cmp_cases; f_equal; lia.
Qed.

(** The characters of the alphabet: they are not the padding sign, not
    white space, and the URL-safe substitution can be undone on them. *)
Lemma b64Char_facts (v : N) :
  v < 64 ->
  let c := b64Char v in
  let u := if (if c =? 43 then 45 else c) =? 47 then 95
           else (if c =? 43 then 45 else c) in
  (u =? 61) = false /\
  isBase64UrlChar u = true /\
  (if (if u =? 45 then 43 else u) =? 95 then 47
   else (if u =? 45 then 43 else u)) = c /\
  isAsciiWhitespace c = false /\ (c =? 61) = false.
Proof.
  intros H. cbv zeta.
  assert (Hgen : forall c,
            c <> 43 -> c <> 47 -> c <> 45 -> c <> 95 -> c <> 61 ->
            isBase64UrlChar c = true -> isAsciiWhitespace c = false ->
            ((if (if c =? 43 then 45 else c) =? 47 then 95
              else (if c =? 43 then 45 else c)) =? 61) = false /\
            isBase64UrlChar
              (if (if c =? 43 then 45 else c) =? 47 then 95
               else (if c =? 43 then 45 else c)) = true /\
            (if (if (if (if c =? 43 then 45 else c) =? 47 then 95
                     else (if c =? 43 then 45 else c)) =? 45 then 43
                 else (if (if c =? 43 then 45 else c) =? 47 then 95
                       else (if c =? 43 then 45 else c))) =? 95 then 47
             else (if (if (if c =? 43 then 45 else c) =? 47 then 95
                       else (if c =? 43 then 45 else c)) =? 45 then 43
                   else (if (if c =? 43 then 45 else c) =? 47 then 95
                         else (if c =? 43 then 45 else c)))) = c /\
            isAsciiWhitespace c = false /\ (c =? 61) = false).
  { intros c H1 H2 H3 H4 H5 H6 H7.
    destruct (N.eqb_spec c 43); [contradiction|].
    destruct (N.eqb_spec c 47); [contradiction|].
    destruct (N.eqb_spec c 45); [contradiction|].
    destruct (N.eqb_spec c 95); [contradiction|].
    destruct (N.eqb_spec c 61); [contradiction|]. auto. }
  unfold b64Char.
  destruct (N.ltb_spec v 26); [|destruct (N.ltb_spec v 52);
    [|destruct (N.ltb_spec v 62); [|destruct (N.eqb_spec v 62)]]].
  - apply Hgen; try lia;
      unfold isBase64UrlChar, isAsciiWhitespace, isAlpha, isUpper, isLower,
        isDigit; cmp_cases; reflexivity.
  - apply Hgen; try lia;
      unfold isBase64UrlChar, isAsciiWhitespace, isAlpha, isUpper, isLower,
        isDigit; cmp_cases; reflexivity.
  - apply Hgen; try lia;
      unfold isBase64UrlChar, isAsciiWhitespace, isAlpha, isUpper, isLower,
        isDigit; cmp_cases; reflexivity.
  - repeat split; reflexivity.
  - repeat split; reflexivity.
Qed.

Lemma btoaGroups_split (bs : list N) :
  btoaGroups bs = b64Body bs ++ repeat 61 (b64Pad bs).
Proof.
  induction bs as [|a|a b|a b c l IH] using list_ind3; try reflexivity.
  cbn [btoaGroups b64Body b64Pad app]. rewrite IH. reflexivity.
Qed.


Lemma b64Body_AllB64 (bs : list N) :
  forallb (fun b => b <? 256) bs = true -> AllB64 (b64Body bs).
Proof.
  induction bs as [|a|a b|a b c l IH] using list_ind3; intros H;
    cbn [forallb] in H; rewrite ?andb_true_iff, ?N.ltb_lt in H;
    cbn [b64Body].
  - constructor.
  - repeat constructor; lia.
  - repeat constructor; lia.
  - destruct H as [Ha [Hb [Hc Hl]]].
    repeat (constructor; [lia|]). apply IH. exact Hl.
Qed.

Lemma b64Body_length (bs : list N) :
  ((length (b64Body bs) mod 4 = 0 /\ b64Pad bs = 0)
   \/ (length (b64Body bs) mod 4 = 2 /\ b64Pad bs = 2)
   \/ (length (b64Body bs) mod 4 = 3 /\ b64Pad bs = 1))%nat.
Proof.
  induction bs as [|a|a b|a b c l IH] using list_ind3.
  - left. split; reflexivity.
  - right. left. split; reflexivity.
  - right. right. split; reflexivity.
  - cbn [b64Body b64Pad length].
    replace (S (S (S (S (length (b64Body l))))))
      with (length (b64Body l) + 1 * 4)%nat by lia.
    rewrite Nat.Div0.mod_add. exact IH.
Qed.

(** Values of the alphabet characters, read back into the octets. *)
Lemma atobGroups_b64Body (bs : list N) :
  forallb (fun b => b <? 256) bs = true ->
  exists vs,
    mapOption b64Value (b64Body bs) = Some vs /\ atobGroups vs = bs.
Proof.
  induction bs as [|a|a b|a b c l IH] using list_ind3; intros H;
    cbn [forallb] in H; rewrite ?andb_true_iff, ?N.ltb_lt in H;
    cbn [b64Body mapOption].
  - exists []. split; reflexivity.
  - destruct H as [Ha _].
    rewrite !b64Value_b64Char by lia.
    eexists. split; [reflexivity|]. cbn [atobGroups]. f_equal. lia.
  - destruct H as [Ha [Hb _]].
    rewrite !b64Value_b64Char by lia.
    eexists. split; [reflexivity|]. cbn [atobGroups].
    f_equal; [lia|]. f_equal. lia.
  - destruct H as [Ha [Hb [Hc Hl]]].
    destruct (IH Hl) as [vs [E1 E2]].
    rewrite !b64Value_b64Char by lia. rewrite E1.
    eexists. split; [reflexivity|]. cbn [atobGroups]. rewrite E2.
    f_equal; [lia|]. f_equal; [lia|]. f_equal. lia.
Qed.

Lemma stripPadding_spec (s : jsstring) :
  stripPadding s
  = match rev s with
    | x :: r =>
        if x =? 61 then
          match r with
          | y :: r' => if y =? 61 then rev r' else rev r
          | [] => rev r
          end
        else s
    | [] => s
    end.
Proof.
  unfold stripPadding. destruct (rev s) as [|x r]; [reflexivity|].
  destruct (N.eqb_spec x 61) as [->|Hx].
  - destruct r as [|y r']; [reflexivity|].
    destruct (N.eqb_spec y 61) as [->|Hy]; [reflexivity|].
    destruct y as [|p]; [reflexivity|].
    do 6 (destruct p as [p|p|]; try reflexivity). contradiction.
  - destruct x as [|p]; [reflexivity|].
    do 6 (destruct p as [p|p|]; try reflexivity). contradiction.
Qed.

Lemma replaceAll_app (a b : N) (s t : jsstring) :
  replaceAll a b (s ++ t) = replaceAll a b s ++ replaceAll a b t.
Proof. apply map_app. Qed.

Lemma replaceAll_repeat (a b x : N) (n : nat) :
  x <> a -> replaceAll a b (repeat x n) = repeat x n.
Proof.
  intros H. induction n as [|n IH]; [reflexivity|].
  cbn [repeat replaceAll map]. fold (replaceAll a b (repeat x n)).
  rewrite IH. destruct (N.eqb_spec x a); [contradiction | reflexivity].
Qed.


(** The URL-safe text of alphabet characters: no padding sign, only
    URL-safe characters, and the substitution is undone by its inverse. *)
Lemma AllB64_urlSafe (body : jsstring) :
  AllB64 body ->
  forallb notEquals (replaceAll 47 95 (replaceAll 43 45 body)) = true /\
  forallb isBase64UrlChar (replaceAll 47 95 (replaceAll 43 45 body)) = true /\
  replaceAll 95 47 (replaceAll 45 43 (replaceAll 47 95 (replaceAll 43 45 body)))
  = body /\
  filter (fun c => negb (isAsciiWhitespace c)) body = body /\
  forallb notEquals body = true.
Proof.
  induction 1 as [|v s Hv Hs IH].
  - repeat split.
  - destruct IH as [I1 [I2 [I3 [I4 I5]]]].
    destruct (b64Char_facts v Hv) as [F1 [F2 [F3 [F4 F5]]]].
    unfold replaceAll in *. cbn [map forallb filter].
    rewrite I1, I2, I3, I4, I5, F2, F3, F4.
    unfold notEquals. rewrite (N.eqb_sym 61), F1, (N.eqb_sym 61), F5.
    repeat split.
Qed.

Lemma rev_repeat {A} (x : A) (n : nat) : rev (repeat x n) = repeat x n.
Proof.
  induction n as [|n IH]; [reflexivity|].
  cbn [repeat rev]. rewrite IH. symmetry. apply repeat_cons.
Qed.

Lemma notEquals_head (l : jsstring) :
  forallb notEquals l = true ->
  match rev l with x :: _ => (61 =? x) = false | [] => True end.
Proof.
  intros H. rewrite <- forallb_rev in H. destruct (rev l) as [|x r];
    [exact I|].
  cbn [forallb] in H. apply andb_prop in H. destruct H as [H _].
  unfold notEquals in H. destruct (61 =? x); [discriminate | reflexivity].
Qed.

Lemma stripTrailingEquals_padded (l : jsstring) (n : nat) :
  forallb notEquals l = true ->
  stripTrailingEquals (l ++ repeat 61 n) = l.
Proof.
  intros H. unfold stripTrailingEquals.
  rewrite rev_app_distr, rev_repeat.
  destruct (takeWhile_app_stop (N.eqb 61) (repeat 61 n) (rev l)) as [_ E].
  - clear. induction n; [reflexivity | exact IHn].
  - apply notEquals_head. exact H.
  - rewrite E. apply rev_involutive.
Qed.

Lemma stripPadding_padded (l : jsstring) (n : nat) :
  forallb notEquals l = true -> (n <= 2)%nat ->
  stripPadding (l ++ repeat 61 n) = l.
Proof.
  intros H Hn. rewrite stripPadding_spec, rev_app_distr, rev_repeat.
  pose proof (notEquals_head l H) as Hh.
  destruct n as [|[|[|n]]]; [| | |lia]; cbn [repeat app].
  - rewrite app_nil_r. destruct (rev l) as [|x r]; [reflexivity|].
    rewrite N.eqb_sym, Hh. reflexivity.
  - change (61 =? 61) with true. cbv iota.
    destruct (rev l) as [|x r] eqn:E.
    + apply (f_equal (@rev N)) in E. rewrite rev_involutive in E. exact (eq_sym E).
    + rewrite N.eqb_sym, Hh, <- E. apply rev_involutive.
  - change (61 =? 61) with true. cbv iota. apply rev_involutive.
Qed.

(** [atob] undoes [btoa]. *)
Lemma atob_btoaGroups (bs : list N) :
  forallb (fun b => b <? 256) bs = true -> atob (btoaGroups bs) = Some bs.
Proof.
  intros H. pose proof (b64Body_AllB64 bs H) as Hall.
  destruct (AllB64_urlSafe _ Hall) as [_ [_ [_ [Hf Hne]]]].
  destruct (atobGroups_b64Body bs H) as [vs [E1 E2]].
  unfold atob. rewrite btoaGroups_split, filter_app, Hf.
  assert (Hpadf : filter (fun c => negb (isAsciiWhitespace c))
                    (repeat 61 (b64Pad bs)) = repeat 61 (b64Pad bs)).
  { induction (b64Pad bs) as [|n IH]; [reflexivity|].
    cbn [repeat filter]. change (isAsciiWhitespace 61) with false.
    cbn [negb]. rewrite IH. reflexivity. }
  rewrite Hpadf, length_app, repeat_length.
  assert (Hlen : ((length (b64Body bs) + b64Pad bs) mod 4 = 0)%nat).
  { rewrite <- Nat.Div0.add_mod_idemp_l.
    destruct (b64Body_length bs) as [[Hm Hp]|[[Hm Hp]|[Hm Hp]]];
      rewrite Hm, Hp; reflexivity. }
  assert (Hpad : (b64Pad bs <= 2)%nat).
  { destruct (b64Body_length bs) as [[_ Hp]|[[_ Hp]|[_ Hp]]]; lia. }
  assert (Hmod : (length (b64Body bs) mod 4 =? 1)%nat = false).
  { destruct (b64Body_length bs) as [[Hm _]|[[Hm _]|[Hm _]]];
      rewrite Hm; reflexivity. }
  rewrite Hlen. change (0 =? 0)%nat with true. cbv iota.
  rewrite stripPadding_padded by assumption.
  rewrite Hmod, E1. cbn [option_map]. rewrite E2. reflexivity.
Qed.

(** ** The link codec: encode, then decode *)

Lemma takeWhile_all_id {A} (p : A -> bool) (l : list A) :
  forallb p l = true -> takeWhile p l = l /\ dropWhile p l = [].
Proof.
  intros H. destruct (takeWhile_app_stop p l [] H I) as [E1 E2].
  rewrite app_nil_r in E1, E2. auto.
Qed.

(** [toBase64Url] of a well-formed string: the URL-safe base64 text of its
    UTF-8 octets, without padding. *)
Lemma toBase64Url_wellFormed (str : jsstring) :
  forallb isCodeUnit str = true -> codePoints str <> None ->
  exists bytes,
    forallb (fun b => b <? 256) bytes = true /\
    decodeURIComponent (escape bytes) = Some str /\
    toBase64Url str = replaceAll 47 95 (replaceAll 43 45 (b64Body bytes)).
Proof.
  intros Hs Hc. destruct (codePoints str) as [cps|] eqn:E; [|contradiction].
  destruct (uri_roundtrip str cps Hs E) as [e [He [Hb Hd]]].
  exists (unescape e). split; [exact Hb|]. split; [exact Hd|].
  unfold toBase64Url, btoa. rewrite He, Hb, btoaGroups_split.
  rewrite !replaceAll_app, !replaceAll_repeat by discriminate.
  destruct (AllB64_urlSafe _ (b64Body_AllB64 _ Hb)) as [H1 _].
  apply stripTrailingEquals_padded. exact H1.
Qed.

(** Decoding the URL-safe text of some octets: the padding is restored and
    [atob] gives the octets back. *)
Lemma fromBase64Url_b64Body (bytes : list N) :
  forallb (fun b => b <? 256) bytes = true ->
  fromBase64Url (replaceAll 47 95 (replaceAll 43 45 (b64Body bytes)))
  = decodeURIComponent (escape bytes).
Proof.
  intros Hb. unfold fromBase64Url.
  destruct (AllB64_urlSafe _ (b64Body_AllB64 _ Hb)) as [_ [_ [Hback _]]].
  rewrite Hback.
  assert (Hpad : (if (length (b64Body bytes) mod 4 =? 0)%nat
                  then b64Body bytes
                  else b64Body bytes
                       ++ repeat 61 (4 - length (b64Body bytes) mod 4)%nat)
                 = btoaGroups bytes).
  { rewrite btoaGroups_split.
    destruct (b64Body_length bytes) as [[Hm Hp]|[[Hm Hp]|[Hm Hp]]];
      rewrite Hm, Hp; cbn [Nat.eqb Nat.sub repeat];
      [rewrite app_nil_r|idtac|idtac]; reflexivity. }
  rewrite Hpad, atob_btoaGroups by exact Hb. reflexivity.
Qed.

Lemma toBase64Url_urlSafe (str : jsstring) :
  forallb isCodeUnit str = true -> codePoints str <> None ->
  forallb isBase64UrlChar (toBase64Url str) = true.
Proof.
  intros Hs Hc.
  destruct (toBase64Url_wellFormed str Hs Hc) as [bytes [Hb [_ Henc]]].
  rewrite Henc.
  destruct (AllB64_urlSafe _ (b64Body_AllB64 _ Hb)) as [_ [H2 _]]. exact H2.
Qed.

Lemma locationHash_fragment (base frag : jsstring) :
  forallb (fun c => negb (c =? 35)) base = true -> frag <> [] ->
  locationHash (base ++ 35 :: frag) = 35 :: frag.
Proof.
  intros Hb Hf. induction base as [|c base IH].
  - cbn. destruct frag; [contradiction | reflexivity].
  - cbn [forallb] in Hb. apply andb_prop in Hb. destruct Hb as [Hc Hb].
    cbn [app locationHash]. destruct (c =? 35); [discriminate|].
    apply IH. exact Hb.
Qed.

(** The pattern of [parseMagicLinkFromHash] on a fragment that is exactly
    [#cfg=] and a URL-safe token. *)
Lemma exec_cfgRegex (enc : jsstring) :
  enc <> [] -> forallb isBase64UrlChar enc = true ->
  exists st, exec cfgRegex (js "#cfg=" ++ enc) = Some st /\ capture st = enc.
Proof.
  intros Hne Hall. destruct (takeWhile_all_id _ _ Hall) as [Et Ed].
  destruct enc as [|d ds]; [contradiction|].
  eexists. split.
  - unfold exec. apply search_here. unfold cfgRegex.
    rewrite rmatch_Seq. change (js "#cfg=" ++ d :: ds)
      with (35 :: js "cfg=" ++ d :: ds).
    rewrite rmatch_Class. cbv beta. change (35 =? 35) with true.
    cbn [orb]. cbv iota.
    rewrite rmatch_Seq, rmatch_Lit, startsWith_app. cbv beta iota.
    rewrite skipn_app_exact, rmatch_Cap_Plus, Et, Ed. reflexivity.
  - reflexivity.
Qed.

Lemma sanitizeConfig_configObject (cur cfg : Settings) :
  sanitizeConfig cur (configObject cfg) = Some (sanitized cur cfg).
Proof. reflexivity. Qed.

Lemma stringifyConfig_truthy (cfg : Settings) :
  truthy (stringifyConfig cfg) = true.
Proof. reflexivity. Qed.

(** A settings record of code-unit strings, encoded by [buildMagicLink] and
    read back by [parseMagicLinkFromHash] from the fragment of that link,
    comes back sanitized. *)
Lemma link_decode (cur cfg : Settings) (base : jsstring) :
  wellFormedSettings cfg = true ->
  forallb (fun c => negb (c =? 35)) base = true ->
  parseMagicLinkFromHash cur (locationHash (buildMagicLink base cfg))
  = Some (sanitized cur cfg).
Proof.
  intros Hwf Hbase.
  destruct (stringifyConfig_wellFormed cfg Hwf) as [Hc Hu].
  assert (Hdec : fromBase64Url (toBase64Url (stringifyConfig cfg))
                 = Some (stringifyConfig cfg)).
  { destruct (toBase64Url_wellFormed _ Hu Hc) as [bytes [Hb [Hd Henc]]].
    rewrite Henc, fromBase64Url_b64Body by exact Hb. exact Hd. }
  pose proof (toBase64Url_urlSafe _ Hu Hc) as Hsafe.
  assert (Hne : toBase64Url (stringifyConfig cfg) <> []).
  { intros E. rewrite E in Hdec.
    pose proof (stringifyConfig_truthy cfg) as Ht.
    assert (E0 : fromBase64Url [] = Some []) by reflexivity.
    rewrite E0 in Hdec. injection Hdec as Hdec. rewrite <- Hdec in Ht.
    discriminate. }
  unfold buildMagicLink.
  change (js "#cfg=" ++ toBase64Url (stringifyConfig cfg))
    with (35 :: js "cfg=" ++ toBase64Url (stringifyConfig cfg)).
  rewrite locationHash_fragment; [|exact Hbase|discriminate].
  destruct (exec_cfgRegex _ Hne Hsafe) as [st [Hex Hcap]].
  unfold parseMagicLinkFromHash. cbn [truthy negb].
  change (35 :: js "cfg=" ++ toBase64Url (stringifyConfig cfg))
    with (js "#cfg=" ++ toBase64Url (stringifyConfig cfg)).
  rewrite Hex, Hcap, Hdec, stringifyConfig_truthy. cbn [negb].
  rewrite JSON_parse_stringifyConfig. apply sanitizeConfig_configObject.
Qed.

(** ** The link codec: round trips and rejected input *)

Lemma dropWhile_id {A} (p : A -> bool) (l : list A) :
  (forall x t, l = x :: t -> p x = false) -> dropWhile p l = l.
Proof.
  intros H. destruct l as [|x t]; [reflexivity|].
  simpl. rewrite (H x t eq_refl). reflexivity.
Qed.

Lemma trim_trim (s : jsstring) : trim (trim s) = trim s.
Proof.
  destruct (trim_decompose s) as [l [r [_ [_ [_ [Hh Hl]]]]]].
  set (t := trim s) in *. unfold trim, trimStart, trimEnd.
  rewrite (dropWhile_id isSpace t Hh).
  rewrite (dropWhile_id isSpace (rev t) Hl). apply rev_involutive.
Qed.

Lemma nonBlank_trim (s : jsstring) :
  truthy (trim s) = true -> nonBlank (trim s) = true.
Proof. intros H. unfold nonBlank. rewrite trim_trim. exact H. Qed.

Lemma sanitized_fixed (cur cfg : Settings) :
  trim (baseUrl cfg) = baseUrl cfg -> baseUrl cfg <> [] ->
  trim (model cfg) = model cfg -> model cfg <> [] ->
  sanitized cur cfg = cfg.
Proof.
  destruct cfg as [b m k]. cbn [baseUrl model apiKey].
  intros Eb Hb Em Hm. unfold sanitized, nonBlank. cbn [baseUrl model apiKey].
  rewrite Eb, Em. destruct b; [contradiction|]. destruct m; [contradiction|].
  reflexivity.
Qed.

(** C3, as stated, fails.  The record has an empty baseUrl, a model with
    blanks around it and a key with the characters [+], [/] and [=].  The
    key comes back as it was, but the link decodes to the baseUrl in memory
    and to the trimmed model: decode after encode is not the identity. *)
Lemma C3_counterexample_blank_and_untrimmed :
  let cfg := {| baseUrl := []; model := js " gpt-4o ";
                apiKey := js "a+b/c=" |} in
  let decoded :=
    parseMagicLinkFromHash initialSettings
      (locationHash (buildMagicLink (js "https://x.io/app/") cfg)) in
  decoded = Some {| baseUrl := js "https://api.openai.com/v1";
                    model := js "gpt-4o"; apiKey := js "a+b/c=" |} /\
  decoded <> Some cfg.
Proof.
  cbv zeta.
  assert (E : parseMagicLinkFromHash initialSettings
                (locationHash
                   (buildMagicLink (js "https://x.io/app/")
                      {| baseUrl := []; model := js " gpt-4o ";
                         apiKey := js "a+b/c=" |}))
              = Some {| baseUrl := js "https://api.openai.com/v1";
                        model := js "gpt-4o"; apiKey := js "a+b/c=" |})
    by (vm_compute; reflexivity).
  rewrite E. split; [reflexivity | discriminate].
Qed.

(** C3, amended.  Link round trip.  A settings record of code-unit strings
    (every JavaScript string, the characters [+], [/], [=] and the empty
    string included), encoded by [buildMagicLink] and read back by
    [parseMagicLinkFromHash] from the fragment of that link, comes back
    sanitized: baseUrl and model trimmed, or taken from memory when blank;
    apiKey exactly as it was.  When baseUrl and model are non-empty and
    have no white space at their ends, the record comes back as it was,
    whatever the settings in memory. *)
Theorem link_roundtrip (cur cfg : Settings) (base : jsstring) :
  wellFormedSettings cfg = true ->
  forallb (fun c => negb (c =? 35)) base = true ->
  parseMagicLinkFromHash cur (locationHash (buildMagicLink base cfg))
  = Some (sanitized cur cfg) /\
  (trim (baseUrl cfg) = baseUrl cfg -> baseUrl cfg <> [] ->
   trim (model cfg) = model cfg -> model cfg <> [] ->
   parseMagicLinkFromHash cur (locationHash (buildMagicLink base cfg))
   = Some cfg).
Proof.
  intros Hwf Hbase. pose proof (link_decode cur cfg base Hwf Hbase) as H.
  split; [exact H|]. intros Eb Hb Em Hm.
  rewrite H, (sanitized_fixed cur cfg Eb Hb Em Hm). reflexivity.
Qed.

Lemma link_roundtrip_witness :
  parseMagicLinkFromHash initialSettings
    (locationHash
       (buildMagicLink (js "https://example.org/coach")
          {| baseUrl := js "http://localhost:11434/v1";
             model := js "llama3";
             apiKey := [115; 107; 45; 233; 8364; 55357; 56832] |}))
  = Some {| baseUrl := js "http://localhost:11434/v1";
            model := js "llama3";
            apiKey := [115; 107; 45; 233; 8364; 55357; 56832] |}.
Proof.
  apply (link_roundtrip initialSettings
           {| baseUrl := js "http://localhost:11434/v1";
              model := js "llama3";
              apiKey := [115; 107; 45; 233; 8364; 55357; 56832] |}
           (js "https://example.org/coach"));
    try reflexivity; discriminate.
Defined.

(** The codec of the link token.  For every string of code units without an
    unpaired surrogate, [fromBase64Url] gives back what [toBase64Url] was
    given. *)
Theorem base64url_roundtrip (str : jsstring) :
  forallb isCodeUnit str = true -> codePoints str <> None ->
  fromBase64Url (toBase64Url str) = Some str.
Proof.
  intros Hs Hc.
  destruct (toBase64Url_wellFormed str Hs Hc) as [bytes [Hb [Hd Henc]]].
  rewrite Henc, fromBase64Url_b64Body by exact Hb. exact Hd.
Qed.

Lemma base64url_roundtrip_witness :
  fromBase64Url (toBase64Url [123; 34; 233; 8364; 55357; 56832; 34; 125])
  = Some [123; 34; 233; 8364; 55357; 56832; 34; 125].
Proof.
  apply (base64url_roundtrip [123; 34; 233; 8364; 55357; 56832; 34; 125]);
    [reflexivity | discriminate].
Defined.

(** The token of [toBase64Url] is made of letters, digits, [-] and [_] only,
    for every string of code units; it is empty exactly when the string is
    empty or has an unpaired surrogate (then [encodeURIComponent] throws and
    the [catch] returns the empty string). *)
Theorem toBase64Url_token (str : jsstring) :
  forallb isCodeUnit str = true ->
  forallb isBase64UrlChar (toBase64Url str) = true /\
  (toBase64Url str = [] <-> str = [] \/ codePoints str = None).
Proof.
  intros Hs. destruct (codePoints str) as [cps|] eqn:Ec.
  - assert (Hc : codePoints str <> None) by (rewrite Ec; discriminate).
    split; [exact (toBase64Url_urlSafe str Hs Hc)|]. split.
    + intros E. left.
      destruct (toBase64Url_wellFormed str Hs Hc) as [bytes [Hb [Hd Henc]]].
      rewrite <- (fromBase64Url_b64Body bytes Hb), <- Henc in Hd.
      rewrite E in Hd.
      assert (E0 : fromBase64Url [] = Some []) by reflexivity.
      rewrite E0 in Hd. injection Hd as Hd. symmetry. exact Hd.
    + intros [E|E]; [subst str; reflexivity | discriminate].
  - assert (E : toBase64Url str = []).
    { unfold toBase64Url. rewrite encodeURIComponent_codePoints, Ec.
      reflexivity. }
    rewrite E. split; [reflexivity|]. split; auto.
Qed.

Lemma toBase64Url_token_witness :
  toBase64Url [104; 105; 55357] = [].
Proof.
  apply (proj2 (toBase64Url_token [104; 105; 55357] eq_refl)).
  right. reflexivity.
Defined.

Lemma urlChar_not_whitespace (c : N) :
  isBase64UrlChar c = true ->
  let d := if (if c =? 45 then 43 else c) =? 95 then 47
           else (if c =? 45 then 43 else c) in
  isAsciiWhitespace d = false.
Proof.
  unfold isBase64UrlChar, isAlpha, isUpper, isLower, isDigit,
    isAsciiWhitespace.
  intros H. rewrite ?orb_true_iff, ?andb_true_iff, ?N.eqb_eq, ?N.leb_le in H.
  cbv zeta. destruct (N.eqb_spec c 45) as [E|E].
  - reflexivity.
  - destruct (N.eqb_spec c 95) as [E'|E']; [reflexivity|].
    rewrite ?orb_false_iff, ?N.eqb_neq. repeat split; lia.
Qed.

Lemma decoded_no_whitespace (t : jsstring) :
  forallb isBase64UrlChar t = true ->
  filter (fun c => negb (isAsciiWhitespace c))
    (replaceAll 95 47 (replaceAll 45 43 t))
  = replaceAll 95 47 (replaceAll 45 43 t).
Proof.
  induction t as [|c t IH]; intros H; [reflexivity|].
  cbn [forallb] in H. apply andb_prop in H. destruct H as [Hc Ht].
  unfold replaceAll in *. cbn [map filter].
  rewrite (urlChar_not_whitespace c Hc). cbn [negb]. f_equal. apply IH, Ht.
Qed.

Lemma mapOption_snoc_None {A B} (f : A -> option B) (l : list A) (x : A) :
  f x = None -> mapOption f (l ++ [x]) = None.
Proof.
  intros H. induction l as [|a l IH]; simpl.
  - rewrite H. reflexivity.
  - rewrite IH. destruct (f a); reflexivity.
Qed.

Lemma mod4_plus (n : nat) :
  (n mod 4 = 1 -> (n + 3) mod 4 = 0 /\ (n + 1) mod 4 = 2)%nat.
Proof.
  intros H.
  pose proof (Nat.div_mod_eq n 4) as E.
  pose proof (Nat.div_mod_eq (n + 3) 4) as E3.
  pose proof (Nat.div_mod_eq (n + 1) 4) as E1.
  pose proof (Nat.mod_upper_bound (n + 3) 4 ltac:(discriminate)) as B3.
  pose proof (Nat.mod_upper_bound (n + 1) 4 ltac:(discriminate)) as B1.
  lia.
Qed.

(** A token that was cut short is rejected.  A token of URL-safe characters
    whose length leaves the remainder 1 modulo 4 is no base64 text:
    [fromBase64Url] pads it with three [=] signs, [atob] throws and the
    [catch] returns [null]; a fragment that carries such a token decodes to
    nothing. *)
Theorem fromBase64Url_truncated (cur : Settings) (t : jsstring) :
  forallb isBase64UrlChar t = true -> (length t mod 4 = 1)%nat ->
  fromBase64Url t = None /\
  parseMagicLinkFromHash cur (js "#cfg=" ++ t) = None.
Proof.
  intros Hall Hlen.
  assert (Hdec : fromBase64Url t = None).
  { unfold fromBase64Url.
    set (b64 := replaceAll 95 47 (replaceAll 45 43 t)).
    assert (Hl : length b64 = length t).
    { unfold b64, replaceAll. rewrite !length_map. reflexivity. }
    rewrite Hl, Hlen. cbn [Nat.eqb Nat.sub repeat]. unfold atob.
    assert (Hf : filter (fun c => negb (isAsciiWhitespace c))
                   (b64 ++ [61; 61; 61]) = b64 ++ [61; 61; 61]).
    { rewrite filter_app. unfold b64.
      rewrite (decoded_no_whitespace t Hall). reflexivity. }
    rewrite Hf.
    destruct (mod4_plus (length t) Hlen) as [H3 H1].
    assert (Hl3 : length (b64 ++ [61; 61; 61]) = (length t + 3)%nat).
    { rewrite length_app, Hl. reflexivity. }
    rewrite Hl3, H3. cbn [Nat.eqb].
    assert (Hs : stripPadding (b64 ++ [61; 61; 61]) = b64 ++ [61]).
    { unfold stripPadding. rewrite rev_app_distr. cbn [rev app].
      rewrite rev_involutive. reflexivity. }
    rewrite Hs.
    assert (Hl1 : length (b64 ++ [61]) = (length t + 1)%nat).
    { rewrite length_app, Hl. reflexivity. }
    rewrite Hl1, H1. cbn [Nat.eqb].
    rewrite mapOption_snoc_None by reflexivity. reflexivity. }
  split; [exact Hdec|].
  assert (Hne : t <> []) by (intros E; subst t; discriminate).
  destruct (exec_cfgRegex t Hne Hall) as [st [Hex Hcap]].
  unfold parseMagicLinkFromHash. cbn [truthy negb app js].
  change (35 :: 99 :: 102 :: 103 :: 61 :: t) with (js "#cfg=" ++ t).
  rewrite Hex, Hcap, Hdec. reflexivity.
Qed.

Lemma fromBase64Url_truncated_witness :
  fromBase64Url (js "eyJtb2RlbCI6IiBtM") = None.
Proof.
  apply (proj1 (fromBase64Url_truncated initialSettings
                  (js "eyJtb2RlbCI6IiBtM") eq_refl eq_refl)).
Defined.

(** A fragment without the text [cfg=] carries no configuration. *)
Theorem parseMagicLinkFromHash_no_token (cur : Settings) (hash : jsstring) :
  NoOcc (js "cfg=") hash -> parseMagicLinkFromHash cur hash = None.
Proof.
  intros Hno. unfold parseMagicLinkFromHash.
  destruct (truthy hash); [|reflexivity]. cbn [negb].
  destruct (exec cfgRegex hash) as [m|] eqn:E; [|reflexivity].
  exfalso. unfold exec in E. apply search_sound in E.
  destruct E as [pre [post [Hs HM]]]. unfold cfgRegex in HM.
  inv_seq HM H1 H2. inv_seq H2 H3 H4.
  inversion H1 as [|p c bef aft cp Hp E1 E2| | | | | | |]; subst.
  apply (proj1 (Matches_Lit (js "cfg=") _ st0)) in H3.
  destruct H3 as [Ha _]. cbn [after] in Ha.
  apply (Hno (pre ++ [c]) (after st0)).
  rewrite <- app_assoc. cbn [app]. rewrite Ha. reflexivity.
Qed.

Lemma parseMagicLinkFromHash_no_token_witness :
  parseMagicLinkFromHash initialSettings (js "#stage-3&cfg") = None.
Proof.
  apply (parseMagicLinkFromHash_no_token initialSettings (js "#stage-3&cfg")).
  apply NoOcc_check. reflexivity.
Defined.

(** What [sanitizeConfig] returns is never blank in baseUrl or model when
    the settings in memory are not: a decoded or imported configuration can
    replace the two fields, not empty them.  Only values that are not
    objects are refused. *)
Theorem sanitizeConfig_keeps_nonBlank (cur : Settings) (obj : json) :
  nonBlank (baseUrl cur) = true -> nonBlank (model cur) = true ->
  (sanitizeConfig cur obj = None <->
   match obj with JObj _ | JArr _ => False | _ => True end) /\
  (forall next, sanitizeConfig cur obj = Some next ->
     nonBlank (baseUrl next) = true /\ nonBlank (model next) = true).
Proof.
  intros Hb Hm. split.
  - destruct obj; simpl; split; intros H; try discriminate;
      try contradiction; auto.
  - intros next H.
    assert (Hn : next =
      {| baseUrl :=
           match getProp (js "baseUrl") obj with
           | Some (JStr v) => if truthy (trim v) then trim v else baseUrl cur
           | _ => baseUrl cur
           end;
         model :=
           match getProp (js "model") obj with
           | Some (JStr v) => if truthy (trim v) then trim v else model cur
           | _ => model cur
           end;
         apiKey :=
           match getProp (js "apiKey") obj with
           | Some (JStr v) => v
           | _ => apiKey cur
           end |}).
    { unfold sanitizeConfig in H.
      destruct obj; try discriminate; inversion H; reflexivity. }
    clear H. subst next. cbn [baseUrl model apiKey]. split.
    + destruct (getProp (js "baseUrl") obj) as [[| | |v| |]|]; try exact Hb.
      destruct (truthy (trim v)) eqn:Ev; [|exact Hb].
      apply nonBlank_trim, Ev.
    + destruct (getProp (js "model") obj) as [[| | |v| |]|]; try exact Hm.
      destruct (truthy (trim v)) eqn:Ev; [|exact Hm].
      apply nonBlank_trim, Ev.
Qed.

Lemma sanitizeConfig_keeps_nonBlank_witness :
  nonBlank (baseUrl sampleSettings) = true /\
  nonBlank (model sampleSettings) = true.
Proof.
  apply (proj2 (sanitizeConfig_keeps_nonBlank sampleSettings
                  (JObj [(js "baseUrl", JStr (js "   "));
                         (js "model", JNum (js "4"))])
                  eq_refl eq_refl)
           {| baseUrl := baseUrl sampleSettings;
              model := model sampleSettings;
              apiKey := apiKey sampleSettings |}).
  reflexivity.
Defined.

(** ** The session over whole runs of events *)

Ltac simp_state :=
  cbn [settings messages input busy error lastAction drawerOpen lastYaml
       storage setMessages setLastYaml setInput setBusy setError
       setDrawerOpen setLastAction appState inflight calls stored_settings
       stored_transcript stored_lastYaml fst snd negb requestOf
       req_baseUrl req_apiKey req_model req_messages appendAssistant] in *.

(** The case analysis of one handler or continuation, one goal per path
    through it. *)
Ltac step_cases s :=
  match goal with
  | ev : Event |- _ =>
      destruct ev as [now|now text|now|reply|e];
      unfold step, launch, startSession, sendUser, callResolved,
        callRejected, resetSession, canAct;
      cbn [appState inflight calls];
      [ destruct (busy s) eqn:Hbusy;
        [|destruct (Z.ltb (now - lastAction s) 300) eqn:Hlt;
          cbn [negb];
          [|simp_state;
            destruct (ensureSettings (settings s)) as [msg|] eqn:Hens]]
      | destruct (truthy (trim text)) eqn:Htext; cbn [negb];
        [destruct (busy s) eqn:Hbusy;
         [|destruct (Z.ltb (now - lastAction s) 300) eqn:Hlt;
           cbn [negb];
           [|simp_state;
             destruct (test toggleRegex (trim text)
                       && (truthy (lastYaml s) && truthy (trim (lastYaml s))))
               eqn:Htoggle;
             [|simp_state;
               destruct (ensureSettings (settings s)) as [msg|] eqn:Hens]]]
        |]
      |
      | match goal with
        | |- context [match ?i with Some _ => _ | None => _ end] =>
            destruct i as [[|text]|] eqn:Hinf
        end;
        [ destruct (yamlFound (extractStateYaml reply)) eqn:Hyaml
        | destruct (yamlFound (extractStateYaml reply)) eqn:Hyaml;
          [|destruct (test stateWordRegex text) eqn:Hword]
        | ]
      | match goal with
        | |- context [match ?i with Some _ => _ | None => _ end] =>
            destruct i as [p|] eqn:Hinf
        end ]
  end.

Lemma jsstring_eqb_eq (a b : jsstring) : jsstring_eqb a b = true -> a = b.
Proof.
  unfold jsstring_eqb. destruct (list_eq_dec N.eq_dec a b);
    [auto | discriminate].
Qed.

Lemma step_busyIffInflight (P : jsstring) (w : World) (ev : Event) :
  busyIffInflight w = true -> busyIffInflight (step P w ev) = true.
Proof.
  destruct w as [s inf cs]. unfold busyIffInflight.
  cbn [appState inflight]. intros H.
  step_cases s; simp_state; try exact H; try reflexivity;
    try (rewrite Hbusy; exact H).
Qed.

Lemma step_calls_busy (P : jsstring) (w : World) (ev : Event) :
  busy (appState w) = true -> calls (step P w ev) = calls w.
Proof.
  destruct w as [s inf cs]. cbn [appState]. intros Hb.
  destruct ev as [now|now text|now|reply|e];
    unfold step, launch, startSession, sendUser;
    cbn [appState inflight calls]; rewrite ?Hb.
  - reflexivity.
  - destruct (negb (truthy (trim text))); reflexivity.
  - reflexivity.
  - destruct inf; reflexivity.
  - destruct inf; reflexivity.
Qed.

Lemma step_calls_length (P : jsstring) (w : World) (ev : Event) :
  (length (calls (step P w ev)) <= S (length (calls w)))%nat.
Proof.
  destruct w as [s inf cs].
  step_cases s; simp_state; rewrite ?length_app; cbn [length]; lia.
Qed.

(** One call at a time.  From a world in which the busy flag tells whether
    a call is in flight, every run of events leads to such a world; while a
    call is in flight no event issues another one, and an event issues at
    most one call. *)
Theorem one_call_at_a_time (P : jsstring) (w : World) (evs : list Event)
  (ev : Event) :
  busyIffInflight w = true ->
  let w1 := run P w evs in
  busyIffInflight w1 = true /\
  (inflight w1 <> None -> calls (step P w1 ev) = calls w1) /\
  (length (calls (step P w1 ev)) <= S (length (calls w1)))%nat.
Proof.
  intros H. cbv zeta.
  assert (Hinv : busyIffInflight (run P w evs) = true).
  { revert w H. induction evs as [|e evs IH]; intros w H; [exact H|].
    cbn [run fold_left]. apply IH. apply step_busyIffInflight, H. }
  split; [exact Hinv|]. split; [|apply step_calls_length].
  intros Hin. apply step_calls_busy.
  unfold busyIffInflight in Hinv.
  destruct (inflight (run P w evs)); [|contradiction].
  destruct (busy (appState (run P w evs))); [reflexivity | discriminate].
Qed.

Lemma one_call_at_a_time_witness :
  let w1 := run samplePrompt sampleWorld [EvSendUser 5000 (js "NEXT")] in
  busyIffInflight w1 = true /\
  calls (step samplePrompt w1 (EvStartSession 9000)) = calls w1.
Proof.
  destruct (one_call_at_a_time samplePrompt sampleWorld
              [EvSendUser 5000 (js "NEXT")] (EvStartSession 9000) eq_refl)
    as [H1 [H2 _]].
  split; [exact H1|]. apply H2. discriminate.
Defined.

Lemma step_requests (P : jsstring) (w : World) (ev : Event) :
  settings (appState (step P w ev)) = settings (appState w) /\
  stored_settings (storage (appState (step P w ev)))
  = stored_settings (storage (appState w)) /\
  exists new,
    calls (step P w ev) = calls w ++ new /\
    forall r, In r new ->
      ensureSettings (settings (appState w)) = None /\
      requestFrom (settings (appState w)) r /\ endsWithUser r = true.
Proof.
  destruct w as [s inf cs]. cbn [appState].
  assert (Hnone : forall cs' : list Request,
            exists new, cs' = cs' ++ new /\
              forall r, In r new ->
                ensureSettings (settings s) = None /\
                requestFrom (settings s) r /\ endsWithUser r = true).
  { intros cs'. exists []. split; [symmetry; apply app_nil_r|].
    intros r []. }
  step_cases s; simp_state;
    repeat match goal with
           | |- context [if jsstring_eqb ?a ?b then _ else _] =>
               destruct (jsstring_eqb a b)
           end;
    simp_state;
    try (split; [reflexivity|split; [reflexivity|apply Hnone]]).
  - split; [reflexivity|]. split; [reflexivity|].
    eexists. split; [reflexivity|]. intros r [Hr|[]]. subst r.
    split; [reflexivity|]. split; [repeat split | reflexivity].
  - split; [reflexivity|]. split; [reflexivity|].
    eexists. split; [reflexivity|]. intros r [Hr|[]]. subst r.
    split; [reflexivity|]. split; [repeat split|].
    unfold endsWithUser, requestOf. cbn [req_messages].
    rewrite rev_app_distr. reflexivity.
Qed.

(** What goes out.  No event of a session changes the settings in memory or
    the stored settings; every call issued during a run carries the
    settings in memory, which passed [ensureSettings], and a message list
    that ends with a message of the user. *)
Theorem requests_of_a_run (P : jsstring) (w : World) (evs : list Event) :
  settings (appState (run P w evs)) = settings (appState w) /\
  stored_settings (storage (appState (run P w evs)))
  = stored_settings (storage (appState w)) /\
  exists new,
    calls (run P w evs) = calls w ++ new /\
    forall r, In r new ->
      ensureSettings (settings (appState w)) = None /\
      requestFrom (settings (appState w)) r /\ endsWithUser r = true.
Proof.
  revert w. induction evs as [|e evs IH]; intros w.
  - cbn [run fold_left]. split; [reflexivity|]. split; [reflexivity|].
    exists []. split; [symmetry; apply app_nil_r | intros r []].
  - cbn [run fold_left].
    destruct (step_requests P w e) as [E1 [E2 [new1 [Ec1 Hn1]]]].
    destruct (IH (step P w e)) as [E3 [E4 [new2 [Ec2 Hn2]]]].
    unfold run in *. rewrite E3, E4, E1, E2.
    split; [reflexivity|]. split; [reflexivity|].
    exists (new1 ++ new2). split.
    + rewrite Ec2, Ec1, app_assoc. reflexivity.
    + intros r Hr. apply in_app_or in Hr. destruct Hr as [Hr|Hr].
      * apply Hn1, Hr.
      * rewrite <- E1. apply Hn2, Hr.
Qed.

Lemma systemOnlyFirst_snoc (ms : list Message) (m : Message) :
  systemOnlyFirst ms = true -> isSystem m = false ->
  systemOnlyFirst (ms ++ [m]) = true.
Proof.
  unfold systemOnlyFirst. intros H Hm. destruct ms as [|m0 ms]; cbn [app tl].
  - reflexivity.
  - cbn [tl] in H. rewrite forallb_app, H. cbn. rewrite Hm. reflexivity.
Qed.

Lemma step_systemOnlyFirst (P : jsstring) (w : World) (ev : Event) :
  systemOnlyFirst (messages (appState w)) = true ->
  systemOnlyFirst (messages (appState (step P w ev))) = true.
Proof.
  destruct w as [s inf cs]. cbn [appState]. intros H.
  step_cases s; simp_state; try exact H; try reflexivity;
    try (apply systemOnlyFirst_snoc; [exact H | reflexivity]).
Qed.

(** The controller instruction stays in front.  When no system message
    stands after the first position of the transcript, none does after any
    run of events: the handlers append messages of the user and of the
    assistant only, and a start puts the instruction first. *)
Theorem system_message_only_first (P : jsstring) (w : World)
  (evs : list Event) :
  systemOnlyFirst (messages (appState w)) = true ->
  systemOnlyFirst (messages (appState (run P w evs))) = true.
Proof.
  revert w. induction evs as [|e evs IH]; intros w H; [exact H|].
  cbn [run fold_left]. apply IH. apply step_systemOnlyFirst, H.
Qed.

Lemma system_message_only_first_witness :
  systemOnlyFirst
    (messages
       (appState
          (run samplePrompt sampleWorld
             [EvResetSession 2000; EvSendUser 5000 (js "NEXT");
              EvCallResolved sampleReply; EvStartSession 9000])))
  = true.
Proof.
  apply (system_message_only_first samplePrompt sampleWorld
           [EvResetSession 2000; EvSendUser 5000 (js "NEXT");
            EvCallResolved sampleReply; EvStartSession 9000]).
  reflexivity.
Defined.

(** ** The handlers one by one *)

Lemma test_Lit_iff (u s : jsstring) :
  test (Lit u) s = true <-> exists a b, s = a ++ u ++ b.
Proof.
  rewrite test_iff. unfold MatchesIn. split.
  - intros [pre [post [st' [Hs HM]]]].
    apply (proj1 (Matches_Lit u _ st')) in HM. destruct HM as [Ha _].
    cbn [after] in Ha. exists pre, (after st'). rewrite Hs, Ha. reflexivity.
  - intros [a [b Hs]].
    exists a, (u ++ b), (MState (rev u ++ rev a) b None).
    split; [exact Hs|]. apply (proj2 (Matches_Lit u _ _)).
    cbn [after before cap]. repeat split; reflexivity.
Qed.

(** When [ensureSettings] lets a call through: the base URL is not empty
    and, if it contains [openai.com] (in lower case, anywhere), the key is
    not empty.  A key of white space counts as a key; every other base URL
    needs none.  An empty base URL is reported first. *)
Theorem ensureSettings_spec (cfg : Settings) :
  (ensureSettings cfg = None <->
   baseUrl cfg <> [] /\
   (apiKey cfg <> [] \/
    ~ exists a b, baseUrl cfg = a ++ js "openai.com" ++ b)) /\
  (baseUrl cfg = [] ->
   ensureSettings cfg = Some (js "Base URL is required")) /\
  (forall a b, baseUrl cfg = a ++ js "openai.com" ++ b -> apiKey cfg = [] ->
   ensureSettings cfg = Some (js "API key required for OpenAI base URL")).
Proof.
  unfold ensureSettings, openaiRegex.
  destruct cfg as [b m k]. cbn [baseUrl apiKey].
  pose proof (test_Lit_iff (js "openai.com") b) as Ht.
  split; [|split].
  - destruct b as [|c b]; cbn [truthy negb].
    + split; [discriminate | intros [H _]; contradiction].
    + destruct (test (Lit (js "openai.com")) (c :: b)) eqn:E; cbn [andb].
      * destruct k as [|d k]; cbn [truthy negb].
        -- split; [discriminate|]. intros [_ [H|H]]; [contradiction|].
           exfalso. apply H, Ht. reflexivity.
        -- split; [|reflexivity]. intros _.
           split; [discriminate | left; discriminate].
      * split; [|reflexivity]. intros _. split; [discriminate|].
        right. intros H. apply Ht in H. discriminate.
  - intros E. subst b. reflexivity.
  - intros a b' E Hk. subst k.
    assert (Hb : test (Lit (js "openai.com")) b = true)
      by (apply Ht; exists a, b'; exact E).
    rewrite Hb. destruct b as [|c b]; [|reflexivity].
    destruct a; discriminate.
Qed.

Ltac open_handler s now :=
  unfold step, launch, startSession, sendUser, canAct;
  cbn [appState inflight calls].

(** A submission or a start that fails the settings check.  No call goes
    out and the transcript, the draft, the state block and the stores stay
    as they are; the message of the check is shown, the busy flag is off,
    and the action counts for the debounce: its time is recorded. *)
Theorem config_error_path (P : jsstring) (w : World) (now : Z)
  (text msg : jsstring) :
  ensureSettings (settings (appState w)) = Some msg ->
  busy (appState w) = false ->
  (300 <= now - lastAction (appState w))%Z ->
  let unchanged (w' : World) :=
    calls w' = calls w /\ inflight w' = inflight w /\
    messages (appState w') = messages (appState w) /\
    input (appState w') = input (appState w) /\
    lastYaml (appState w') = lastYaml (appState w) /\
    drawerOpen (appState w') = drawerOpen (appState w) /\
    storage (appState w') = storage (appState w) /\
    error (appState w') = msg /\ busy (appState w') = false /\
    lastAction (appState w') = now in
  unchanged (step P w (EvStartSession now)) /\
  (nonBlank text = true ->
   isToggleCommand text = false \/ nonBlank (lastYaml (appState w)) = false ->
   unchanged (step P w (EvSendUser now text))).
Proof.
  destruct w as [s inf cs]. cbn [appState inflight calls].
  intros Hens Hbusy Hnow.
  assert (Hlt : Z.ltb (now - lastAction s) 300 = false)
    by (apply Z.ltb_ge; exact Hnow).
  split.
  - open_handler s now. rewrite Hbusy, Hlt. cbn [negb]. simp_state.
    rewrite Hens. simp_state. repeat split.
  - intros Htext Htog. unfold nonBlank in Htext. open_handler s now.
    rewrite Htext, Hbusy, Hlt. cbn [negb]. simp_state.
    assert (Hc : test toggleRegex (trim text)
                 && (truthy (lastYaml s) && truthy (trim (lastYaml s)))
                 = false).
    { rewrite toggleRegex_test. unfold isToggleCommand, nonBlank in Htog.
      destruct Htog as [E|E]; rewrite E;
        [reflexivity | rewrite !andb_false_r; reflexivity]. }
    rewrite Hc, Hens. simp_state. repeat split.
Qed.

Lemma config_error_path_witness :
  let w := {| appState := setLastAction 0
                            {| settings := initialSettings;
                               messages := sampleMessages;
                               input := js "draft"; busy := false;
                               error := []; lastAction := 0;
                               drawerOpen := false; lastYaml := [];
                               storage := storage sampleState |};
              inflight := None; calls := [] |} in
  calls (step samplePrompt w (EvStartSession 1000)) = [] /\
  error (appState (step samplePrompt w (EvStartSession 1000)))
  = js "API key required for OpenAI base URL".
Proof.
  cbv zeta.
  destruct (config_error_path samplePrompt
              {| appState := setLastAction 0
                               {| settings := initialSettings;
                                  messages := sampleMessages;
                                  input := js "draft"; busy := false;
                                  error := []; lastAction := 0;
                                  drawerOpen := false; lastYaml := [];
                                  storage := storage sampleState |};
                 inflight := None; calls := [] |}
              1000 (js "NEXT") (js "API key required for OpenAI base URL")
              eq_refl eq_refl ltac:(vm_compute; discriminate))
    as [[H1 [_ [_ [_ [_ [_ [_ [H2 _]]]]]]]] _].
  split; [exact H1 | exact H2].
Defined.

(** A start and its reply.  An accepted start replaces the transcript by
    the two seed messages, sends exactly these, and leaves the state block
    and the drawer of the previous session as they are.  When the reply
    arrives it is appended; a state block in it is stored and shown, and
    without one the old block and drawer stay, whatever the reply says. *)
Theorem start_and_reply (P : jsstring) (w : World) (now : Z)
  (assistantText : jsstring) :
  busy (appState w) = false -> inflight w = None ->
  (300 <= now - lastAction (appState w))%Z ->
  ensureSettings (settings (appState w)) = None ->
  let w1 := step P w (EvStartSession now) in
  let w2 := step P w1 (EvCallResolved assistantText) in
  calls w1 = calls w ++ [requestOf (appState w) (seedMessages P)] /\
  inflight w1 = Some PendingStart /\
  messages (appState w1) = seedMessages P /\
  busy (appState w1) = true /\
  lastYaml (appState w1) = lastYaml (appState w) /\
  drawerOpen (appState w1) = drawerOpen (appState w) /\
  messages (appState w2)
  = seedMessages P ++ [assistantMessage assistantText] /\
  busy (appState w2) = false /\ inflight w2 = None /\
  (forall y, extractStateYaml assistantText = Some y ->
     lastYaml (appState w2) = y /\ drawerOpen (appState w2) = true) /\
  (extractStateYaml assistantText = None ->
     lastYaml (appState w2) = lastYaml (appState w) /\
     drawerOpen (appState w2) = drawerOpen (appState w)).
Proof.
  destruct w as [s inf cs]. cbn [appState inflight calls].
  intros Hbusy Hinf Hnow Hens. subst inf.
  assert (Hlt : Z.ltb (now - lastAction s) 300 = false)
    by (apply Z.ltb_ge; exact Hnow).
  cbv zeta. open_handler s now. rewrite Hbusy, Hlt. cbn [negb]. simp_state.
  rewrite Hens. simp_state. unfold callResolved.
  do 6 (split; [reflexivity|]).
  destruct (extractStateYaml assistantText) as [y|] eqn:Ey.
  - pose proof (extractStateYaml_truthy _ _ Ey) as Hy.
    cbn [yamlFound yamlText]. rewrite Hy. simp_state.
    do 3 (split; [reflexivity|]). split; [|discriminate].
    intros y' E. injection E as E. subst y'. split; reflexivity.
  - cbn [yamlFound]. simp_state.
    do 3 (split; [reflexivity|]). split; [discriminate|].
    intros _. split; reflexivity.
Qed.

Lemma start_and_reply_witness :
  let w1 := step samplePrompt sampleWorld (EvStartSession 2000) in
  let w2 := step samplePrompt w1 (EvCallResolved (js "Welcome.")) in
  messages (appState w2)
  = seedMessages samplePrompt ++ [assistantMessage (js "Welcome.")] /\
  lastYaml (appState w2) = sampleYaml.
Proof.
  cbv zeta.
  destruct (start_and_reply samplePrompt sampleWorld 2000 (js "Welcome.")
              eq_refl eq_refl ltac:(vm_compute; discriminate) eq_refl)
    as [_ [_ [_ [_ [_ [_ [H1 [_ [_ [_ H2]]]]]]]]]].
  split; [exact H1|]. apply H2. reflexivity.
Defined.

(** The toggle command without a state block goes out like any other text.
    When no non-blank state block is held, an accepted toggle submission is
    appended to the transcript and sent; a reply without a state block then
    leaves the block empty and the drawer closed. *)
Theorem toggle_without_block_is_sent (P : jsstring) (w : World) (now : Z)
  (text assistantText : jsstring) :
  isToggleCommand text = true ->
  nonBlank (lastYaml (appState w)) = false ->
  busy (appState w) = false -> inflight w = None ->
  (300 <= now - lastAction (appState w))%Z ->
  ensureSettings (settings (appState w)) = None ->
  let w1 := step P w (EvSendUser now text) in
  let w2 := step P w1 (EvCallResolved assistantText) in
  calls w1
  = calls w ++ [requestOf (appState w)
                  (messages (appState w) ++ [userMessage text])] /\
  inflight w1 = Some (PendingSend text) /\
  drawerOpen (appState w1) = drawerOpen (appState w) /\
  input (appState w1) = [] /\
  (extractStateYaml assistantText = None ->
   messages (appState w2)
   = messages (appState w)
     ++ [userMessage text; assistantMessage assistantText] /\
   lastYaml (appState w2) = [] /\ drawerOpen (appState w2) = false).
Proof.
  destruct w as [s inf cs]. cbn [appState inflight calls].
  intros Ht Hy Hbusy Hinf Hnow Hens. subst inf.
  assert (Hlt : Z.ltb (now - lastAction s) 300 = false)
    by (apply Z.ltb_ge; exact Hnow).
  pose proof (toggle_contains_word text Ht) as Hw.
  apply stateWordRegex_iff in Hw.
  unfold isToggleCommand in Ht.
  pose proof (ciEq_STATE_truthy _ Ht) as Htr. unfold nonBlank in Hy.
  cbv zeta. open_handler s now.
  rewrite Htr, Hbusy, Hlt. cbn [negb]. simp_state.
  rewrite Hy, !andb_false_r. simp_state. rewrite Hens. simp_state.
  do 4 (split; [reflexivity|]).
  intros Ey. unfold callResolved. rewrite Ey, Hw. cbn [yamlFound].
  simp_state. rewrite <- app_assoc. repeat split.
Qed.

Lemma toggle_without_block_is_sent_witness :
  let w := {| appState := setLastYaml [32] sampleState; inflight := None;
              calls := [] |} in
  inflight (step samplePrompt w (EvSendUser 2000 (js "state")))
  = Some (PendingSend (js "state")).
Proof.
  cbv zeta.
  destruct (toggle_without_block_is_sent samplePrompt
              {| appState := setLastYaml [32] sampleState; inflight := None;
                 calls := [] |}
              2000 (js "state") (js "ok")
              eq_refl eq_refl eq_refl eq_refl
              ltac:(vm_compute; discriminate) eq_refl)
    as [_ [H _]].
  exact H.
Defined.

(** Two toggles give the first view back.  With a non-blank state block
    held, two accepted toggle submissions restore the drawer; the
    transcript, the state block and the stores are untouched and no call
    goes out. *)
Theorem toggle_twice (P : jsstring) (w : World) (t1 t2 : Z)
  (text1 text2 : jsstring) :
  isToggleCommand text1 = true -> isToggleCommand text2 = true ->
  nonBlank (lastYaml (appState w)) = true ->
  busy (appState w) = false ->
  (300 <= t1 - lastAction (appState w))%Z -> (300 <= t2 - t1)%Z ->
  let w2 := run P w [EvSendUser t1 text1; EvSendUser t2 text2] in
  drawerOpen (appState w2) = drawerOpen (appState w) /\
  messages (appState w2) = messages (appState w) /\
  lastYaml (appState w2) = lastYaml (appState w) /\
  storage (appState w2) = storage (appState w) /\
  calls w2 = calls w /\ inflight w2 = inflight w /\
  lastAction (appState w2) = t2.
Proof.
  destruct w as [s inf cs]. cbn [appState inflight calls].
  intros Ht1 Ht2 Hy Hbusy Hn1 Hn2.
  assert (Hlt1 : Z.ltb (t1 - lastAction s) 300 = false)
    by (apply Z.ltb_ge; exact Hn1).
  assert (Hlt2 : Z.ltb (t2 - t1) 300 = false)
    by (apply Z.ltb_ge; exact Hn2).
  unfold isToggleCommand in Ht1, Ht2.
  pose proof (ciEq_STATE_truthy _ Ht1) as Htr1.
  pose proof (ciEq_STATE_truthy _ Ht2) as Htr2.
  pose proof (nonBlank_truthy _ Hy) as Hy'. unfold nonBlank in Hy.
  cbv zeta. cbn [run fold_left]. open_handler s t1.
  rewrite Htr1, Hbusy, Hlt1. cbn [negb]. simp_state.
  rewrite toggleRegex_test, Ht1, Hy, Hy'. cbn [andb]. simp_state.
  rewrite Htr2, Hbusy, Hlt2. cbn [negb]. simp_state.
  rewrite toggleRegex_test, Ht2, Hy, Hy'. cbn [andb]. simp_state.
  rewrite negb_involutive. repeat split.
Qed.

Lemma toggle_twice_witness :
  drawerOpen
    (appState
       (run samplePrompt sampleWorld
          [EvSendUser 2000 (js "STATE"); EvSendUser 2300 (js " state ")]))
  = true.
Proof.
  destruct (toggle_twice samplePrompt sampleWorld 2000 2300 (js "STATE")
              (js " state ") eq_refl eq_refl eq_refl eq_refl
              ltac:(vm_compute; discriminate) ltac:(vm_compute; discriminate))
    as [H _].
  exact H.
Defined.






(** ** The extractor: what it returns and when it returns nothing *)

(** A state block taken from a reply is never blank and has no white space
    at its ends, so the guard of the local toggle,
    [lastYaml && lastYaml.trim()], holds for it. *)
Theorem extracted_block_is_trimmed (text y : jsstring) :
  extractStateYaml text = Some y ->
  nonBlank y = true /\ trim y = y /\
  truthy y && truthy (trim y) = true.
Proof.
  intros H. pose proof (extractStateYaml_truthy text y H) as Ht.
  destruct (extractStateYaml_keepLast text) as [_ Hres].
  rewrite Hres in H.
  pose proof (keepLast_spec (fencedRegions text) None) as Hk.
  rewrite H in Hk.
  destruct Hk as [[earlier [b [later [_ [_ [_ Hy]]]]]]|[Hacc _]];
    [|discriminate].
  assert (Etrim : trim y = y) by (subst y; apply trim_trim).
  unfold nonBlank. rewrite Etrim, Ht. repeat split.
Qed.

Lemma extracted_block_is_trimmed_witness :
  nonBlank
    (js "STATE:" ++ [10]
       ++ js "  progress: {current_stage: 4, stages_total: 8}") = true.
Proof.
  apply (extracted_block_is_trimmed sampleReply
           (js "STATE:" ++ [10]
              ++ js "  progress: {current_stage: 4, stages_total: 8}")).
  vm_compute. reflexivity.
Defined.

(** A reply without three backticks in a row has no fenced region and
    gives no state block, whatever else it says. *)
Theorem extractStateYaml_needs_fence (text : jsstring) :
  NoOcc fence text ->
  fencedRegions text = [] /\ extractStateYaml text = None.
Proof.
  intros Hno.
  assert (Hr : fencedRegions text = []).
  { destruct (fencedRegions text) as [|b l] eqn:E; [reflexivity|].
    exfalso.
    assert (Hin : In b (fencedRegions text)) by (rewrite E; left; reflexivity).
    unfold fencedRegions in Hin. apply regionsFrom_closed in Hin.
    destruct Hin as [pre [tag [post [Ht _]]]].
    exact (Hno pre _ Ht). }
  split; [exact Hr|].
  destruct (extractStateYaml_keepLast text) as [_ Hres].
  rewrite Hres, Hr. reflexivity.
Qed.

Lemma extractStateYaml_needs_fence_witness :
  extractStateYaml
    (js "STATE:" ++ [10] ++ js "  progress: {current_stage: 4}") = None.
Proof.
  apply (extractStateYaml_needs_fence
           (js "STATE:" ++ [10] ++ js "  progress: {current_stage: 4}")).
  apply NoOcc_check. reflexivity.
Defined.

(** ** What the browser storage gives back *)

Lemma jsstring_eqb_refl (a : jsstring) : jsstring_eqb a a = true.
Proof.
  unfold jsstring_eqb. destruct (list_eq_dec N.eq_dec a a);
    [reflexivity | contradiction].
Qed.

Lemma getItem_setItem_same (k v : jsstring) (ls : LocalStorage) :
  getItem k (setItem k v ls) = Some v.
Proof.
  unfold getItem, setItem. cbn [find fst]. rewrite jsstring_eqb_refl.
  reflexivity.
Qed.

Lemma getItem_setItem_other (k k' v : jsstring) (ls : LocalStorage) :
  jsstring_eqb k k' = false ->
  getItem k' (setItem k v ls) = getItem k' ls.
Proof.
  intros Hk. unfold getItem, setItem. cbn [find fst]. rewrite Hk.
  f_equal. induction ls as [|[k0 v0] ls IH]; [reflexivity|].
  cbn [filter find fst].
  destruct (jsstring_eqb k0 k) eqn:E0; cbn [negb].
  - apply jsstring_eqb_eq in E0. subst k0. rewrite Hk. exact IH.
  - cbn [find fst]. destruct (jsstring_eqb k0 k'); [reflexivity | exact IH].
Qed.

Lemma stringifySettings_shape (s : Settings) :
  stringifySettings s
  = 123 :: 34 :: quoteBody (js "apiKey") ++ 34 :: 58 :: 34
        :: quoteBody (apiKey s) ++ 34 :: 44 :: 34
        :: quoteBody (js "baseUrl") ++ 34 :: 58 :: 34
        :: quoteBody (baseUrl s) ++ 34 :: 44 :: 34
        :: quoteBody (js "model") ++ 34 :: 58 :: 34
        :: quoteBody (model s) ++ [34; 125].
Proof. apply object_shape. Qed.

Lemma loadSettings_saveSettings (s : Settings) (ls : LocalStorage) :
  loadSettings (saveSettings s ls)
  = Some (JObj [ (js "apiKey", JStr (apiKey s));
                 (js "baseUrl", JStr (baseUrl s));
                 (js "model", JStr (model s)) ]).
Proof.
  unfold loadSettings, saveSettings. rewrite getItem_setItem_same.
  rewrite stringifySettings_shape. cbn [truthy].
  apply JSON_parse_object3.
Qed.

Lemma restoreSettings_saved (s : Settings) :
  restoreSettings
    (Some (JObj [ (js "apiKey", JStr (apiKey s));
                  (js "baseUrl", JStr (baseUrl s));
                  (js "model", JStr (model s)) ]))
  = Some (withDefaults s).
Proof.
  destruct s as [b m k]. cbn [baseUrl model apiKey].
  unfold restoreSettings, storedOr, withDefaults.
  cbn [baseUrl model apiKey].
  change (getProp (js "apiKey")
            (JObj [(js "apiKey", JStr k); (js "baseUrl", JStr b);
                   (js "model", JStr m)])) with (Some (JStr k)).
  change (getProp (js "baseUrl")
            (JObj [(js "apiKey", JStr k); (js "baseUrl", JStr b);
                   (js "model", JStr m)])) with (Some (JStr b)).
  change (getProp (js "model")
            (JObj [(js "apiKey", JStr k); (js "baseUrl", JStr b);
                   (js "model", JStr m)])) with (Some (JStr m)).
  cbv iota beta.
  destruct k, b, m; reflexivity.
Qed.

Lemma loadSettings_other (k v : jsstring) (ls : LocalStorage) :
  jsstring_eqb k LS_KEYS.settings = false ->
  loadSettings (setItem k v ls) = loadSettings ls.
Proof.
  intros Hk. unfold loadSettings. rewrite getItem_setItem_other by exact Hk.
  reflexivity.
Qed.

(** Saved settings come back.  After [handleSaveSettings], a page load
    without a link restores the three settings as they were saved, for all
    strings, except that an empty baseUrl or model comes back as the
    built-in default.  The load writes the storage: its persistence effects
    store again the transcript and the state block it has read; the entry
    of the settings is left as it was saved. *)
Theorem saved_settings_restored (s : Settings) (ls : LocalStorage)
  (ms : list Message) :
  initialMessages ls = Some ms ->
  let saved := handleSaveSettings s ls in
  let ls' := saveLastYaml (initialLastYaml ls) (saveTranscript ms saved) in
  pageLoad [] saved = Some (withDefaults s, ms, initialLastYaml ls, ls') /\
  getItem LS_KEYS.settings ls' = getItem LS_KEYS.settings saved /\
  loadSettings ls' = loadSettings saved /\
  (baseUrl s <> [] -> model s <> [] -> withDefaults s = s).
Proof.
  intros Hms. cbv zeta.
  assert (Hm : initialMessages (handleSaveSettings s ls) = Some ms).
  { rewrite <- Hms.
    unfold initialMessages, loadTranscript, handleSaveSettings, saveSettings.
    rewrite getItem_setItem_other by reflexivity. reflexivity. }
  assert (Hy : initialLastYaml (handleSaveSettings s ls) = initialLastYaml ls).
  { unfold initialLastYaml, handleSaveSettings, saveSettings.
    rewrite getItem_setItem_other by reflexivity. reflexivity. }
  split; [|split; [|split]].
  - unfold pageLoad. rewrite Hm, Hy. unfold mountEffect, handleSaveSettings.
    rewrite loadSettings_saveSettings, restoreSettings_saved. reflexivity.
  - unfold saveLastYaml, saveTranscript.
    rewrite !getItem_setItem_other by reflexivity. reflexivity.
  - unfold saveLastYaml, saveTranscript.
    rewrite !loadSettings_other by reflexivity. reflexivity.
  - destruct s as [b m k]. cbn [baseUrl model]. intros Hb Hm'.
    unfold withDefaults. cbn [baseUrl model apiKey].
    destruct b; [contradiction|]. destruct m; [contradiction|]. reflexivity.
Qed.

Lemma saved_settings_restored_witness :
  pageLoad [] (handleSaveSettings sampleSettings [])
  = Some (sampleSettings, [], [],
          saveLastYaml [] (saveTranscript []
                             (handleSaveSettings sampleSettings []))).
Proof.
  apply (proj1 (saved_settings_restored sampleSettings [] [] eq_refl)).
Defined.

(** A link wins over saved settings.  When the page is opened through a
    link built from [cfg], the settings in memory and in the storage become
    [cfg] sanitized against the built-in defaults: a blank baseUrl or model
    of the link falls back to the default, never to the value that was
    saved, and the saved settings are overwritten. *)
Theorem magic_link_at_mount (cfg : Settings) (base : jsstring)
  (ls : LocalStorage) :
  wellFormedSettings cfg = true ->
  forallb (fun c => negb (c =? 35)) base = true ->
  restoreSettings (loadSettings ls) <> None ->
  let next := sanitized initialSettings cfg in
  mountEffect (locationHash (buildMagicLink base cfg)) ls
  = Some (next, saveSettings next ls) /\
  mountEffect [] (saveSettings next ls)
  = Some (withDefaults next, saveSettings next ls).
Proof.
  intros Hwf Hbase Hls. cbv zeta. split.
  - unfold mountEffect.
    destruct (restoreSettings (loadSettings ls)); [|contradiction].
    rewrite (link_decode initialSettings cfg base Hwf Hbase). reflexivity.
  - unfold mountEffect.
    rewrite loadSettings_saveSettings, restoreSettings_saved. reflexivity.
Qed.

Lemma magic_link_at_mount_witness :
  mountEffect
    (locationHash
       (buildMagicLink (js "https://example.org/coach")
          {| baseUrl := js "  "; model := js "llama3"; apiKey := [] |}))
    (saveSettings sampleSettings [])
  = Some ({| baseUrl := js "https://api.openai.com/v1";
             model := js "llama3"; apiKey := [] |},
          saveSettings
            {| baseUrl := js "https://api.openai.com/v1";
               model := js "llama3"; apiKey := [] |}
            (saveSettings sampleSettings [])).
Proof.
  apply (proj1 (magic_link_at_mount
                  {| baseUrl := js "  "; model := js "llama3"; apiKey := [] |}
                  (js "https://example.org/coach")
                  (saveSettings sampleSettings [])
                  eq_refl eq_refl
                  ltac:(vm_compute; discriminate))).
Defined.

(** *** The transcript *)

Lemma message_shape (a b c d rest : jsstring) :
  ([123] ++ (34 :: a ++ [34]) ++ [58] ++ (34 :: b ++ [34]) ++ [44]
         ++ (34 :: c ++ [34]) ++ [58] ++ (34 :: d ++ [34]) ++ [125]) ++ rest
  = 123 :: 34 :: a ++ 34 :: 58 :: 34 :: b ++ 34 :: 44 :: 34
        :: c ++ 34 :: 58 :: 34 :: d ++ 34 :: 125 :: rest.
Proof.
  repeat first [rewrite <- app_assoc | progress cbn [app]]. reflexivity.
Qed.

Lemma parseValue_message (f : nat) (m : Message) (rest : jsstring) :
  parseValue (S (S (S (S f)))) (stringifyMessage m ++ rest)
  = Some (JObj [ (js "role", JStr (roleName (role m)));
                 (js "content", JStr (content m)) ], rest).
Proof.
  unfold stringifyMessage, quoteJSONString. rewrite message_shape.
  rewrite parseValue_object, parseMembers_cons, parseMembers_last.
  reflexivity.
Qed.

Lemma parseElements_S (f : nat) (s : jsstring) :
  parseElements (S f) s
  = match parseValue f s with
    | Some (v, r) =>
        match skipWs r with
        | 44 :: r1 => consFst v (parseElements f r1)
        | 93 :: r1 => Some ([v], r1)
        | _ => None
        end
    | None => None
    end.
Proof. reflexivity. Qed.

Lemma parseElements_messages :
  forall (ms : list Message) (m : Message) (f : nat) (rest : jsstring),
    (length ms + 5 <= f)%nat ->
    parseElements f
      (joinComma (map stringifyMessage (m :: ms)) ++ 93 :: rest)
    = Some (map (fun m' => JObj [ (js "role", JStr (roleName (role m')));
                                  (js "content", JStr (content m')) ])
              (m :: ms), rest).
Proof.
  induction ms as [|m1 ms IH]; intros m f rest Hf.
  - destruct f as [|[|[|[|[|f]]]]]; cbn [length] in Hf; try lia.
    rewrite parseElements_S. cbn [map joinComma].
    rewrite parseValue_message. reflexivity.
  - destruct f as [|[|[|[|[|f]]]]]; cbn [length] in Hf; try lia.
    change (joinComma (map stringifyMessage (m :: m1 :: ms)))
      with (stringifyMessage m ++ [44]
              ++ joinComma (map stringifyMessage (m1 :: ms))).
    rewrite <- !app_assoc. rewrite parseElements_S.
    rewrite parseValue_message. cbn [app].
    change (skipWs (44 :: joinComma (map stringifyMessage (m1 :: ms))
                      ++ 93 :: rest))
      with (44 :: joinComma (map stringifyMessage (m1 :: ms)) ++ 93 :: rest).
    cbv iota.
    rewrite (IH m1 (S (S (S (S f)))) rest) by lia.
    reflexivity.
Qed.

Lemma parseValue_array (f : nat) (r : jsstring) :
  parseValue (S f) (91 :: 123 :: r)
  = match parseElements f (123 :: r) with
    | Some (es, r') => Some (JArr es, r')
    | None => None
    end.
Proof. reflexivity. Qed.

Lemma joinComma_length (ms : list Message) :
  (5 * length ms <= length (joinComma (map stringifyMessage ms)))%nat.
Proof.
  assert (Hm : forall m, (5 <= length (stringifyMessage m))%nat).
  { intros m. unfold stringifyMessage, quoteJSONString.
    rewrite !length_app. cbn [length]. lia. }
  induction ms as [|m ms IH]; [cbn; lia|].
  destruct ms as [|m1 ms].
  - cbn [map joinComma length]. specialize (Hm m). lia.
  - change (joinComma (map stringifyMessage (m :: m1 :: ms)))
      with (stringifyMessage m ++ [44]
              ++ joinComma (map stringifyMessage (m1 :: ms))).
    rewrite !length_app. specialize (Hm m). cbn [length] in *. lia.
Qed.

Lemma JSON_parse_stringifyMessages (ms : list Message) :
  JSON_parse (stringifyMessages ms)
  = Some (JArr (map (fun m' => JObj [ (js "role", JStr (roleName (role m')));
                                      (js "content", JStr (content m')) ])
                  ms)).
Proof.
  destruct ms as [|m ms]; [reflexivity|].
  unfold JSON_parse, stringifyMessages.
  pose proof (joinComma_length (m :: ms)) as Hlen.
  set (body := joinComma (map stringifyMessage (m :: ms))) in *.
  assert (Hb : exists r, body = 123 :: r).
  { unfold body. destruct ms; cbn [map joinComma];
      unfold stringifyMessage; cbn [app]; eexists; reflexivity. }
  destruct Hb as [r Hb].
  change ([91] ++ body ++ [93]) with (91 :: body ++ [93]).
  cbn [length]. rewrite length_app. cbn [length].
  remember (length body + 1)%nat as n eqn:En.
  assert (Hn : (length ms + 5 <= n)%nat) by (cbn [length] in Hlen; lia).
  rewrite Hb. cbn [app]. rewrite parseValue_array.
  change (123 :: r ++ [93]) with ((123 :: r) ++ [93]). rewrite <- Hb.
  unfold body.
  rewrite (parseElements_messages ms m (S n) []) by lia.
  reflexivity.
Qed.

Lemma messageOfJson_message (m : Message) :
  messageOfJson (JObj [ (js "role", JStr (roleName (role m)));
                        (js "content", JStr (content m)) ]) = Some m.
Proof. destruct m as [[] c]; reflexivity. Qed.

(** The session comes back.  After the transcript and the state block are
    saved, a page load starts with exactly that transcript and that state
    block, for all messages and all strings; saving them does not touch the
    saved settings. *)
Theorem session_survives_reload (ms : list Message) (y : jsstring)
  (ls : LocalStorage) :
  let ls' := saveLastYaml y (saveTranscript ms ls) in
  initialMessages ls' = Some ms /\
  initialLastYaml ls' = y /\
  loadSettings ls' = loadSettings ls.
Proof.
  cbv zeta. split; [|split].
  - unfold initialMessages, loadTranscript, saveLastYaml, saveTranscript.
    rewrite getItem_setItem_other by reflexivity.
    rewrite getItem_setItem_same.
    assert (Ht : truthy (stringifyMessages ms) = true) by reflexivity.
    rewrite Ht, JSON_parse_stringifyMessages. clear Ht.
    induction ms as [|m ms IH]; [reflexivity|].
    cbn [map mapOption]. rewrite messageOfJson_message, IH. reflexivity.
  - unfold initialLastYaml, saveLastYaml. rewrite getItem_setItem_same.
    reflexivity.
  - unfold loadSettings, saveLastYaml, saveTranscript.
    rewrite !getItem_setItem_other by reflexivity. reflexivity.
Qed.

(** ** The address of the call *)

Lemma rmatch_trailingSlash (bef aft : jsstring) :
  rmatch trailingSlashRegex (MState bef aft None) Some
  = match aft with
    | [c] => if 47 =? c then Some (MState (c :: bef) [] None) else None
    | _ => None
    end.
Proof.
  unfold trailingSlashRegex, Chr. cbn [rmatch after before cap].
  destruct aft as [|c [|d aft]]; [reflexivity| |];
    destruct (47 =? c); reflexivity.
Qed.

Lemma removeFirst_trailingSlash :
  forall aft bef,
    removeFirst trailingSlashRegex bef aft
    = rev bef ++ (if endsWith 47 aft then removelast aft else aft).
Proof.
  induction aft as [|c aft IH]; intros bef.
  - cbn [removeFirst]. rewrite rmatch_trailingSlash. cbn.
    symmetry. apply app_nil_r.
  - cbn [removeFirst]. rewrite rmatch_trailingSlash.
    destruct aft as [|d aft].
    + unfold endsWith. cbn [rev app]. rewrite (N.eqb_sym c 47).
      destruct (47 =? c) eqn:E.
      * reflexivity.
      * rewrite IH. cbn. rewrite <- app_assoc. reflexivity.
    + rewrite IH. cbn [rev]. rewrite <- app_assoc. cbn [app].
      assert (He : endsWith 47 (c :: d :: aft) = endsWith 47 (d :: aft)).
      { unfold endsWith. cbn [rev]. destruct (rev aft); reflexivity. }
      rewrite He. destruct (endsWith 47 (d :: aft)); reflexivity.
Qed.

(** One slash at the end of the base URL is dropped before
    [/chat/completions] is appended, and only one: a base URL with and
    without a final slash address the same endpoint. *)
Theorem chatCompletionsUrl_slash (base : jsstring) :
  chatCompletionsUrl (base ++ [47]) = base ++ js "/chat/completions" /\
  (endsWith 47 base = false ->
   chatCompletionsUrl base = base ++ js "/chat/completions").
Proof.
  unfold chatCompletionsUrl. rewrite !removeFirst_trailingSlash.
  cbn [rev app]. split.
  - assert (He : endsWith 47 (base ++ [47]) = true).
    { unfold endsWith. rewrite rev_app_distr. reflexivity. }
    rewrite He, removelast_last. reflexivity.
  - intros H. rewrite H. reflexivity.
Qed.

Lemma chatCompletionsUrl_slash_witness :
  chatCompletionsUrl (js "http://localhost:11434/v1")
  = js "http://localhost:11434/v1/chat/completions".
Proof.
  apply (proj2 (chatCompletionsUrl_slash (js "http://localhost:11434/v1"))).
  reflexivity.
Defined.

(** ** The blocks of a message bubble *)

Lemma execFrom_search (r : regex) :
  forall aft bef,
    search r bef aft = option_map snd (execFrom r bef aft).
Proof.
  induction aft as [|c aft IH]; intros bef; cbn [search execFrom].
  - destruct (rmatch r _ Some); reflexivity.
  - destruct (rmatch r _ Some); [reflexivity|].
    rewrite IH. destruct (execFrom r (c :: bef) aft) as [[sk st]|];
      reflexivity.
Qed.

Lemma codeTexts_app (a b : list Block) :
  codeTexts (a ++ b) = codeTexts a ++ codeTexts b.
Proof. unfold codeTexts. apply flat_map_app. Qed.

Lemma codeTexts_textBlock (t : jsstring) : codeTexts (textBlock t) = [].
Proof. unfold textBlock. destruct (truthy (trim t)); reflexivity. Qed.

Lemma codeTexts_In (t : jsstring) (bs : list Block) :
  In t (codeTexts bs) -> In (CodeBlock t) bs.
Proof.
  induction bs as [|[u|u] bs IH]; cbn; intros H.
  - exact H.
  - right. apply IH, H.
  - destruct H as [H|H]; [left; f_equal; exact H | right; apply IH, H].
Qed.

Lemma splitLoop_regions :
  forall fuel aft bef blocks, (length aft < fuel)%nat ->
    exists bs,
      splitLoop fuel bef aft blocks = Some bs /\
      codeTexts bs
      = codeTexts blocks ++ map trim (regionsFrom (length aft) aft) /\
      (regionsFrom (length aft) aft = [] -> bs = blocks ++ textBlock aft).
Proof.
  induction fuel as [|fuel IH]; intros aft bef blocks Hf; [lia|].
  cbn [splitLoop].
  pose proof (codeBlock_search aft bef) as Hs.
  rewrite execFrom_search in Hs.
  destruct (execFrom codeBlockRegex bef aft) as [[skipped st]|].
  - cbn in Hs. symmetry in Hs.
    pose proof (firstRegion_shorter _ _ _ Hs) as Hlt.
    destruct (IH (after st) (before st)
                (blocks ++ textBlock skipped
                 ++ [CodeBlock (trim (capture st))]))
      as [bs [E [Hc _]]]; [lia|].
    exists bs. split; [exact E|].
    destruct aft as [|c aft]; [simpl in Hlt; lia|].
    cbn [length regionsFrom]. rewrite Hs. unfold matchParts.
    rewrite (regionsFrom_fuel (length aft) (length (after st)) (after st))
      by (simpl in Hlt; lia).
    split; [|discriminate].
    rewrite Hc, !codeTexts_app, codeTexts_textBlock. cbn [map app codeTexts
      flat_map]. rewrite <- app_assoc. reflexivity.
  - cbn in Hs. symmetry in Hs. exists (blocks ++ textBlock aft).
    split; [reflexivity|]. split; [|reflexivity].
    rewrite codeTexts_app, codeTexts_textBlock.
    destruct aft as [|c aft]; [reflexivity|].
    cbn [length regionsFrom]. rewrite Hs. reflexivity.
Qed.

(** What a bubble shows.  The loop of [splitIntoBlocks] terminates and the
    result is never empty.  Its code blocks are the fenced regions that the
    extractor scans, trimmed, in the same order; so a state block taken
    from a reply is always one of the code blocks shown for that reply.  A
    message without a fenced region is one text block: the trimmed text,
    or the text as it is when it is blank. *)
Theorem splitIntoBlocks_spec (text : jsstring) :
  (exists bs, splitLoop (S (length text)) [] text [] = Some bs) /\
  splitIntoBlocks text <> [] /\
  codeTexts (splitIntoBlocks text) = map trim (fencedRegions text) /\
  (forall y, extractStateYaml text = Some y ->
     In (CodeBlock y) (splitIntoBlocks text)) /\
  (fencedRegions text = [] ->
   splitIntoBlocks text
   = [TextBlock (if nonBlank text then trim text else text)]).
Proof.
  destruct (splitLoop_regions (S (length text)) text [] [])
    as [bs [E [Hc Hn]]]; [lia|].
  fold (fencedRegions text) in Hc, Hn. cbn [codeTexts flat_map app] in Hc.
  assert (Hcode : codeTexts (splitIntoBlocks text)
                  = map trim (fencedRegions text)).
  { unfold splitIntoBlocks. rewrite E. destruct bs as [|b bs]; [|exact Hc].
    rewrite <- Hc. reflexivity. }
  split; [exists bs; exact E|]. split; [|split; [exact Hcode|split]].
  - unfold splitIntoBlocks. rewrite E. destruct bs; discriminate.
  - intros y Hy. apply codeTexts_In. rewrite Hcode.
    destruct (extractStateYaml_keepLast text) as [_ Hres].
    rewrite Hres in Hy.
    pose proof (keepLast_spec (fencedRegions text) None) as Hk.
    rewrite Hy in Hk.
    destruct Hk as [[earlier [b [later [Er [_ [_ Hyb]]]]]]|[Hacc _]];
      [|discriminate].
    subst y. apply in_map. rewrite Er. apply in_or_app. right. left.
    reflexivity.
  - intros Hr. specialize (Hn Hr). cbn [app] in Hn.
    unfold splitIntoBlocks. rewrite E, Hn. unfold textBlock, nonBlank.
    destruct (truthy (trim text)); reflexivity.
Qed.

Lemma splitIntoBlocks_spec_witness :
  In (CodeBlock
        (js "STATE:" ++ [10]
           ++ js "  progress: {current_stage: 4, stages_total: 8}"))
    (splitIntoBlocks sampleReply).
Proof.
  apply (splitIntoBlocks_spec sampleReply). vm_compute. reflexivity.
Defined.
